(** * scrape-readme-openapi: the recovery parser, the fragment merger and the
      crawl of [main.py], embedded in Rocq.

    The Python source is [src/main.py].  Its four functions are translated
    one by one:

    - [parse_truncated_json]  (lines 11-92),
    - [fetch_ssr_props]       (lines 95-155),
    - [merge_oas_definitions] (lines 158-179),
    - [main]                  (lines 182-224).

    Python values are dynamically typed; the embedding keeps them as values
    of one type [json] and writes out what each operation does on a value of
    the wrong shape (which exception it raises).  Exceptions are carried by
    the type [outcome]; the parts of the program that touch the file
    system and the network thread a [world]. *)

From Stdlib Require Import List ZArith NArith Bool Lia String Ascii.
From Stdlib Require Import Floats.SpecFloat.
Import ListNotations.

Set Implicit Arguments.
Set Warnings "-register-all,-notation-for-abbreviation".

(* ================================================================== *)
(** * Python strings *)
(* ================================================================== *)

(** A Python [str] is a sequence of Unicode code points. *)
Definition char := N.
Definition str := list char.

(** [u "abc"] is the [str] with the code points of the ASCII text. *)
Definition u (s : string) : str := map N_of_ascii (list_ascii_of_string s).

(** [q] is [u] with every apostrophe read as a double quote (code 34), so
    that JSON texts can be written down legibly: [q "{'a':1}"] is the
    seven characters of the JSON text that maps a to 1. *)
Definition q (s : string) : str :=
  map (fun c => if N.eqb c 39 then 34%N else c) (u s).

Definition ch_quote : char := 34%N.       (* the double quote *)
Definition ch_backslash : char := 92%N.
Definition ch_lbrace : char := 123%N.
Definition ch_rbrace : char := 125%N.
Definition ch_lbracket : char := 91%N.
Definition ch_rbracket : char := 93%N.
Definition ch_comma : char := 44%N.
Definition ch_colon : char := 58%N.
Definition ch_slash : char := 47%N.

Fixpoint str_eqb (a b : str) : bool :=
  match a, b with
  | [], [] => true
  | x :: a', y :: b' => N.eqb x y && str_eqb a' b'
  | _, _ => false
  end.

(** [c.isspace()]: the code points [str.strip()] removes. *)
Definition is_space (c : char) : bool :=
  ((9 <=? c) && (c <=? 13) || (28 <=? c) && (c <=? 32)
   || (c =? 133) || (c =? 160) || (c =? 5760)
   || (8192 <=? c) && (c <=? 8202)
   || (c =? 8232) || (c =? 8233) || (c =? 8239) || (c =? 8287)
   || (c =? 12288))%N.

Fixpoint lstrip (s : str) : str :=
  match s with
  | c :: s' => if is_space c then lstrip s' else s
  | [] => []
  end.

Definition rstrip (s : str) : str := rev (lstrip (rev s)).

(** [s.strip()] *)
Definition strip (s : str) : str := rstrip (lstrip s).

(** [s.startswith(p)] *)
Fixpoint startswith (p s : str) : bool :=
  match p, s with
  | [], _ => true
  | x :: p', y :: s' => N.eqb x y && startswith p' s'
  | _ :: _, [] => false
  end.

(** [s.endswith(p)] *)
Definition endswith (p s : str) : bool := startswith (rev p) (rev s).

(** [c in s] for a single character [c]. *)
Definition char_in (c : char) (s : str) : bool := existsb (N.eqb c) s.

(** [p in s] for strings: [p] occurs as a substring of [s]. *)
Fixpoint substring_in (p s : str) : bool :=
  startswith p s ||
  match s with
  | [] => false
  | _ :: s' => substring_in p s'
  end.

(** [s.find(p, start)]: the lowest index at or after [start] where [p]
    occurs, [None] standing for the -1 of Python. *)
Fixpoint find_from (p s : str) (i : nat) : option nat :=
  if startswith p s then Some i
  else match s with
       | [] => None
       | _ :: s' => find_from p s' (S i)
       end.

Definition find (p s : str) (start : nat) : option nat :=
  if Nat.ltb (List.length s) start then None
  else find_from p (skipn start s) start.

(* ================================================================== *)
(** * JSON values, as Python holds them *)
(* ================================================================== *)

(** What [json.loads] returns: [None], [bool], [int], [float], [str],
    [list], and [dict] with [str] keys.  A [dict] keeps its keys in
    insertion order, so it is an association list; its keys are distinct
    (see [dict_set]).  A [float] is a binary64 number. *)
Inductive json : Type :=
| JNull
| JBool (b : bool)
| JInt (z : Z)
| JFloat (f : spec_float)
| JStr (s : str)
| JArr (items : list json)
| JObj (members : list (str * json)).

Definition dict := list (str * json).

(** [d.get(k)] as an option. *)
Fixpoint dict_lookup (k : str) (d : dict) : option json :=
  match d with
  | [] => None
  | (k', v) :: d' => if str_eqb k k' then Some v else dict_lookup k d'
  end.

(** [k in d] *)
Definition dict_mem (k : str) (d : dict) : bool :=
  match dict_lookup k d with Some _ => true | None => false end.

(** [d[k] = v]: an existing key keeps its place, a new one goes last. *)
Fixpoint dict_set (k : str) (v : json) (d : dict) : dict :=
  match d with
  | [] => [(k, v)]
  | (k', v') :: d' =>
      if str_eqb k k' then (k', v) :: d' else (k', v') :: dict_set k v d'
  end.

(** [del d[k]] for a key that is present. *)
Fixpoint dict_del (k : str) (d : dict) : dict :=
  match d with
  | [] => []
  | (k', v') :: d' =>
      if str_eqb k k' then d' else (k', v') :: dict_del k d'
  end.

(** [d.update(d2)] for a dict [d2]. *)
Definition dict_update (d d2 : dict) : dict :=
  fold_left (fun acc kv => dict_set (fst kv) (snd kv) acc) d2 d.

Definition dict_keys (d : dict) : list str := map fst d.

(* ================================================================== *)
(** * Exceptions *)
(* ================================================================== *)

Inductive exn : Type :=
| KeyError
| TypeError
| AttributeError
| ValueError
| AssertionError (msg : str)
| JSONDecodeError
| RequestException
| Unsupported.
(** [Unsupported] is not a Python exception.  It marks the few runs this
    development does not follow: those in which a payload of the wrong
    shape makes Python go on with a dict keyed by something that is not a
    [str], or index a list by an integer taken from the payload.  No
    statement below is about such a run. *)

Inductive outcome (A : Type) : Type :=
| Ok (a : A)
| Raise (e : exn).
Arguments Raise {A} e.

Definition bind {A B} (r : outcome A) (k : A -> outcome B) : outcome B :=
  match r with
  | Ok a => k a
  | Raise e => Raise e
  end.

Notation "x <- e ;; k" := (bind e (fun x => k))
  (at level 61, e at next level, right associativity).

(** A [for] loop whose body may raise. *)
Fixpoint for_each {A S} (body : S -> A -> outcome S) (l : list A) (s : S)
  : outcome S :=
  match l with
  | [] => Ok s
  | a :: l' => s' <- body s a ;; for_each body l' s'
  end.

(* ================================================================== *)
(** * [json.loads] *)
(* ================================================================== *)

(** [json.loads] belongs to Python's standard library, not to this
    repository.  It is modelled by the grammar its decoder accepts and the
    values it builds (module [json.decoder], default arguments, so
    [strict=True] and the constants [NaN], [Infinity] and [-Infinity] are
    accepted).  On a [str] the decoder either returns a value or raises
    [JSONDecodeError].  The limits of the interpreter (its recursion depth,
    its bound on the digits of an integer literal, memory) are not part of
    the model.

    The decoder is written as two passes that each read their input once,
    left to right, so that both are total by construction: [lex] cuts the
    text into tokens, [parse_tokens] builds the value with an explicit
    stack of open containers. *)

Inductive token : Type :=
| TLBrace | TRBrace | TLBracket | TRBracket | TComma | TColon
| TStr (s : str)
| TAtom (v : json).

Definition is_digit (c : char) : bool := ((48 <=? c) && (c <=? 57))%N.

Definition digit_val (c : char) : Z := Z.of_N c - 48.

(** The value of a run of decimal digits. *)
Definition decimal (ds : str) : Z :=
  fold_left (fun acc c => 10 * acc + digit_val c)%Z ds 0%Z.

Fixpoint span_digits (s : str) : str * str :=
  match s with
  | c :: s' =>
      if is_digit c then let (ds, r) := span_digits s' in (c :: ds, r)
      else ([], s)
  | [] => ([], [])
  end.

(** [float(text)] for a decimal literal with digits [m] and decimal
    exponent [e10]: the binary64 number nearest to m * 10^e10, ties to
    even, an infinity when out of range. *)
Definition float_of_decimal (neg : bool) (m : Z) (e10 : Z) : spec_float :=
  match m with
  | Zpos p =>
      if (0 <=? e10)%Z
      then binary_round 53 1024 neg (p * Z.to_pos (10 ^ e10)) 0
      else
        let '(mq, eq, lq) :=
          SFdiv_core_binary 53 1024 (Zpos p) 0 (10 ^ (- e10)) 0 in
        binary_round_aux 53 1024 neg mq eq lq
  | _ => S754_zero neg
  end.

(** The number grammar of the decoder: an optional minus sign; the integer
    part, a single 0 or a digit from 1 to 9 followed by any digits; an
    optional fraction, a dot and at least one digit; an optional exponent,
    e or E, an optional sign and at least one digit.  An integer literal
    gives an [int], one with a fraction or an exponent a [float]. *)
Definition parse_number (s : str) : option json :=
  let (neg, s1) :=
    match s with
    | 45%N :: r => (true, r)
    | _ => (false, s)
    end in
  let (ds, s2) := span_digits s1 in
  let int_ok :=
    match ds with
    | [] => false
    | [_] => true
    | 48%N :: _ => false
    | _ => true
    end in
  if negb int_ok then None
  else
    let '(fs, has_frac, s3) :=
      match s2 with
      | 46%N :: r =>
          let (fs, r') := span_digits r in
          match fs with
          | [] => ([], false, s2)
          | _ => (fs, true, r')
          end
      | _ => ([], false, s2)
      end in
    let '(e10, has_exp, s4) :=
      match s3 with
      | c :: r =>
          if (c =? 101)%N || (c =? 69)%N then
            let (eneg, r1) :=
              match r with
              | 45%N :: r1 => (true, r1)
              | 43%N :: r1 => (false, r1)
              | _ => (false, r)
              end in
            let (es, r2) := span_digits r1 in
            match es with
            | [] => (0%Z, false, s3)
            | _ => ((if eneg then - decimal es else decimal es)%Z, true, r2)
            end
          else (0%Z, false, s3)
      | [] => (0%Z, false, s3)
      end in
    match s4 with
    | _ :: _ => None
    | [] =>
        if has_frac || has_exp
        then Some (JFloat (float_of_decimal neg (decimal (ds ++ fs))
                             (e10 - Z.of_nat (List.length fs))))
        else Some (JInt (if neg then - decimal ds else decimal ds)%Z)
    end.

(** A maximal run of characters that is neither white space, punctuation
    nor a string must be one of the literals or a number. *)
Definition atom_value (s : str) : option json :=
  if str_eqb s (u "null") then Some JNull
  else if str_eqb s (u "true") then Some (JBool true)
  else if str_eqb s (u "false") then Some (JBool false)
  else if str_eqb s (u "NaN") then Some (JFloat S754_nan)
  else if str_eqb s (u "Infinity") then Some (JFloat (S754_infinity false))
  else if str_eqb s (u "-Infinity") then Some (JFloat (S754_infinity true))
  else parse_number s.

Definition hex_val (c : char) : option N :=
  if ((48 <=? c) && (c <=? 57))%N then Some (c - 48)%N
  else if ((97 <=? c) && (c <=? 102))%N then Some (c - 87)%N
  else if ((65 <=? c) && (c <=? 70))%N then Some (c - 55)%N
  else None.

Definition is_high_surrogate (c : N) : bool :=
  ((55296 <=? c) && (c <=? 56319))%N.
Definition is_low_surrogate (c : N) : bool :=
  ((56320 <=? c) && (c <=? 57343))%N.
Definition join_surrogates (hi lo : N) : N :=
  (65536 + (hi - 55296) * 1024 + (lo - 56320))%N.

(** Where the lexer is.  In a string, [hi] is a high surrogate written as
    a \u escape just before the cursor and not yet appended: a low
    surrogate escape that follows at once is joined with it. *)
Inductive lex_mode : Type :=
| LDefault
| LAtom (acc : str)
| LStr (acc : str) (hi : option N)
| LEsc (acc : str) (hi : option N)
| LHex (value : N) (count : nat) (acc : str) (hi : option N).

Definition flush_hi (acc : str) (hi : option N) : str :=
  match hi with
  | Some h => acc ++ [h]
  | None => acc
  end.

Definition is_json_space (c : char) : bool :=
  ((c =? 32) || (c =? 9) || (c =? 10) || (c =? 13))%N.

Definition punctuation (c : char) : option token :=
  if (c =? ch_lbrace)%N then Some TLBrace
  else if (c =? ch_rbrace)%N then Some TRBrace
  else if (c =? ch_lbracket)%N then Some TLBracket
  else if (c =? ch_rbracket)%N then Some TRBracket
  else if (c =? ch_comma)%N then Some TComma
  else if (c =? ch_colon)%N then Some TColon
  else None.

Definition simple_escape (c : char) : option char :=
  if (c =? ch_quote)%N then Some ch_quote
  else if (c =? ch_backslash)%N then Some ch_backslash
  else if (c =? ch_slash)%N then Some ch_slash
  else if (c =? 98)%N then Some 8%N
  else if (c =? 102)%N then Some 12%N
  else if (c =? 110)%N then Some 10%N
  else if (c =? 114)%N then Some 13%N
  else if (c =? 116)%N then Some 9%N
  else None.

Definition emit (t : token) (r : option (list token)) : option (list token) :=
  option_map (cons t) r.

Definition emit_atom (acc : str) (r : option (list token))
  : option (list token) :=
  match atom_value acc with
  | Some v => emit (TAtom v) r
  | None => None
  end.

Fixpoint lex (mode : lex_mode) (s : str) : option (list token) :=
  match s with
  | [] =>
      match mode with
      | LDefault => Some []
      | LAtom acc => emit_atom acc (Some [])
      | _ => None                       (* unterminated string *)
      end
  | c :: s' =>
      match mode with
      | LDefault =>
          if is_json_space c then lex LDefault s'
          else if (c =? ch_quote)%N then lex (LStr [] None) s'
          else match punctuation c with
               | Some t => emit t (lex LDefault s')
               | None => lex (LAtom [c]) s'
               end
      | LAtom acc =>
          if is_json_space c then emit_atom acc (lex LDefault s')
          else if (c =? ch_quote)%N then emit_atom acc (lex (LStr [] None) s')
          else match punctuation c with
               | Some t => emit_atom acc (emit t (lex LDefault s'))
               | None => lex (LAtom (acc ++ [c])) s'
               end
      | LStr acc hi =>
          if (c =? ch_quote)%N then emit (TStr (flush_hi acc hi)) (lex LDefault s')
          else if (c =? ch_backslash)%N then lex (LEsc acc hi) s'
          else if (c <? 32)%N then None   (* control character, strict mode *)
          else lex (LStr (flush_hi acc hi ++ [c]) None) s'
      | LEsc acc hi =>
          if (c =? 117)%N then lex (LHex 0 0 acc hi) s'
          else match simple_escape c with
               | Some d => lex (LStr (flush_hi acc hi ++ [d]) None) s'
               | None => None
               end
      | LHex v n acc hi =>
          match hex_val c with
          | None => None
          | Some d =>
              let v' := (v * 16 + d)%N in
              if Nat.eqb n 3 then
                match hi with
                | Some h =>
                    if is_low_surrogate v'
                    then lex (LStr (acc ++ [join_surrogates h v']) None) s'
                    else if is_high_surrogate v'
                    then lex (LStr (acc ++ [h]) (Some v')) s'
                    else lex (LStr (acc ++ [h; v']) None) s'
                | None =>
                    if is_high_surrogate v'
                    then lex (LStr acc (Some v')) s'
                    else lex (LStr (acc ++ [v']) None) s'
                end
              else lex (LHex v' (S n) acc hi) s'
          end
      end
  end.

(** The parser.  [frame] is a container that has been opened and not yet
    closed: an array with the items read so far, or an object with the
    members read so far and the key whose value is awaited. *)
Inductive frame : Type :=
| FArr (items : list json)
| FObj (members : dict) (key : str).

Inductive phase : Type :=
| ValueOrClose   (* just after an opening bracket *)
| Value          (* after a comma in an array, or after a colon *)
| SepOrClose     (* after a value inside a container *)
| KeyOrClose     (* just after an opening brace *)
| Key            (* after a comma in an object *)
| Colon.         (* after a key *)

Inductive pstate : Type :=
| PStart
| PRun (ph : phase) (top : frame) (stack : list frame)
| PDone (v : json)
| PFail.

(** A value is complete: hand it to the innermost open container. *)
Definition deliver (v : json) (stack : list frame) : pstate :=
  match stack with
  | [] => PDone v
  | FArr items :: stack' => PRun SepOrClose (FArr (items ++ [v])) stack'
  | FObj members key :: stack' =>
      PRun SepOrClose (FObj (dict_set key v members) key) stack'
  end.

(** A token that starts a value, read where a value is expected. *)
Definition start_value (t : token) (stack : list frame) : pstate :=
  match t with
  | TStr s => deliver (JStr s) stack
  | TAtom v => deliver v stack
  | TLBrace => PRun KeyOrClose (FObj [] []) stack
  | TLBracket => PRun ValueOrClose (FArr []) stack
  | _ => PFail
  end.

Definition parse_step (st : pstate) (t : token) : pstate :=
  match st with
  | PStart => start_value t []
  | PDone _ => PFail                                 (* extra data *)
  | PFail => PFail
  | PRun ph top stack =>
      match ph, top, t with
      | ValueOrClose, FArr items, TRBracket => deliver (JArr items) stack
      | ValueOrClose, _, _ => start_value t (top :: stack)
      | Value, _, _ => start_value t (top :: stack)
      | SepOrClose, FArr _, TComma => PRun Value top stack
      | SepOrClose, FArr items, TRBracket => deliver (JArr items) stack
      | SepOrClose, FObj _ _, TComma => PRun Key top stack
      | SepOrClose, FObj members _, TRBrace => deliver (JObj members) stack
      | KeyOrClose, FObj members _, TRBrace => deliver (JObj members) stack
      | KeyOrClose, FObj members _, TStr k => PRun Colon (FObj members k) stack
      | Key, FObj members _, TStr k => PRun Colon (FObj members k) stack
      | Colon, _, TColon => PRun Value top stack
      | _, _, _ => PFail
      end
  end.

Definition parse_tokens (ts : list token) : option json :=
  match fold_left parse_step ts PStart with
  | PDone v => Some v
  | _ => None
  end.

(** [json.loads(s)] *)
Definition json_loads (s : str) : outcome json :=
  match lex LDefault s with
  | None => Raise JSONDecodeError
  | Some ts =>
      match parse_tokens ts with
      | Some v => Ok v
      | None => Raise JSONDecodeError
      end
  end.

(* ================================================================== *)
(** * Python operations on JSON values *)
(* ================================================================== *)

(** [v[k]] for a [str] key: only a dict can be indexed by a [str]. *)
Definition py_getitem (v : json) (k : str) : outcome json :=
  match v with
  | JObj d =>
      match dict_lookup k d with
      | Some x => Ok x
      | None => Raise KeyError
      end
  | _ => Raise TypeError
  end.

(** [k in v] for a [str] [k]: a key of a dict, an element of a list, a
    substring of a [str]; the other values are not containers. *)
Definition py_contains (k : str) (v : json) : outcome bool :=
  match v with
  | JObj d => Ok (dict_mem k d)
  | JArr items =>
      Ok (existsb (fun x => match x with JStr s => str_eqb k s | _ => false end)
            items)
  | JStr s => Ok (substring_in k s)
  | _ => Raise TypeError
  end.

(** [v[k] = x] for a [str] key. *)
Definition py_setitem (v : json) (k : str) (x : json) : outcome json :=
  match v with
  | JObj d => Ok (JObj (dict_set k x d))
  | _ => Raise TypeError
  end.

(** [del v[k]] for a [str] key. *)
Definition py_delitem (v : json) (k : str) : outcome json :=
  match v with
  | JObj d => if dict_mem k d then Ok (JObj (dict_del k d)) else Raise KeyError
  | _ => Raise TypeError
  end.

(** [v.items()] *)
Definition py_items (v : json) : outcome (list (str * json)) :=
  match v with
  | JObj d => Ok d
  | _ => Raise AttributeError
  end.

(** [for x in v]: the elements of a list, the keys of a dict, the
    characters of a [str]. *)
Definition py_iter (v : json) : outcome (list json) :=
  match v with
  | JArr items => Ok items
  | JObj d => Ok (map (fun kv => JStr (fst kv)) d)
  | JStr s => Ok (map (fun c => JStr [c]) s)
  | _ => Raise TypeError
  end.

(** [v.copy()], a shallow copy. *)
Definition py_copy (v : json) : outcome json :=
  match v with
  | JObj d => Ok (JObj d)
  | JArr items => Ok (JArr items)
  | _ => Raise AttributeError
  end.

Definition float_is_zero (f : spec_float) : bool :=
  match f with
  | S754_zero _ => true
  | _ => false
  end.

(** [bool(v)] *)
Definition py_truthy (v : json) : bool :=
  match v with
  | JNull => false
  | JBool b => b
  | JInt z => negb (z =? 0)%Z
  | JFloat f => negb (float_is_zero f)
  | JStr s => match s with [] => false | _ => true end
  | JArr items => match items with [] => false | _ => true end
  | JObj d => match d with [] => false | _ => true end
  end.

(** One element of the argument of [dict.update] when the argument is a
    sequence: it must itself be a sequence of two things, a key and a
    value. *)
Definition update_pair (e : json) : outcome (str * json) :=
  match e with
  | JArr [k; v] =>
      match k with
      | JStr s => Ok (s, v)
      | JArr _ | JObj _ => Raise TypeError          (* unhashable key *)
      | _ => Raise Unsupported                      (* a key that is no str *)
      end
  | JStr [a; b] => Ok ([a], JStr [b])
  | JObj [(k1, _); (k2, _)] => Ok (k1, JStr k2)
  | JArr _ | JStr _ | JObj _ => Raise ValueError  (* length is not 2 *)
  | _ => Raise TypeError
  end.

(** [d.update(arg)] for a dict [d]. *)
Definition dict_update_py (d : dict) (arg : json) : outcome dict :=
  match arg with
  | JObj d2 => Ok (dict_update d d2)
  | JArr items =>
      for_each (fun acc e => kv <- update_pair e ;;
                             Ok (dict_set (fst kv) (snd kv) acc)) items d
  | JStr [] => Ok d
  | JStr (_ :: _) => Raise ValueError
  | _ => Raise TypeError
  end.

(** [target.update(arg)]: only a dict has the method. *)
Definition py_update (target arg : json) : outcome json :=
  match target with
  | JObj d => d' <- dict_update_py d arg ;; Ok (JObj d')
  | _ => Raise AttributeError
  end.

(** ** Sets of hashable values *)

Definition hashable (v : json) : bool :=
  match v with
  | JArr _ | JObj _ => false
  | _ => true
  end.

(** Whether the float [f] equals the integer [z]. *)
Definition float_eq_int (f : spec_float) (z : Z) : bool :=
  match f with
  | S754_zero _ => (z =? 0)%Z
  | S754_finite s m e =>
      let sm := if s then Zneg m else Zpos m in
      if (0 <=? e)%Z then (z =? sm * 2 ^ e)%Z
      else (z * 2 ^ (- e) =? sm)%Z
  | _ => false
  end.

Definition as_int (v : json) : option Z :=
  match v with
  | JBool b => Some (if b then 1 else 0)%Z
  | JInt z => Some z
  | _ => None
  end.

(** Equality of two hashable values as a set sees it.  [True] equals 1
    and 1.0; the one [NaN] object of the decoder is found by identity. *)
Definition py_eq (a b : json) : bool :=
  match a, b with
  | JNull, JNull => true
  | JStr s, JStr t => str_eqb s t
  | JFloat f, JFloat g =>
      SFeqb f g || match f, g with S754_nan, S754_nan => true | _, _ => false end
  | JFloat f, _ => match as_int b with Some z => float_eq_int f z | None => false end
  | _, JFloat g => match as_int a with Some z => float_eq_int g z | None => false end
  | _, _ =>
      match as_int a, as_int b with
      | Some x, Some y => (x =? y)%Z
      | _, _ => false
      end
  end.

(** [s.add(v)] *)
Definition set_add (v : json) (s : list json) : outcome (list json) :=
  if hashable v then Ok (if existsb (py_eq v) s then s else s ++ [v])
  else Raise TypeError.

(** [v in s] *)
Definition set_contains (v : json) (s : list json) : outcome bool :=
  if hashable v then Ok (existsb (py_eq v) s) else Raise TypeError.

(** [prefix + v] for a [str] prefix. *)
Definition py_concat (prefix : str) (v : json) : outcome str :=
  match v with
  | JStr s => Ok (prefix ++ s)
  | _ => Raise TypeError
  end.

(* ================================================================== *)
(** * [parse_truncated_json] (main.py, lines 11-92) *)
(* ================================================================== *)

(** The local variables of the scanning loop (lines 31-37).  The counters
    are decremented without a guard, so they are integers. *)
Record scanner : Type := {
  pairs : list str;
  brace_count : Z;
  bracket_count : Z;
  in_string : bool;
  escape_next : bool;
  current_pair : str
}.

Definition scanner_init : scanner :=
  {| pairs := []; brace_count := 0; bracket_count := 0;
     in_string := false; escape_next := false; current_pair := [] |}.

(** The body of the loop [for char in content] (lines 39-70). *)
Definition scan_char (st : scanner) (char : char) : scanner :=
  if escape_next st then
    (* lines 40-43 *)
    {| pairs := pairs st; brace_count := brace_count st;
       bracket_count := bracket_count st; in_string := in_string st;
       escape_next := false; current_pair := current_pair st ++ [char] |}
  else if (char =? ch_backslash)%N && in_string st then
    (* lines 45-48 *)
    {| pairs := pairs st; brace_count := brace_count st;
       bracket_count := bracket_count st; in_string := in_string st;
       escape_next := true; current_pair := current_pair st ++ [char] |}
  else
    (* lines 50-51 *)
    let in_string' :=
      if (char =? ch_quote)%N && negb (escape_next st)
      then negb (in_string st) else in_string st in
    let keep (brace bracket : Z) :=
      (* line 70 *)
      {| pairs := pairs st; brace_count := brace; bracket_count := bracket;
         in_string := in_string'; escape_next := escape_next st;
         current_pair := current_pair st ++ [char] |} in
    if negb in_string' then
      (* lines 53-68 *)
      if (char =? ch_lbrace)%N then
        keep (brace_count st + 1)%Z (bracket_count st)
      else if (char =? ch_rbrace)%N then
        keep (brace_count st - 1)%Z (bracket_count st)
      else if (char =? ch_lbracket)%N then
        keep (brace_count st) (bracket_count st + 1)%Z
      else if (char =? ch_rbracket)%N then
        keep (brace_count st) (bracket_count st - 1)%Z
      else if (char =? ch_comma)%N && (brace_count st =? 0)%Z
              && (bracket_count st =? 0)%Z then
        let pair := strip (current_pair st) in
        {| pairs := if char_in ch_colon pair then pairs st ++ [pair]
                    else pairs st;
           brace_count := brace_count st; bracket_count := bracket_count st;
           in_string := in_string'; escape_next := escape_next st;
           current_pair := [] |}
      else keep (brace_count st) (bracket_count st)
    else keep (brace_count st) (bracket_count st).

(** Lines 16-21: the text between the outer braces. *)
Definition strip_braces (json_str : str) : str :=
  let content := strip json_str in
  let content := if startswith [ch_lbrace] content then tl content
                 else content in
  if endswith [ch_rbrace] content then removelast content else content.

(** Lines 31-79: the candidate entries of the text. *)
Definition scan_pairs (content : str) : list str :=
  let st := fold_left scan_char content scanner_init in
  let last := strip (current_pair st) in
  if match last with [] => false | _ => true end
     && char_in ch_colon (current_pair st)
     && (brace_count st =? 0)%Z && (bracket_count st =? 0)%Z
  then pairs st ++ [last]
  else pairs st.

(** Lines 82-90: each entry is decoded on its own between braces; the
    handler catches [JSONDecodeError] and nothing else. *)
Fixpoint parse_pairs (ps : list str) (result : dict) : outcome dict :=
  match ps with
  | [] => Ok result
  | pair_ :: rest =>
      let test_json := [ch_lbrace] ++ pair_ ++ [ch_rbrace] in
      match (parsed <- json_loads test_json ;; dict_update_py result parsed) with
      | Ok result' => parse_pairs rest result'
      | Raise JSONDecodeError => parse_pairs rest result
      | Raise e => Raise e
      end
  end.

(** The call [re.findall(pattern, content)] of line 27 is left out: its
    value, [matches], is never read, and matching a pattern against a
    [str] neither fails nor changes anything. *)
Definition parse_truncated_json (json_str : str) : outcome dict :=
  parse_pairs (scan_pairs (strip_braces json_str)) [].

(* ================================================================== *)
(** * [merge_oas_definitions] (main.py, lines 158-179) *)
(* ================================================================== *)

Definition k_paths : str := u "paths".
Definition k_components : str := u "components".
Definition k_oasDefinition : str := u "oasDefinition".

(** The merge mutates dicts that are reached through [merged]:
    [merged["paths"][path] = methods] changes the dict stored under
    "paths".  Here the changed dict is stored back where it was read, from
    the inside out, so the returned value is the tree a reader of [merged]
    sees after the statement.  The fragment [new] is only read. *)

(** Lines 162-166, the body of [for path, methods in new["paths"].items()]. *)
Definition merge_path (merged : json) (entry : str * json) : outcome json :=
  let (path, methods) := entry in
  mpaths <- py_getitem merged k_paths ;;
  present <- py_contains path mpaths ;;
  if negb present then
    mpaths' <- py_setitem mpaths path methods ;;
    py_setitem merged k_paths mpaths'
  else
    target <- py_getitem mpaths path ;;
    target' <- py_update target methods ;;
    mpaths' <- py_setitem mpaths path target' ;;
    py_setitem merged k_paths mpaths'.

(** Lines 174-177, the body of
    [for name, item in new["components"][section].items()]. *)
Definition merge_component (section : str) (merged : json)
  (entry : str * json) : outcome json :=
  let (name, item) := entry in
  mcomps <- py_getitem merged k_components ;;
  msection <- py_getitem mcomps section ;;
  present <- py_contains name msection ;;
  if negb present then
    msection' <- py_setitem msection name item ;;
    mcomps' <- py_setitem mcomps section msection' ;;
    py_setitem merged k_components mcomps'
  else
    target <- py_getitem msection name ;;
    target' <- py_update target item ;;
    msection' <- py_setitem msection name target' ;;
    mcomps' <- py_setitem mcomps section msection' ;;
    py_setitem merged k_components mcomps'.

(** Lines 170-177, the body of [for section in new["components"]]. *)
Definition merge_section (ncomps : json) (merged : json) (section : json)
  : outcome json :=
  mcomps <- py_getitem merged k_components ;;
  match section with
  | JStr section =>
      present <- py_contains section mcomps ;;
      if negb present then
        nsection <- py_getitem ncomps section ;;
        mcomps' <- py_setitem mcomps section nsection ;;
        py_setitem merged k_components mcomps'
      else
        nsection <- py_getitem ncomps section ;;
        items <- py_items nsection ;;
        for_each (merge_component section) items merged
  | JInt _ | JBool _ => Raise Unsupported
  | _ => Raise TypeError
  end.

Definition merge_oas_definitions (base new : json) : outcome json :=
  merged <- py_copy base ;;
  has_paths <- py_contains k_paths new ;;
  merged <-
    (if has_paths then
       npaths <- py_getitem new k_paths ;;
       items <- py_items npaths ;;
       for_each merge_path items merged
     else Ok merged) ;;
  has_components <- py_contains k_components new ;;
  if has_components then
    ncomps <- py_getitem new k_components ;;
    sections <- py_iter ncomps ;;
    for_each (merge_section ncomps) sections merged
  else Ok merged.

(* ================================================================== *)
(** * The world outside the program *)
(* ================================================================== *)

(** The files the program reads and writes, the requests it has sent, and,
    for the statements about which pages are fetched, the arguments
    [fetch_ssr_props] has been called with (oldest first). *)
Record world : Type := {
  files : list (str * str);
  requests : list str;
  fetch_calls : list str
}.

Fixpoint file_read (path : str) (fs : list (str * str)) : option str :=
  match fs with
  | [] => None
  | (p, c) :: fs' => if str_eqb path p then Some c else file_read path fs'
  end.

(** [os.path.exists(path)] *)
Definition file_exists (path : str) (w : world) : bool :=
  match file_read path (files w) with Some _ => true | None => false end.

Fixpoint file_remove (path : str) (fs : list (str * str))
  : list (str * str) :=
  match fs with
  | [] => []
  | (p, c) :: fs' =>
      if str_eqb path p then file_remove path fs'
      else (p, c) :: file_remove path fs'
  end.

(** [open(path, "w").write(content)] *)
Definition write_file (path content : str) (w : world) : world :=
  {| files := (path, content) :: file_remove path (files w);
     requests := requests w; fetch_calls := fetch_calls w |}.

(** [os.remove(path)] *)
Definition remove_file (path : str) (w : world) : world :=
  {| files := file_remove path (files w);
     requests := requests w; fetch_calls := fetch_calls w |}.

Definition log_request (url : str) (w : world) : world :=
  {| files := files w; requests := requests w ++ [url];
     fetch_calls := fetch_calls w |}.

Definition log_fetch_call (url : str) (w : world) : world :=
  {| files := files w; requests := requests w;
     fetch_calls := fetch_calls w ++ [url] |}.

(** A computation that may raise and may change the world. *)
Definition M (A : Type) : Type := world -> outcome A * world.

Definition ret {A} (a : A) : M A := fun w => (Ok a, w).

Definition lift {A} (r : outcome A) : M A := fun w => (r, w).

Definition bindM {A B} (m : M A) (k : A -> M B) : M B :=
  fun w =>
    match m w with
    | (Ok a, w') => k a w'
    | (Raise e, w') => (Raise e, w')
    end.

Notation "x <~ e ;; k" := (bindM e (fun x => k))
  (at level 61, e at next level, right associativity).

(** A [for] loop whose body may raise and may change the world. *)
Fixpoint for_eachM {A S} (body : S -> A -> M S) (l : list A) (s : S) : M S :=
  match l with
  | [] => ret s
  | a :: l' => s' <~ body s a ;; for_eachM body l' s'
  end.

(** What [requests.get(url)] gives: a response, or an exception of the
    library. *)
Inductive http_result : Type :=
| Response (status_code : Z) (text : str)
| RequestFailed.

(** What [soup.find("script", id="ssr-props")] followed by
    [.get("data-initial-props")] gives on a document. *)
Inductive soup_result : Type :=
| NoScriptTag
| NoAttribute
| Attribute (value : str).

Definition assert_ (cond : bool) (msg : str) : outcome unit :=
  if cond then Ok tt else Raise (AssertionError msg).

Definition tag_needle : str := q "id='ssr-props'".
Definition attr_needle : str := q "data-initial-props='".

Section Program.

(** The libraries and services the program calls and this repository does
    not contain.  The answer of the network may depend on the requests
    made before. *)
Variable sha256_hexdigest : str -> str.
Variable requests_get : list str -> str -> http_result.
Variable soup_find_ssr_props : str -> soup_result.
Variable json_dumps : json -> str.

(* ---------------------------------------------------------------- *)
(** ** [fetch_ssr_props] (main.py, lines 95-155) *)
(* ---------------------------------------------------------------- *)

(** Lines 122-148: from the text of the response to the payload. *)
Definition extract_props (html_content : str) : outcome json :=
  match find tag_needle html_content 0 with
  | None => Raise (AssertionError (tag_needle ++ u " not found"))
  | Some tag_start =>
      match find attr_needle html_content
              (tag_start + List.length tag_needle) with
      | None => Raise (AssertionError (attr_needle ++ u " not found"))
      | Some attr_start =>
          let is_truncated :=
            match find [ch_quote] html_content
                    (attr_start + List.length attr_needle) with
            | None => true
            | Some _ => false
            end in
          let html_content :=
            if is_truncated then html_content ++ q "'></script>"
            else html_content in
          match soup_find_ssr_props html_content with
          | NoScriptTag =>
              Raise (AssertionError
                       (u "No script tag with id 'ssr-props' found"))
          | NoAttribute =>
              Raise (AssertionError (u "attr data-initial-props missing"))
          | Attribute data_json =>
              data <-
                (if is_truncated then
                   data <- parse_truncated_json data_json ;;
                   _ <- assert_ (dict_mem k_oasDefinition data)
                          (u "truncated JSON missing oasDefinition") ;;
                   Ok (JObj data)
                 else json_loads data_json) ;;
              _ <- assert_ (match data with JObj _ => true | _ => false end)
                     (u "data-initial-props is not a JSON object") ;;
              Ok data
          end
      end
  end.

(** The value [None] of Python is [JNull]. *)
Definition fetch_ssr_props (url : str) : M json := fun w =>
  let w := log_fetch_call url w in
  let cache_key := sha256_hexdigest url in
  let not_found_cache_file := u "out/cache/not_found_" ++ cache_key in
  if file_exists not_found_cache_file w then (Ok JNull, w)
  else
    let cache_file := u "out/cache/ssr_props_" ++ cache_key ++ u ".json" in
    match file_read cache_file (files w) with
    | Some content => (json_loads content, w)
    | None =>
        match requests_get (requests w) url with
        | RequestFailed => (Raise RequestException, log_request url w)
        | Response status_code text =>
            let w := log_request url w in
            if negb (status_code =? 200)%Z then
              (Ok JNull,
               if (status_code =? 404)%Z
               then write_file not_found_cache_file [] w else w)
            else
              let w := write_file (u "out/processing.html") text w in
              match extract_props text with
              | Raise e => (Raise e, w)
              | Ok data =>
                  (Ok data,
                   remove_file (u "out/processing.html")
                     (write_file cache_file (json_dumps data) w))
              end
        end
    end.

(* ---------------------------------------------------------------- *)
(** ** [main] (main.py, lines 182-224) *)
(* ---------------------------------------------------------------- *)

(** Lines 189-193. *)
Definition collect_page (non_reference_pages : list json) (page : json)
  : outcome (list json) :=
  is_reference <- py_getitem page (u "isReference") ;;
  if negb (py_truthy is_reference) then
    slug <- py_getitem page (u "slug") ;;
    set_add slug non_reference_pages
  else Ok non_reference_pages.

Definition collect_doc (non_reference_pages : list json) (doc : json)
  : outcome (list json) :=
  pages <- py_getitem doc (u "pages") ;;
  pages <- py_iter pages ;;
  for_each collect_page pages non_reference_pages.

Definition collect_non_reference (start_props : json) : outcome (list json) :=
  sidebars <- py_getitem start_props (u "sidebars") ;;
  docs <- py_getitem sidebars (u "docs") ;;
  docs <- py_iter docs ;;
  for_each collect_doc docs [].

(** Lines 195-197. *)
Definition make_url_prefix (start_url : str) : str :=
  if endswith (u "/") start_url then start_url else start_url ++ u "/".

(** Lines 199-201. *)
Definition seed (start_props : json) : outcome json :=
  fragment <- py_getitem start_props k_oasDefinition ;;
  oas_definition <- py_copy fragment ;;
  oas_definition <- py_setitem oas_definition k_paths (JObj []) ;;
  py_setitem oas_definition k_components (JObj []).

(** The two messages of lines 206 and 209 format [page['title']] and
    [page['slug']]; what is printed is not modelled, that the two are
    looked up is. *)
Definition print_page (page : json) : outcome unit :=
  _ <- py_getitem page (u "title") ;;
  _ <- py_getitem page (u "slug") ;;
  Ok tt.

(** Lines 205-217, the body of [for page in ref["pages"]]. *)
Definition process_page (url_prefix : str) (non_reference_pages : list json)
  (oas_definition : json) (page : json) : M json :=
  slug <~ lift (py_getitem page (u "slug")) ;;
  skip <~ lift (set_contains slug non_reference_pages) ;;
  if skip then
    _ <~ lift (print_page page) ;;
    ret oas_definition
  else
    _ <~ lift (print_page page) ;;
    slug <~ lift (py_getitem page (u "slug")) ;;
    url <~ lift (py_concat url_prefix slug) ;;
    props <~ fetch_ssr_props url ;;
    match props with
    | JNull => ret oas_definition
    | _ =>
        has <~ lift (py_contains k_oasDefinition props) ;;
        if negb has then ret oas_definition
        else
          fragment <~ lift (py_getitem props k_oasDefinition) ;;
          if negb (py_truthy fragment) then ret oas_definition
          else
            fragment <~ lift (py_getitem props k_oasDefinition) ;;
            lift (merge_oas_definitions oas_definition fragment)
    end.

(** Lines 203-204, the body of [for ref in refs]. *)
Definition process_ref (url_prefix : str) (non_reference_pages : list json)
  (oas_definition : json) (ref : json) : M json :=
  pages <~ lift (py_getitem ref (u "pages")) ;;
  pages <~ lift (py_iter pages) ;;
  for_eachM (process_page url_prefix non_reference_pages) pages oas_definition.

(** Lines 219-221. *)
Definition strip_key (oas_definition : json) (k : str) : outcome json :=
  present <- py_contains k oas_definition ;;
  if present then py_delitem oas_definition k else Ok oas_definition.

Definition bookkeeping_keys : list str := [u "x-readme-fauxas"; u "_id"].

Definition strip_bookkeeping (oas_definition : json) : outcome json :=
  for_each strip_key bookkeeping_keys oas_definition.

(** Lines 203-217: the crawl. *)
Definition crawl (url_prefix : str) (non_reference_pages : list json)
  (refs : list json) (oas_definition : json) : M json :=
  for_eachM (process_ref url_prefix non_reference_pages) refs oas_definition.

(** [main] returns nothing; the value given here is the tree it hands to
    [json.dump] at line 224. *)
Definition main (start_url : str) : M json :=
  start_props <~ fetch_ssr_props start_url ;;
  refs <~ lift (sidebars <- py_getitem start_props (u "sidebars") ;;
                py_getitem sidebars (u "refs")) ;;
  non_reference_pages <~ lift (collect_non_reference start_props) ;;
  let url_prefix := make_url_prefix start_url in
  oas_definition <~ lift (seed start_props) ;;
  refs <~ lift (py_iter refs) ;;
  oas_definition <~ crawl url_prefix non_reference_pages refs oas_definition ;;
  oas_definition <~ lift (strip_bookkeeping oas_definition) ;;
  fun w =>
    (Ok oas_definition,
     write_file (u "out/oas_definition.json") (json_dumps oas_definition) w).

End Program.

(* ================================================================== *)
(** * Predicates used in the statements *)
(* ================================================================== *)

(** The keys of a dict are distinct. *)
Fixpoint nodup_keys (d : dict) : bool :=
  match d with
  | [] => true
  | (k, _) :: d' => negb (dict_mem k d') && nodup_keys d'
  end.

(** The condition of the scanner for ending an entry at character [c]:
    a comma met outside a string while both depth counters are zero. *)
Definition entry_boundary (st : scanner) (c : char) : bool :=
  (c =? ch_comma)%N && negb (in_string st)
  && (brace_count st =? 0)%Z && (bracket_count st =? 0)%Z.

(** The states the scanner goes through: those reached from the initial
    state by reading some text. *)
Definition scanner_after (text : str) : scanner :=
  fold_left scan_char text scanner_init.

(** The outermost container still open while the decoder reads an object:
    an invariant of the decoder's stack. *)
Definition frame_is_object (f : frame) : bool :=
  match f with
  | FObj _ _ => true
  | FArr _ => false
  end.

Definition reading_object (st : pstate) : bool :=
  match st with
  | PStart => false
  | PRun _ top stack => frame_is_object (last stack top)
  | PDone (JObj _) => true
  | PDone _ => false
  | PFail => true
  end.

(** The invariant of the accumulating result: a dict with a "paths"
    section and a "components" section, each of them a dict. *)
Definition has_sections (t : json) : bool :=
  match t with
  | JObj d =>
      match dict_lookup k_paths d, dict_lookup k_components d with
      | Some (JObj _), Some (JObj _) => true
      | _, _ => false
      end
  | _ => false
  end.

(** The "paths" section and the "components" section of a tree. *)
Definition section_of (k : str) (t : json) : option dict :=
  match t with
  | JObj d =>
      match dict_lookup k d with
      | Some (JObj s) => Some s
      | _ => None
      end
  | _ => None
  end.

(** [b] is [a] with the dict stored under the top-level key [k] replaced
    by another dict, or [a] itself. *)
Definition section_replaced (k : str) (a b : json) : Prop :=
  b = a \/
  exists A X Y, a = JObj A /\ dict_lookup k A = Some (JObj X) /\
                b = JObj (dict_set k (JObj Y) A).

(** The page with slug [s] is marked non-reference in the documentation
    navigation of the start page: some page of some group under
    [sidebars.docs] has that slug and an [isReference] that is false (or
    any other value Python takes for false). *)
Definition marked_non_reference (start_props : json) (s : str) : Prop :=
  exists sidebars docs doc pages page is_reference,
    py_getitem start_props (u "sidebars") = Ok sidebars
    /\ py_getitem sidebars (u "docs") = Ok (JArr docs)
    /\ In doc docs
    /\ py_getitem doc (u "pages") = Ok (JArr pages)
    /\ In page pages
    /\ py_getitem page (u "isReference") = Ok is_reference
    /\ py_truthy is_reference = false
    /\ py_getitem page (u "slug") = Ok (JStr s).

(** Membership in the set of non-reference pages, as [set_contains]
    computes it. *)
Definition in_set (x : json) (s : list json) : bool := existsb (py_eq x) s.

(** The set only grows while the navigation is read, and a page read
    with a false [isReference] and a [str] slug is in it from then on. *)
Definition set_grows (s s' : list json) : Prop :=
  forall x, in_set x s = true -> in_set x s' = true.

Definition page_recorded (page : json) (s : list json) : Prop :=
  forall is_reference slug,
    py_getitem page (u "isReference") = Ok is_reference ->
    py_truthy is_reference = false ->
    py_getitem page (u "slug") = Ok (JStr slug) ->
    in_set (JStr slug) s = true.

(** A value all of whose dicts have distinct keys: what a Python value
    built by the decoder is. *)
Fixpoint wf_json (v : json) : bool :=
  match v with
  | JArr items => forallb wf_json items
  | JObj d =>
      nodup_keys d
      && (fix wf_members (m : list (str * json)) : bool :=
            match m with
            | [] => true
            | (_, x) :: m' => wf_json x && wf_members m'
            end) d
  | _ => true
  end.

Definition wf_dict (d : dict) : bool := wf_json (JObj d).

Definition frame_wf (f : frame) : bool :=
  match f with
  | FArr items => forallb wf_json items
  | FObj members _ => wf_dict members
  end.

Definition token_wf (t : token) : bool :=
  match t with
  | TAtom v => wf_json v
  | _ => true
  end.

Definition pstate_wf (st : pstate) : bool :=
  match st with
  | PRun _ top stack => frame_wf top && forallb frame_wf stack
  | PDone v => wf_json v
  | _ => true
  end.

(** The tree is a dict with distinct top-level keys. *)
Definition top_nodup (t : json) : bool :=
  match t with
  | JObj d => nodup_keys d
  | _ => false
  end.

(** ** The shape of specification trees and of fragments *)

(** A dict with distinct keys all of whose values satisfy [P]. *)
Definition keyed (P : json -> bool) (v : json) : bool :=
  match v with
  | JObj d => nodup_keys d && forallb (fun kv => P (snd kv)) d
  | _ => false
  end.

(** A method map, or the definition object of a component: a dict. *)
Definition a_dict : json -> bool := keyed (fun _ => true).

(** A "paths" section: path to method map. *)
Definition paths_shaped : json -> bool := keyed a_dict.

(** A "components" section: category to name to definition object. *)
Definition components_shaped : json -> bool := keyed (keyed a_dict).

(** A specification tree: a dict whose "paths" and "components" sections
    are present and have these shapes. *)
Definition spec_tree (t : json) : bool :=
  match t with
  | JObj d =>
      match dict_lookup k_paths d, dict_lookup k_components d with
      | Some P, Some C => paths_shaped P && components_shaped C
      | _, _ => false
      end
  | _ => false
  end.

(** A fragment: a dict whose "paths" and "components" sections, where
    present, have these shapes. *)
Definition oas_fragment (t : json) : bool :=
  match t with
  | JObj d =>
      match dict_lookup k_paths d with
      | Some P => paths_shaped P
      | None => true
      end
      && match dict_lookup k_components d with
         | Some C => components_shaped C
         | None => true
         end
  | _ => false
  end.

(** ** What merging computes on well-shaped sections *)

(** One entry [e] of a fragment put into the dict [D] of the result: a new
    key takes the fragment's value, an old one the combination [f] of the
    old value and the fragment's. *)
Definition put_with (f : json -> json -> json) (D : dict) (e : str * json)
  : dict :=
  dict_set (fst e)
    (match dict_lookup (fst e) D with
     | Some old => f old (snd e)
     | None => snd e
     end) D.

Definition merge_all (f : json -> json -> json) (D items : dict) : dict :=
  fold_left (put_with f) items D.

(** A method map, or a definition object, met again: shallow update. *)
Definition updated (old new : json) : json :=
  match old, new with
  | JObj T, JObj N => JObj (dict_update T N)
  | _, _ => new
  end.

(** A category of components met again: merged name by name. *)
Definition section_merged (old new : json) : json :=
  match old, new with
  | JObj So, JObj Sn => JObj (merge_all updated So Sn)
  | _, _ => new
  end.

(** The section [k] of a fragment, empty if the fragment has none. *)
Definition fragment_section (k : str) (new : json) : dict :=
  match section_of k new with
  | Some d => d
  | None => []
  end.

(** The merge as a function of the sections. *)
Definition merged_tree (base new : json) : json :=
  match base with
  | JObj M =>
      JObj (dict_set k_components
              (JObj (merge_all section_merged
                       (fragment_section k_components base)
                       (fragment_section k_components new)))
              (dict_set k_paths
                 (JObj (merge_all updated
                          (fragment_section k_paths base)
                          (fragment_section k_paths new)))
                 M))
  | _ => base
  end.

(** The keys of the section [k] of a tree: its paths, or the categories
    of its components. *)
Definition section_keys (k : str) (t : json) : list str :=
  match section_of k t with
  | Some d => dict_keys d
  | None => []
  end.



(** The payload [props] of a page gives nothing to merge: the fetch
    returned [None], or the payload has no "oasDefinition", or an empty
    one. *)
Definition nothing_to_merge (props : json) : Prop :=
  props = JNull
  \/ py_contains k_oasDefinition props = Ok false
  \/ exists fragment,
       py_contains k_oasDefinition props = Ok true
       /\ py_getitem props k_oasDefinition = Ok fragment
       /\ py_truthy fragment = false.

(** The names of the two cache files of a URL. *)
Definition not_found_file (sha256_hexdigest : str -> str) (url : str) : str :=
  u "out/cache/not_found_" ++ sha256_hexdigest url.

Definition cache_file (sha256_hexdigest : str -> str) (url : str) : str :=
  u "out/cache/ssr_props_" ++ sha256_hexdigest url ++ u ".json".

(* ================================================================== *)
(** * Further predicates *)
(* ================================================================== *)

(** A character that is neither a brace, a bracket nor a comma. *)
Definition scalar_char (c : char) : bool :=
  negb ((c =? ch_lbrace) || (c =? ch_rbrace) || (c =? ch_lbracket)
        || (c =? ch_rbracket) || (c =? ch_comma))%N.

Definition blank (s : str) : bool :=
  match s with
  | [] => true
  | _ => false
  end.

(** A scanner state with entries put before its own. *)
Definition with_pairs (before : list str) (st : scanner) : scanner :=
  {| pairs := before ++ pairs st; brace_count := brace_count st;
     bracket_count := bracket_count st; in_string := in_string st;
     escape_next := escape_next st; current_pair := current_pair st |}.

(** The entry the scanner closes at a top-level comma, if it keeps it. *)
Definition closed_entry (st : scanner) : list str :=
  if char_in ch_colon (strip (current_pair st))
  then [strip (current_pair st)] else [].

(** The keys of [items] that [D] does not have, in the order of
    [items]. *)
Definition new_keys (D items : dict) : list str :=
  filter (fun k => negb (dict_mem k D)) (dict_keys items).

(** The file the response is kept in while it is taken apart, and the
    file the finished tree is written to. *)
Definition processing_file : str := u "out/processing.html".

Definition output_file : str := u "out/oas_definition.json".

(** The value [x] is the slug of a page that the documentation
    navigation of the start page gives an [isReference] that is false (or
    any other value Python takes for false). *)
Definition marked_slug (start_props : json) (x : json) : Prop :=
  exists sidebars docs doc pages page is_reference,
    py_getitem start_props (u "sidebars") = Ok sidebars
    /\ py_getitem sidebars (u "docs") = Ok (JArr docs)
    /\ In doc docs
    /\ py_getitem doc (u "pages") = Ok (JArr pages)
    /\ In page pages
    /\ py_getitem page (u "isReference") = Ok is_reference
    /\ py_truthy is_reference = false
    /\ py_getitem page (u "slug") = Ok x.

(** A URL the run may ask for: the start URL, or one below it. *)
Definition under_start (start_url url : str) : Prop :=
  url = start_url \/ startswith (make_url_prefix start_url) url = true.

(** The reference groups the start page lists, and the pages of a
    group. *)
Definition listed_refs (start_props : json) : list json :=
  match (sidebars <- py_getitem start_props (u "sidebars") ;;
         refs <- py_getitem sidebars (u "refs") ;;
         py_iter refs) with
  | Ok refs => refs
  | Raise _ => []
  end.

Definition ref_pages (ref : json) : list json :=
  match (pages <- py_getitem ref (u "pages") ;; py_iter pages) with
  | Ok pages => pages
  | Raise _ => []
  end.

(** The URL to fetch for a page of a reference group: none if its slug
    is in the set of non-reference pages. *)
Definition page_urls (url_prefix : str) (non_reference_pages : list json)
  (page : json) : list str :=
  match py_getitem page (u "slug") with
  | Ok (JStr s) =>
      if in_set (JStr s) non_reference_pages then [] else [url_prefix ++ s]
  | _ => []
  end.

Definition crawl_urls (url_prefix : str) (non_reference_pages : list json)
  (refs : list json) : list str :=
  flat_map (fun ref =>
              flat_map (page_urls url_prefix non_reference_pages)
                (ref_pages ref)) refs.

(* ================================================================== *)
(** * Example data *)
(* ================================================================== *)

(** An empty specification tree. *)
Definition empty_tree : json :=
  JObj [(k_paths, JObj []); (k_components, JObj [])].

(** The fragments A and B of the spec's example: the operation get of the
    path /x has the summary "old" in A and "new" in B. *)
Definition fragment_A : json :=
  JObj [(k_paths,
         JObj [(u "/x",
                JObj [(u "get", JObj [(u "summary", JStr (u "old"))])])])].

Definition fragment_B : json :=
  JObj [(k_paths,
         JObj [(u "/x",
                JObj [(u "get", JObj [(u "summary", JStr (u "new"))])])])].

(** The empty tree with A merged into it. *)
Definition tree_with_A : json :=
  JObj [(k_paths,
         JObj [(u "/x",
                JObj [(u "get", JObj [(u "summary", JStr (u "old"))])])]);
        (k_components, JObj [])].

(** A fragment with both sections. *)
Definition fragment_C : json :=
  JObj [(u "openapi", JStr (u "3.0.0"));
        (k_paths,
         JObj [(u "/x", JObj [(u "put", JObj [])]);
               (u "/y", JObj [(u "get", JObj [])])]);
        (k_components,
         JObj [(u "schemas",
                JObj [(u "Pet", JObj [(u "type", JStr (u "object"))])])])].

(** ** Example sites *)

(** Stand-ins for the libraries on the documents of the examples.  The
    digest only names cache files, so any function that keeps URLs apart
    does; what is written to a cache file is not read back in these
    runs. *)
Definition ex_sha256 (url : str) : str := url.

Definition ex_dumps (v : json) : str := [].

(** A double quote inside an attribute value is written as the entity
    of six characters. *)
Definition escape_quot (s : str) : str :=
  flat_map (fun c => if N.eqb c ch_quote then u "&quot;" else [c]) s.

Fixpoint unescape_quot (s : str) : str :=
  match s with
  | 38%N :: 113%N :: 117%N :: 111%N :: 116%N :: 59%N :: rest =>
      ch_quote :: unescape_quot rest
  | c :: rest => c :: unescape_quot rest
  | [] => []
  end.

Fixpoint until_quote (s : str) : str :=
  match s with
  | c :: rest => if N.eqb c ch_quote then [] else c :: until_quote rest
  | [] => []
  end.

(** The value of the attribute data-initial-props of the script tag with
    the id ssr-props, entities decoded. *)
Definition ex_soup (html : str) : soup_result :=
  match find tag_needle html 0 with
  | None => NoScriptTag
  | Some i =>
      match find attr_needle html (i + List.length tag_needle) with
      | None => NoAttribute
      | Some j =>
          Attribute
            (unescape_quot
               (until_quote (skipn (j + List.length attr_needle) html)))
      end
  end.

(** A reference page as the site renders it around a payload. *)
Definition html_page (payload : str) : str :=
  q "<html><body><script id='ssr-props' data-initial-props='"
    ++ escape_quot payload ++ q "'></script></body></html>".

(** The same page when the response is cut inside the payload. *)
Definition html_cut (payload : str) : str :=
  q "<html><body><script id='ssr-props' data-initial-props='"
    ++ escape_quot payload.

Definition ex_start_url : str := u "https://docs.example.com/reference".

Definition ex_page_url (slug : string) : str :=
  u "https://docs.example.com/reference/" ++ u slug.

Definition empty_world : world :=
  {| files := []; requests := []; fetch_calls := [] |}.

(** The payload of a start page whose reference group lists [pages];
    the documentation navigation marks the page guide as non-reference.
    Its own fragment has the path /x, a schema and both bookkeeping
    keys. *)
Definition start_payload (pages : string) : str :=
  q "{'sidebars':{'refs':[{'pages':[" ++ q pages
    ++ q "]}],'docs':[{'pages':[{'slug':'guide','title':'Guide','isReference':false},{'slug':'pets','title':'Pets','isReference':true}]}]},'oasDefinition':{'openapi':'3.0.0','_id':'64a1','x-readme-fauxas':true,'paths':{'/x':{'get':{'summary':'start'}}},'components':{'schemas':{'Start':{'type':'object'}}}}}".

Definition pets_payload : str :=
  q "{'oasDefinition':{'openapi':'3.0.0','_id':'64a2','x-readme-fauxas':true,'paths':{'/pets':{'get':{'summary':'List pets'}}},'components':{'schemas':{'Pet':{'type':'object'}}}}}".

Definition guide_payload : str :=
  q "{'oasDefinition':{'paths':{'/guide':{'get':{}}}}}".

Definition intro_payload : str := q "{'title':'Introduction'}".

Definition cut_payload : str :=
  q "{'title':'Cut','oasDefinition':{'paths':{'/cut':{'get':{'summ".

Fixpoint find_page (url : str) (pages : list (str * http_result))
  : option http_result :=
  match pages with
  | [] => None
  | (p, r) :: pages' => if str_eqb url p then Some r else find_page url pages'
  end.

Definition serve (pages : list (str * http_result)) (url : str)
  : http_result :=
  match find_page url pages with
  | Some r => r
  | None => Response 404 []
  end.

(** Site A: the reference group lists guide (marked non-reference), pets,
    gone (not found) and intro (a page without a specification). *)
Definition site_A (_ : list str) (url : str) : http_result :=
  serve
    [(ex_start_url,
      Response 200
        (html_page
           (start_payload
              "{'slug':'guide','title':'Guide'},{'slug':'pets','title':'Pets'},{'slug':'gone','title':'Gone'},{'slug':'intro','title':'Intro'}")));
     (ex_page_url "guide", Response 200 (html_page guide_payload));
     (ex_page_url "pets", Response 200 (html_page pets_payload));
     (ex_page_url "intro", Response 200 (html_page intro_payload))]
    url.

(** Site B: the first reference page, broken, is served without the
    payload marker; pets comes after it. *)
Definition site_B (_ : list str) (url : str) : http_result :=
  serve
    [(ex_start_url,
      Response 200
        (html_page
           (start_payload
              "{'slug':'broken','title':'Broken'},{'slug':'pets','title':'Pets'}")));
     (ex_page_url "broken",
      Response 200 (u "<html><body>Service unavailable</body></html>"));
     (ex_page_url "pets", Response 200 (html_page pets_payload))]
    url.

(** Site C: the first reference page, cut, is cut off before the
    embedded specification is complete; pets comes after it. *)
Definition site_C (_ : list str) (url : str) : http_result :=
  serve
    [(ex_start_url,
      Response 200
        (html_page
           (start_payload
              "{'slug':'cut','title':'Cut'},{'slug':'pets','title':'Pets'}")));
     (ex_page_url "cut", Response 200 (html_cut cut_payload));
     (ex_page_url "pets", Response 200 (html_page pets_payload))]
    url.

(** A run of [main] on a site, from the start URL in the empty world. *)
Notation run_site site :=
  (main ex_sha256 site ex_soup ex_dumps ex_start_url empty_world).

(** The tree a run of [main] on site A hands over. *)
Definition site_A_tree : json :=
  JObj [(u "openapi", JStr (u "3.0.0"));
        (k_paths,
         JObj [(u "/pets",
                JObj [(u "get",
                       JObj [(u "summary", JStr (u "List pets"))])])]);
        (k_components,
         JObj [(u "schemas",
                JObj [(u "Pet", JObj [(u "type", JStr (u "object"))])])])].

(** An entry of a reference group, as the navigation lists it. *)
Definition nav_page (slug title : string) : json :=
  JObj [(u "slug", JStr (u slug)); (u "title", JStr (u title))].

Notation ex_fetch site := (fetch_ssr_props ex_sha256 site ex_soup ex_dumps).

(** The world after the start page of a site has been fetched. *)
Definition after_start (site : list str -> str -> http_result) : world :=
  snd (ex_fetch site ex_start_url empty_world).

Definition start_props_of (site : list str -> str -> http_result) : json :=
  match fst (ex_fetch site ex_start_url empty_world) with
  | Ok v => v
  | Raise _ => JNull
  end.

Definition seed_of (site : list str -> str -> http_result) : json :=
  match seed (start_props_of site) with
  | Ok v => v
  | Raise _ => JNull
  end.

Definition non_reference_of (site : list str -> str -> http_result)
  : list json :=
  match collect_non_reference (start_props_of site) with
  | Ok s => s
  | Raise _ => []
  end.


(** ** More example trees *)

(** A tree with a path and a component, and some other top-level keys. *)
Definition tree_with_Pet : json :=
  JObj [(u "openapi", JStr (u "3.1.0"));
        (k_paths, JObj [(u "/x", JObj [(u "get", JObj [])])]);
        (u "info", JObj [(u "title", JStr (u "Pets"))]);
        (k_components,
         JObj [(u "schemas",
                JObj [(u "Pet", JObj [(u "type", JStr (u "string"));
                                      (u "title", JStr (u "Pet"))]);
                      (u "Tag", JObj [])])])].

(** A fragment with a new category, a new name in an old category and a
    name met again. *)
Definition fragment_D : json :=
  JObj [(k_components,
         JObj [(u "schemas",
                JObj [(u "Pet", JObj [(u "type", JStr (u "object"))]);
                      (u "Owner", JObj [(u "type", JStr (u "object"))])]);
               (u "responses", JObj [(u "NotFound", JObj [])])])].

(** A tree without a "paths" section. *)
Definition tree_without_paths : json :=
  JObj [(k_components, JObj [])].

(** Site D: the start page lists the page down, which the server answers
    with status 500. *)
Definition site_D (_ : list str) (url : str) : http_result :=
  serve
    [(ex_start_url,
      Response 200
        (html_page
           (start_payload "{'slug':'down','title':'Down'}")));
     (ex_page_url "down", Response 500 (u "Internal Server Error"))]
    url.

(** Site E has no start page. *)
Definition site_E (_ : list str) (url : str) : http_result := serve [] url.

(** What the fetch of the page pets of site A returns after the start
    page has been fetched, and the world it leaves. *)
Definition pets_props : json :=
  match fst (ex_fetch site_A (ex_page_url "pets") (after_start site_A)) with
  | Ok v => v
  | Raise _ => JNull
  end.

Definition after_pets : world :=
  snd (ex_fetch site_A (ex_page_url "pets") (after_start site_A)).

(* ================================================================== *)
(** * Facts about strings and dicts *)
(* ================================================================== *)

Lemma str_eqb_spec (a b : str) : str_eqb a b = true <-> a = b.
Proof.
  revert b; induction a as [|x a IH]; intros [|y b]; simpl;
    try (split; intros; congruence).
  rewrite andb_true_iff, N.eqb_eq, IH.
  split; [intros [-> ->]; reflexivity | intros [= -> ->]; auto].
Qed.

Lemma str_eqb_refl (a : str) : str_eqb a a = true.
Proof. apply str_eqb_spec; reflexivity. Qed.

Lemma str_eqb_neq (a b : str) : a <> b -> str_eqb a b = false.
Proof.
  intros H; destruct (str_eqb a b) eqn:E; [|reflexivity].
  apply str_eqb_spec in E; contradiction.
Qed.

Lemma str_eqb_sym (a b : str) : str_eqb a b = str_eqb b a.
Proof.
  destruct (str_eqb a b) eqn:E.
  - apply str_eqb_spec in E; subst; symmetry; apply str_eqb_refl.
  - destruct (str_eqb b a) eqn:E'; [|reflexivity].
    apply str_eqb_spec in E'; subst; rewrite str_eqb_refl in E; discriminate.
Qed.

Ltac str_cases a b :=
  let E := fresh "E" in
  destruct (str_eqb a b) eqn:E;
  [apply str_eqb_spec in E; try subst | idtac].

Lemma dict_lookup_set_same (k : str) (v : json) (d : dict) :
  dict_lookup k (dict_set k v d) = Some v.
Proof.
  induction d as [|[k' v'] d IH]; simpl.
  - rewrite str_eqb_refl; reflexivity.
  - destruct (str_eqb k k') eqn:E; simpl; rewrite E; auto.
Qed.

Lemma dict_lookup_set_other (k k' : str) (v : json) (d : dict) :
  k <> k' -> dict_lookup k' (dict_set k v d) = dict_lookup k' d.
Proof.
  intros Hne; induction d as [|[k0 v0] d IH]; simpl.
  - rewrite str_eqb_neq by congruence; reflexivity.
  - destruct (str_eqb k k0) eqn:E; simpl.
    + apply str_eqb_spec in E; subst k0.
      rewrite str_eqb_neq by congruence; reflexivity.
    + destruct (str_eqb k' k0); auto.
Qed.

Lemma dict_lookup_set (k k' : str) (v : json) (d : dict) :
  dict_lookup k' (dict_set k v d) =
  if str_eqb k k' then Some v else dict_lookup k' d.
Proof.
  destruct (str_eqb k k') eqn:E.
  - apply str_eqb_spec in E; subst; apply dict_lookup_set_same.
  - apply dict_lookup_set_other; intros ->; rewrite str_eqb_refl in E;
      discriminate.
Qed.

(** Storing what is already there changes nothing. *)
Lemma dict_set_same (k : str) (v : json) (d : dict) :
  dict_lookup k d = Some v -> dict_set k v d = d.
Proof.
  induction d as [|[k' v'] d IH]; simpl; [discriminate|].
  destruct (str_eqb k k') eqn:E; intros H.
  - congruence.
  - rewrite IH; auto.
Qed.

Lemma dict_mem_set (k k' : str) (v : json) (d : dict) :
  dict_mem k' (dict_set k v d) = str_eqb k k' || dict_mem k' d.
Proof.
  unfold dict_mem; rewrite dict_lookup_set.
  destruct (str_eqb k k'); reflexivity.
Qed.

Lemma nodup_keys_set (k : str) (v : json) (d : dict) :
  nodup_keys d = true -> nodup_keys (dict_set k v d) = true.
Proof.
  induction d as [|[k' v'] d IH]; simpl; [reflexivity|].
  rewrite andb_true_iff, negb_true_iff; intros [Hm Hd].
  destruct (str_eqb k k') eqn:E; simpl.
  - rewrite Hm, Hd; reflexivity.
  - rewrite dict_mem_set, E, Hm, IH by assumption.
    reflexivity.
Qed.

Lemma dict_lookup_del_same (k : str) (d : dict) :
  nodup_keys d = true -> dict_lookup k (dict_del k d) = None.
Proof.
  induction d as [|[k' v'] d IH]; simpl; [reflexivity|].
  rewrite andb_true_iff, negb_true_iff; intros [Hm Hd].
  destruct (str_eqb k k') eqn:E; simpl.
  - apply str_eqb_spec in E; subst k'.
    unfold dict_mem in Hm; destruct (dict_lookup k d); congruence.
  - rewrite E; auto.
Qed.

Lemma dict_lookup_del_other (k k' : str) (d : dict) :
  k <> k' -> dict_lookup k' (dict_del k d) = dict_lookup k' d.
Proof.
  intros Hne; induction d as [|[k0 v0] d IH]; simpl; [reflexivity|].
  destruct (str_eqb k k0) eqn:E; simpl.
  - apply str_eqb_spec in E; subst k0.
    rewrite str_eqb_neq by congruence; reflexivity.
  - destruct (str_eqb k' k0); auto.
Qed.

Lemma nodup_keys_del (k : str) (d : dict) :
  nodup_keys d = true -> nodup_keys (dict_del k d) = true.
Proof.
  induction d as [|[k' v'] d IH]; simpl; [reflexivity|].
  rewrite andb_true_iff, negb_true_iff; intros [Hm Hd].
  destruct (str_eqb k k') eqn:E; simpl; [assumption|].
  rewrite IH by assumption.
  unfold dict_mem in *.
  rewrite dict_lookup_del_other
    by (intros ->; rewrite str_eqb_refl in E; discriminate).
  destruct (dict_lookup k' d); [discriminate | reflexivity].
Qed.

Lemma dict_lookup_In (k : str) (v : json) (d : dict) :
  dict_lookup k d = Some v -> In (k, v) d.
Proof.
  induction d as [|[k' v'] d IH]; simpl; [discriminate|].
  destruct (str_eqb k k') eqn:E.
  - apply str_eqb_spec in E; intros [= ->]; subst; auto.
  - auto.
Qed.

Lemma dict_In_lookup (k : str) (v : json) (d : dict) :
  nodup_keys d = true -> In (k, v) d -> dict_lookup k d = Some v.
Proof.
  induction d as [|[k' v'] d IH]; simpl; [contradiction|].
  rewrite andb_true_iff, negb_true_iff; intros [Hm Hd] [[= -> ->]|Hin].
  - rewrite str_eqb_refl; reflexivity.
  - destruct (str_eqb k k') eqn:E; [|auto].
    apply str_eqb_spec in E; subst k'.
    unfold dict_mem in Hm; rewrite (IH Hd Hin) in Hm; discriminate.
Qed.

Lemma dict_mem_In_keys (k : str) (d : dict) :
  dict_mem k d = true <-> In k (dict_keys d).
Proof.
  unfold dict_mem, dict_keys; induction d as [|[k' v'] d IH]; simpl.
  - split; [discriminate | contradiction].
  - destruct (str_eqb k k') eqn:E.
    + apply str_eqb_spec in E; subst; tauto.
    + rewrite IH; split; [auto | intros [->|]; auto].
      rewrite str_eqb_refl in E; discriminate.
Qed.


(* ================================================================== *)
(** * The recovery scanner *)
(* ================================================================== *)

(** The escape flag is only ever up inside a string. *)
Lemma scan_char_escape_in_string (st : scanner) (c : char) :
  (escape_next st = true -> in_string st = true) ->
  escape_next (scan_char st c) = true -> in_string (scan_char st c) = true.
Proof.
  unfold scan_char; intros Hinv.
  destruct (escape_next st) eqn:Hesc; simpl; [discriminate|].
  destruct ((c =? ch_backslash)%N && in_string st) eqn:Hb; simpl.
  - apply andb_true_iff in Hb; tauto.
  - repeat match goal with
           | |- context [if ?b then _ else _] => destruct b; simpl
           end; congruence.
Qed.

Lemma scanner_after_escape_in_string (text : str) :
  escape_next (scanner_after text) = true ->
  in_string (scanner_after text) = true.
Proof.
  unfold scanner_after.
  induction text as [|c text IH] using rev_ind; simpl; [discriminate|].
  rewrite fold_left_app; simpl.
  apply scan_char_escape_in_string, IH.
Qed.

(** What one step does to the entries, by cases on [entry_boundary]. *)
Lemma scan_char_entries (st : scanner) (c : char) :
  (escape_next st = true -> in_string st = true) ->
  if entry_boundary st c
  then current_pair (scan_char st c) = []
       /\ pairs (scan_char st c) =
          (if char_in ch_colon (strip (current_pair st))
           then pairs st ++ [strip (current_pair st)] else pairs st)
  else current_pair (scan_char st c) = current_pair st ++ [c]
       /\ pairs (scan_char st c) = pairs st.
Proof.
  unfold entry_boundary, scan_char; intros Hinv.
  destruct (escape_next st) eqn:Hesc; simpl.
  - rewrite (Hinv eq_refl); simpl.
    rewrite andb_false_r; simpl; auto.
  - destruct (c =? ch_comma)%N eqn:Hc; simpl.
    + apply N.eqb_eq in Hc; subst c.
      change (ch_comma =? ch_backslash)%N with false.
      change (ch_comma =? ch_quote)%N with false.
      change (ch_comma =? ch_lbrace)%N with false.
      change (ch_comma =? ch_rbrace)%N with false.
      change (ch_comma =? ch_lbracket)%N with false.
      change (ch_comma =? ch_rbracket)%N with false.
      change (ch_comma =? ch_comma)%N with true.
      simpl.
      destruct (in_string st); simpl; auto.
      destruct (brace_count st =? 0)%Z; simpl; auto.
      destruct (bracket_count st =? 0)%Z; simpl; auto.
    + repeat match goal with
             | |- context [if ?b then _ else _] => destruct b; simpl
             end; auto.
Qed.

(** C7.  While the scanner reads a text from left to right, a character
    ends an entry exactly when it is a comma met outside a quoted string
    with both the brace and the bracket counter at zero: then the current
    entry is closed (and kept if it has a colon); in every other case the
    character is added to the current entry and no entry is produced.
    On the text of the claim the scanner produces exactly two entries:
    neither the commas inside the array nor the comma inside the string
    split one. *)
Theorem scanner_splits_at_top_level_only :
  (forall (text : str) (c : char),
      let st := scanner_after text in
      if entry_boundary st c
      then current_pair (scan_char st c) = []
           /\ pairs (scan_char st c) =
              (if char_in ch_colon (strip (current_pair st))
               then pairs st ++ [strip (current_pair st)] else pairs st)
      else current_pair (scan_char st c) = current_pair st ++ [c]
           /\ pairs (scan_char st c) = pairs st)
  /\ scan_pairs (strip_braces (q "{'a':[1,2,'x,y'],'b':2}"))
     = [q "'a':[1,2,'x,y']"; q "'b':2"].
Proof.
  split.
  - intros text c st; apply scan_char_entries.
    apply scanner_after_escape_in_string.
  - vm_compute; reflexivity.
Qed.

(* ================================================================== *)
(** * The recovery parser on the truncated payload *)
(* ================================================================== *)

(** C3.  On the truncated payload of the claim the recovery parser returns
    the mapping of a to "1" and b to "2", and raises nothing.  The scanner
    hands over three candidates; the third, cut inside its value, fails to
    decode and is dropped. *)
Theorem truncated_payload_keeps_complete_entries :
  parse_truncated_json (q "{'a':'1','b':'2','c':'tru")
  = Ok [(u "a", JStr (u "1")); (u "b", JStr (u "2"))]
  /\ scan_pairs (strip_braces (q "{'a':'1','b':'2','c':'tru"))
     = [q "'a':'1'"; q "'b':'2'"; q "'c':'tru"]
  /\ json_loads (q "{'c':'tru}") = Raise JSONDecodeError.
Proof. vm_compute; repeat split; reflexivity. Qed.

(* ================================================================== *)
(** * The decoder on a text that opens with a brace *)
(* ================================================================== *)

Lemma last_cons_default {A} (a d : A) (l : list A) :
  last (a :: l) d = last l a.
Proof.
  revert a d; induction l as [|b l IH]; intros a d; [reflexivity|].
  change (last (a :: b :: l) d) with (last (b :: l) d).
  rewrite !IH; reflexivity.
Qed.

Lemma last_same_kind (l : list frame) (a b : frame) :
  frame_is_object a = frame_is_object b ->
  frame_is_object (last l a) = frame_is_object (last l b).
Proof.
  destruct l as [|c l]; simpl; [auto|].
  intros _; revert c; induction l as [|d l IH]; intros c; [reflexivity|].
  apply IH.
Qed.

Lemma deliver_reading_object (v : json) (top : frame) (stack : list frame) :
  frame_is_object (last stack top) = true ->
  reading_object (deliver v (top :: stack)) = true.
Proof.
  intros H; destruct top; simpl; rewrite <- H; apply last_same_kind;
    reflexivity.
Qed.

Lemma close_reading_object (v : json) (top : frame) (stack : list frame) :
  frame_is_object (last stack top) = true ->
  (stack = [] -> exists d, v = JObj d) ->
  reading_object (deliver v stack) = true.
Proof.
  intros H Hv; destruct stack as [|f stack].
  - destruct (Hv eq_refl) as [d ->]; reflexivity.
  - apply deliver_reading_object.
    rewrite <- H, last_cons_default; reflexivity.
Qed.

Lemma start_value_reading_object (t : token) (top : frame)
  (stack : list frame) :
  frame_is_object (last stack top) = true ->
  reading_object (start_value t (top :: stack)) = true.
Proof.
  intros H; destruct t; try reflexivity;
    try (apply deliver_reading_object; assumption);
    unfold start_value, reading_object; rewrite last_cons_default;
    assumption.
Qed.

Lemma parse_step_reading_object (st : pstate) (t : token) :
  reading_object st = true -> reading_object (parse_step st t) = true.
Proof.
  destruct st as [|ph top stack|v|]; simpl; try discriminate; auto.
  intros H.
  assert (Hobj : forall members key, top = FObj members key ->
                 reading_object (deliver (JObj members) stack) = true).
  { intros members key ->; eapply close_reading_object; eauto. }
  assert (Harr : forall items, top = FArr items ->
                 reading_object (deliver (JArr items) stack) = true).
  { intros items ->; eapply close_reading_object; eauto.
    intros ->; discriminate. }
  destruct ph, top, t;
    try reflexivity; try assumption;
    try (apply start_value_reading_object; assumption);
    try (eapply Hobj; reflexivity); try (eapply Harr; reflexivity);
    (simpl; rewrite <- H; apply last_same_kind; reflexivity).
Qed.

Lemma parse_steps_reading_object (ts : list token) (st : pstate) :
  reading_object st = true ->
  reading_object (fold_left parse_step ts st) = true.
Proof.
  revert st; induction ts as [|t ts IH]; intros st H; simpl; [assumption|].
  apply IH, parse_step_reading_object, H.
Qed.

(** A text that opens with a brace decodes to a dict, if it decodes. *)
Lemma json_loads_object (s : str) (v : json) :
  json_loads (ch_lbrace :: s) = Ok v -> exists d, v = JObj d.
Proof.
  unfold json_loads.
  change (lex LDefault (ch_lbrace :: s))
    with (emit TLBrace (lex LDefault s)).
  destruct (lex LDefault s) as [ts|]; simpl; [|discriminate].
  unfold parse_tokens; simpl.
  pose proof (parse_steps_reading_object ts
                (PRun KeyOrClose (FObj [] []) []) eq_refl) as H.
  destruct (fold_left parse_step ts _) as [| | w |]; try discriminate.
  intros [= <-].
  destruct w; try discriminate; eauto.
Qed.

(** The decoder raises nothing but [JSONDecodeError]. *)
Lemma json_loads_raises (s : str) (e : exn) :
  json_loads s = Raise e -> e = JSONDecodeError.
Proof.
  unfold json_loads.
  destruct (lex LDefault s) as [ts|]; [|congruence].
  destruct (parse_tokens ts); congruence.
Qed.



(* ================================================================== *)
(** * The decoder builds dicts with distinct keys *)
(* ================================================================== *)

Lemma wf_dict_unfold (d : dict) :
  wf_dict d = nodup_keys d && forallb (fun kv => wf_json (snd kv)) d.
Proof.
  unfold wf_dict; simpl; f_equal.
  induction d as [|[k v] d IH]; simpl; [reflexivity|].
  rewrite IH; reflexivity.
Qed.

Lemma wf_dict_set (k : str) (v : json) (d : dict) :
  wf_dict d = true -> wf_json v = true -> wf_dict (dict_set k v d) = true.
Proof.
  rewrite !wf_dict_unfold, !andb_true_iff; intros [Hn Hall] Hv; split.
  - apply nodup_keys_set; assumption.
  - clear Hn; induction d as [|[k' v'] d IH]; simpl in *.
    + rewrite Hv; reflexivity.
    + apply andb_true_iff in Hall as [H1 H2].
      destruct (str_eqb k k'); simpl; rewrite ?Hv, ?H1, ?H2, ?IH; auto.
Qed.

Lemma wf_dict_lookup (k : str) (v : json) (d : dict) :
  wf_dict d = true -> dict_lookup k d = Some v -> wf_json v = true.
Proof.
  rewrite wf_dict_unfold, andb_true_iff; intros [_ Hall] H.
  apply dict_lookup_In in H.
  rewrite forallb_forall in Hall; apply (Hall _ H).
Qed.

Lemma wf_dict_nodup (d : dict) : wf_dict d = true -> nodup_keys d = true.
Proof. rewrite wf_dict_unfold, andb_true_iff; tauto. Qed.

Lemma wf_dict_update (d d2 : dict) :
  wf_dict d = true -> wf_dict d2 = true -> wf_dict (dict_update d d2) = true.
Proof.
  unfold dict_update; intros Hd H2.
  rewrite wf_dict_unfold, andb_true_iff in H2; destruct H2 as [_ H2].
  revert d Hd; induction d2 as [|[k v] d2 IH]; intros d Hd; simpl; [auto|].
  simpl in H2; apply andb_true_iff in H2 as [Hv H2].
  apply IH; [assumption|]; apply wf_dict_set; assumption.
Qed.

Lemma parse_number_scalar (s : str) (v : json) :
  parse_number s = Some v -> wf_json v = true.
Proof.
  unfold parse_number.
  repeat match goal with
         | |- context [match ?x with _ => _ end] => destruct x
         end; intros [= <-]; reflexivity.
Qed.

Lemma atom_value_scalar (s : str) (v : json) :
  atom_value s = Some v -> wf_json v = true.
Proof.
  unfold atom_value.
  repeat match goal with
         | |- context [if ?b then _ else _] => destruct b
         end; try (intros [= <-]; reflexivity).
  apply parse_number_scalar.
Qed.

Lemma emit_wf (t : token) (r : option (list token)) (ts : list token) :
  token_wf t = true ->
  (forall ts', r = Some ts' -> forallb token_wf ts' = true) ->
  emit t r = Some ts -> forallb token_wf ts = true.
Proof.
  intros Ht Hr; destruct r as [ts'|]; simpl; [|discriminate].
  intros [= <-]; simpl; rewrite Ht, (Hr ts' eq_refl); reflexivity.
Qed.

Lemma emit_atom_wf (acc : str) (r : option (list token)) (ts : list token) :
  (forall ts', r = Some ts' -> forallb token_wf ts' = true) ->
  emit_atom acc r = Some ts -> forallb token_wf ts = true.
Proof.
  unfold emit_atom; intros Hr.
  destruct (atom_value acc) as [v|] eqn:E; [|discriminate].
  apply emit_wf; [|assumption].
  apply (atom_value_scalar _ E).
Qed.

Lemma punctuation_wf (c : char) (t : token) :
  punctuation c = Some t -> token_wf t = true.
Proof.
  unfold punctuation.
  repeat match goal with
         | |- context [if ?b then _ else _] => destruct b
         end; try discriminate; intros [= <-]; reflexivity.
Qed.

Lemma lex_tokens_wf (s : str) :
  forall (mode : lex_mode) (ts : list token),
    lex mode s = Some ts -> forallb token_wf ts = true.
Proof.
  induction s as [|c s IH]; intros mode ts.
  - destruct mode; simpl; try discriminate.
    + intros [= <-]; reflexivity.
    + apply emit_atom_wf; intros ts' [= <-]; reflexivity.
  - destruct mode; simpl;
      repeat match goal with
             | |- context [if ?b then _ else _] => destruct b
             | |- context [match punctuation ?x with _ => _ end] =>
                 let E := fresh "Ep" in destruct (punctuation x) eqn:E
             | |- context [match simple_escape ?x with _ => _ end] =>
                 destruct (simple_escape x)
             | |- context [match hex_val ?x with _ => _ end] =>
                 destruct (hex_val x)
             | |- context [match ?h with Some _ => _ | None => _ end] =>
                 is_var h; destruct h
             end;
      try discriminate; try (apply IH);
      repeat first
        [ apply emit_atom_wf; intros ?
        | apply emit_wf; [reflexivity|]; intros ?
        | apply emit_wf; [eapply punctuation_wf; eassumption|]; intros ? ];
      try (apply IH).
Qed.

Lemma deliver_wf (v : json) (stack : list frame) :
  wf_json v = true -> forallb frame_wf stack = true ->
  pstate_wf (deliver v stack) = true.
Proof.
  intros Hv; destruct stack as [|[items|members key] stack]; simpl; auto.
  - rewrite andb_true_iff; intros [Hi Hs].
    rewrite forallb_app, Hi, Hs; simpl; rewrite Hv; reflexivity.
  - rewrite andb_true_iff; intros [Hm Hs].
    fold (wf_dict (dict_set key v members)).
    rewrite wf_dict_set, Hs by assumption; reflexivity.
Qed.

Lemma start_value_wf (t : token) (stack : list frame) :
  token_wf t = true -> forallb frame_wf stack = true ->
  pstate_wf (start_value t stack) = true.
Proof.
  destruct t; simpl; intros Ht Hs; auto using deliver_wf.
Qed.

Lemma parse_step_wf (st : pstate) (t : token) :
  token_wf t = true -> pstate_wf st = true ->
  pstate_wf (parse_step st t) = true.
Proof.
  intros Ht; destruct st as [|ph top stack|v|]; simpl; auto.
  - intros _; apply start_value_wf; auto.
  - rewrite andb_true_iff; intros [Htop Hs].
    assert (Hall : forallb frame_wf (top :: stack) = true)
      by (simpl; rewrite Htop, Hs; reflexivity).
    destruct ph, top, t; unfold parse_step;
      try (apply deliver_wf; assumption);
      try (apply start_value_wf; assumption);
      simpl; auto;
      try (rewrite Hs; simpl in Htop; rewrite ?Htop; reflexivity);
      try (rewrite Htop, Hs; reflexivity).
Qed.

Lemma parse_steps_wf (ts : list token) (st : pstate) :
  forallb token_wf ts = true -> pstate_wf st = true ->
  pstate_wf (fold_left parse_step ts st) = true.
Proof.
  revert st; induction ts as [|t ts IH]; intros st; simpl; [auto|].
  rewrite andb_true_iff; intros [Ht Hts] Hst.
  apply IH; [assumption|]; apply parse_step_wf; assumption.
Qed.

(** Every dict in a decoded value has distinct keys. *)
Lemma json_loads_wf (s : str) (v : json) :
  json_loads s = Ok v -> wf_json v = true.
Proof.
  unfold json_loads.
  destruct (lex LDefault s) as [ts|] eqn:El; [|discriminate].
  unfold parse_tokens.
  pose proof (parse_steps_wf ts PStart (lex_tokens_wf _ _ El) eq_refl) as H.
  destruct (fold_left parse_step ts PStart); try discriminate.
  intros [= <-]; exact H.
Qed.

(* ================================================================== *)
(** * What the steps of the merge do *)
(* ================================================================== *)

Lemma bind_ok {A B} (e : outcome A) (k : A -> outcome B) (b : B) :
  bind e k = Ok b -> exists a, e = Ok a /\ k a = Ok b.
Proof. destruct e as [a|x]; simpl; [eauto | discriminate]. Qed.

(** Split a successful sequence of operations into its steps. *)
Ltac inv_ok :=
  repeat match goal with
         | H : bind _ _ = Ok _ |- _ =>
             let a := fresh "x" in
             let Ha := fresh "Hx" in
             apply bind_ok in H; destruct H as (a & Ha & H)
         | H : Ok _ = Ok _ |- _ => injection H as H; try subst
         | H : Raise _ = Ok _ |- _ => discriminate H
         end.

Lemma py_getitem_ok (v : json) (k : str) (x : json) :
  py_getitem v k = Ok x -> exists d, v = JObj d /\ dict_lookup k d = Some x.
Proof.
  destruct v; simpl; try discriminate.
  destruct (dict_lookup k members) eqn:E; [|discriminate].
  intros [= ->]; eauto.
Qed.

Lemma py_setitem_ok (v : json) (k : str) (x r : json) :
  py_setitem v k x = Ok r -> exists d, v = JObj d /\ r = JObj (dict_set k x d).
Proof. destruct v; simpl; try discriminate; intros [= <-]; eauto. Qed.

Lemma py_update_ok (target arg r : json) :
  py_update target arg = Ok r ->
  exists d d', target = JObj d /\ dict_update_py d arg = Ok d' /\ r = JObj d'.
Proof.
  destruct target; simpl; try discriminate.
  intros H; inv_ok; eauto.
Qed.

Lemma py_items_ok (v : json) (items : list (str * json)) :
  py_items v = Ok items -> v = JObj items.
Proof. destruct v; simpl; try discriminate; congruence. Qed.

Lemma for_each_invariant {A S} (P : S -> Prop) (body : S -> A -> outcome S)
  (l : list A) :
  (forall s a s', In a l -> P s -> body s a = Ok s' -> P s') ->
  forall s s', P s -> for_each body l s = Ok s' -> P s'.
Proof.
  induction l as [|a l IH]; intros Hstep s s' Hs; simpl.
  - intros [= <-]; assumption.
  - intros H; inv_ok.
    eapply IH; [ | | eassumption].
    + intros; eapply Hstep; eauto; right; assumption.
    + eapply Hstep; eauto; left; reflexivity.
Qed.

(** A step of [for path, methods in new["paths"].items()] that returns
    has stored one value under [path] in the "paths" section: the
    fragment's method map if the path was new, the method map of the
    result updated with the fragment's otherwise. *)
Lemma merge_path_ok (merged r : json) (path : str) (methods : json) :
  merge_path merged (path, methods) = Ok r ->
  exists M P v,
    merged = JObj M /\ dict_lookup k_paths M = Some (JObj P) /\
    r = JObj (dict_set k_paths (JObj (dict_set path v P)) M) /\
    ((dict_mem path P = false /\ v = methods) \/
     (exists T T', dict_lookup path P = Some (JObj T) /\
                   dict_update_py T methods = Ok T' /\ v = JObj T')).
Proof.
  unfold merge_path; intros H.
  apply bind_ok in H as (mpaths & Hg & H).
  apply bind_ok in H as (present & Hc & H).
  apply py_getitem_ok in Hg as (M & -> & HP).
  destruct present; cbn [negb] in H.
  - apply bind_ok in H as (target & Ht & H).
    apply bind_ok in H as (target' & Hu & H).
    apply bind_ok in H as (mpaths' & Hs & H).
    apply py_getitem_ok in Ht as (P & -> & HT).
    apply py_update_ok in Hu as (T & T' & -> & HU & ->).
    apply py_setitem_ok in Hs as (P' & [= <-] & ->).
    apply py_setitem_ok in H as (M' & [= <-] & ->).
    exists M, P, (JObj T'); repeat split; eauto.
    right; eauto.
  - apply bind_ok in H as (mpaths' & Hs & H).
    apply py_setitem_ok in Hs as (P & -> & ->).
    apply py_setitem_ok in H as (M' & [= <-] & ->).
    simpl in Hc; injection Hc as Hc.
    exists M, P, methods; repeat split; eauto.
Qed.

(** The same for a step of
    [for name, item in new["components"][section].items()]. *)
Lemma merge_component_ok (section : str) (merged r : json) (name : str)
  (item : json) :
  merge_component section merged (name, item) = Ok r ->
  exists M C S v,
    merged = JObj M /\ dict_lookup k_components M = Some (JObj C) /\
    dict_lookup section C = Some (JObj S) /\
    r = JObj (dict_set k_components
                (JObj (dict_set section (JObj (dict_set name v S)) C)) M) /\
    ((dict_mem name S = false /\ v = item) \/
     (exists T T', dict_lookup name S = Some (JObj T) /\
                   dict_update_py T item = Ok T' /\ v = JObj T')).
Proof.
  unfold merge_component; intros H.
  apply bind_ok in H as (mcomps & Hg & H).
  apply bind_ok in H as (msection & Hg' & H).
  apply bind_ok in H as (present & Hc & H).
  apply py_getitem_ok in Hg as (M & -> & HC).
  apply py_getitem_ok in Hg' as (C & -> & HS).
  destruct present; cbn [negb] in H.
  - apply bind_ok in H as (target & Ht & H).
    apply bind_ok in H as (target' & Hu & H).
    apply bind_ok in H as (msection' & Hs & H).
    apply bind_ok in H as (mcomps' & Hs' & H).
    apply py_getitem_ok in Ht as (S & -> & HT).
    apply py_update_ok in Hu as (T & T' & -> & HU & ->).
    apply py_setitem_ok in Hs as (S' & [= <-] & ->).
    apply py_setitem_ok in Hs' as (C' & [= <-] & ->).
    apply py_setitem_ok in H as (M' & [= <-] & ->).
    exists M, C, S, (JObj T'); repeat split; eauto.
    right; eauto.
  - apply bind_ok in H as (msection' & Hs & H).
    apply bind_ok in H as (mcomps' & Hs' & H).
    apply py_setitem_ok in Hs as (S & -> & ->).
    apply py_setitem_ok in Hs' as (C' & [= <-] & ->).
    apply py_setitem_ok in H as (M' & [= <-] & ->).
    simpl in Hc; injection Hc as Hc.
    exists M, C, S, item; repeat split; eauto.
Qed.

(** A step of [for section in new["components"]] on a result whose
    "components" section is a dict: a new section is stored whole, an old
    one is merged name by name. *)
Lemma merge_section_ok (ncomps : json) (M C : dict) (section r : json) :
  dict_lookup k_components M = Some (JObj C) ->
  merge_section ncomps (JObj M) section = Ok r ->
  exists s nsection,
    section = JStr s /\ py_getitem ncomps s = Ok nsection /\
    ((dict_mem s C = false /\
      r = JObj (dict_set k_components (JObj (dict_set s nsection C)) M)) \/
     (dict_mem s C = true /\
      exists items, nsection = JObj items /\
                    for_each (merge_component s) items (JObj M) = Ok r)).
Proof.
  unfold merge_section; intros HC H.
  apply bind_ok in H as (mcomps & Hg & H).
  simpl in Hg; rewrite HC in Hg; injection Hg as <-.
  destruct section as [| | | |s| |]; try discriminate.
  apply bind_ok in H as (present & Hc & H).
  simpl in Hc; injection Hc as <-.
  destruct (dict_mem s C) eqn:Hmem; simpl in H.
  - apply bind_ok in H as (nsection & Hn & H).
    apply bind_ok in H as (items & Hi & H).
    apply py_items_ok in Hi as ->.
    exists s, (JObj items); repeat split; eauto.
  - apply bind_ok in H as (nsection & Hn & H).
    injection H as <-.
    exists s, nsection; repeat split; eauto.
Qed.

Lemma dict_set_set (k : str) (v w : json) (d : dict) :
  dict_set k w (dict_set k v d) = dict_set k w d.
Proof.
  induction d as [|[k' v'] d IH]; simpl.
  - rewrite str_eqb_refl; reflexivity.
  - destruct (str_eqb k k') eqn:E; simpl; rewrite E; congruence.
Qed.

Lemma section_replaced_refl (k : str) (a : json) : section_replaced k a a.
Proof. left; reflexivity. Qed.

Lemma section_replaced_trans (k : str) (a b c : json) :
  section_replaced k a b -> section_replaced k b c -> section_replaced k a c.
Proof.
  intros [->|(A & X & Y & -> & HX & ->)] [->|(B & X' & Y' & HB & HX' & ->)];
    try (left; reflexivity); try (right; eauto 10; fail).
  injection HB as <-.
  right; exists A, X, Y'; repeat split; auto.
  rewrite dict_set_set; reflexivity.
Qed.

Lemma section_replaced_set (k : str) (M X Y : dict) :
  dict_lookup k M = Some (JObj X) ->
  section_replaced k (JObj M) (JObj (dict_set k (JObj Y) M)).
Proof. intros H; right; eauto 10. Qed.

Lemma for_each_section_replaced {A} (k : str) (body : json -> A -> outcome json)
  (l : list A) (s s' : json) :
  (forall s a s', In a l -> body s a = Ok s' -> section_replaced k s s') ->
  for_each body l s = Ok s' -> section_replaced k s s'.
Proof.
  intros Hstep H.
  apply (for_each_invariant (fun x => section_replaced k s x) body l)
    with (s := s) (s' := s'); auto using section_replaced_refl.
  intros; eapply section_replaced_trans; eauto.
Qed.

Lemma merge_path_section (merged r : json) (e : str * json) :
  merge_path merged e = Ok r -> section_replaced k_paths merged r.
Proof.
  destruct e as [path methods]; intros H.
  apply merge_path_ok in H as (M & P & v & -> & HP & -> & _).
  eapply section_replaced_set; eauto.
Qed.

Lemma merge_component_section (section : str) (merged r : json)
  (e : str * json) :
  merge_component section merged e = Ok r ->
  section_replaced k_components merged r.
Proof.
  destruct e as [name item]; intros H.
  apply merge_component_ok in H as (M & C & S & v & -> & HC & _ & -> & _).
  eapply section_replaced_set; eauto.
Qed.

Lemma merge_section_section (ncomps merged r section : json) :
  merge_section ncomps merged section = Ok r ->
  section_replaced k_components merged r.
Proof.
  intros H.
  assert (exists M C, merged = JObj M /\
                      dict_lookup k_components M = Some C) as (M & C & -> & HC).
  { unfold merge_section in H.
    apply bind_ok in H as (mcomps & Hg & _).
    apply py_getitem_ok in Hg as (M & -> & HC); eauto. }
  destruct C as [| | | | | |C].
  7: { eapply merge_section_ok in H; [|exact HC].
       destruct H as (s & nsection & -> & _ & [[_ ->]|(_ & items & -> & H)]).
       - eapply section_replaced_set; eauto.
       - eapply for_each_section_replaced; [|eassumption].
         intros; eapply merge_component_section; eauto. }
  all: unfold merge_section in H; simpl in H; rewrite HC in H; simpl in H;
    destruct section; try discriminate; simpl in H; try discriminate.
  (* the "components" entry of the result is a list or a str *)
  all: match type of H with
       | context [if negb ?b then _ else _] => destruct b; simpl in H
       end;
    try (apply bind_ok in H as (? & _ & H); discriminate).
  all: apply bind_ok in H as (nsection & _ & H);
    apply bind_ok in H as (its & Hi & H);
    destruct its as [|[name item] its];
    [injection H as <-; apply section_replaced_refl|].
  all: simpl in H; unfold merge_component in H; simpl in H;
    rewrite HC in H; simpl in H; discriminate.
Qed.

Lemma k_paths_neq_components : k_paths <> k_components.
Proof. discriminate. Qed.

(** Replacing one section leaves every other top-level entry alone. *)
Lemma section_replaced_getitem (k k' : str) (a b : json) :
  section_replaced k a b -> k' <> k -> py_getitem b k' = py_getitem a k'.
Proof.
  intros [->|(A & X & Y & -> & HX & ->)] Hne; [reflexivity|].
  simpl; rewrite dict_lookup_set_other by congruence; reflexivity.
Qed.

Lemma section_replaced_contains (k k' : str) (a b : json) :
  section_replaced k a b -> py_contains k' b = py_contains k' a.
Proof.
  intros [->|(A & X & Y & -> & HX & ->)]; [reflexivity|].
  simpl; rewrite dict_mem_set.
  str_cases k k'; [|reflexivity].
  unfold dict_mem; rewrite HX; reflexivity.
Qed.

Lemma section_replaced_dict (k : str) (a b : json) (A : dict) :
  section_replaced k a b -> a = JObj A ->
  exists B, b = JObj B /\ (nodup_keys A = true -> nodup_keys B = true).
Proof.
  intros [->|(A' & X & Y & -> & HX & ->)] E; [eauto|].
  injection E as ->; eauto using nodup_keys_set.
Qed.

Lemma section_replaced_has_sections (k : str) (a b : json) :
  section_replaced k a b -> has_sections a = true -> has_sections b = true.
Proof.
  intros [->|(A & X & Y & -> & HX & ->)]; [auto|].
  unfold has_sections; rewrite !dict_lookup_set.
  destruct (str_eqb k k_paths) eqn:E1; destruct (str_eqb k k_components) eqn:E2;
    try (apply str_eqb_spec in E1); try (apply str_eqb_spec in E2);
    try subst k; try rewrite HX; auto; try discriminate E2.
Qed.

Lemma merge_sections_replaced (base new r : json) :
  merge_oas_definitions base new = Ok r ->
  exists m, section_replaced k_paths base m
            /\ section_replaced k_components m r.
Proof.
  unfold merge_oas_definitions; intros H.
  apply bind_ok in H as (merged & Hcopy & H).
  assert (merged = base) as ->
      by (destruct base; simpl in Hcopy; congruence).
  apply bind_ok in H as (has_paths & _ & H).
  apply bind_ok in H as (m & Hm & H).
  apply bind_ok in H as (has_components & _ & H).
  exists m; split.
  - destruct has_paths; [|injection Hm as <-; apply section_replaced_refl].
    apply bind_ok in Hm as (npaths & _ & Hm).
    apply bind_ok in Hm as (items & _ & Hm).
    eapply for_each_section_replaced; [|eassumption].
    intros; eapply merge_path_section; eauto.
  - destruct has_components; [|injection H as <-; apply section_replaced_refl].
    apply bind_ok in H as (ncomps & _ & H).
    apply bind_ok in H as (sections & _ & H).
    eapply for_each_section_replaced; [|eassumption].
    intros; eapply merge_section_section; eauto.
Qed.

(** A merge that returns keeps both sections in the result. *)
Lemma merge_has_sections (base new r : json) :
  has_sections base = true ->
  merge_oas_definitions base new = Ok r -> has_sections r = true.
Proof.
  intros Hb H.
  apply merge_sections_replaced in H as (m & H1 & H2).
  eauto using section_replaced_has_sections.
Qed.

(** The seed: the start fragment with its two sections emptied. *)
Lemma seed_ok (start_props r : json) :
  seed start_props = Ok r ->
  exists d, py_getitem start_props k_oasDefinition = Ok (JObj d)
            /\ r = JObj (dict_set k_components (JObj [])
                           (dict_set k_paths (JObj []) d)).
Proof.
  unfold seed; intros H.
  apply bind_ok in H as (fragment & Hf & H).
  apply bind_ok in H as (c & Hc & H).
  apply bind_ok in H as (c' & Hs & H).
  apply py_setitem_ok in Hs as (d & -> & ->).
  simpl in H; injection H as <-.
  destruct fragment; simpl in Hc; try discriminate; injection Hc as <-.
  eauto.
Qed.

Lemma seed_has_sections (start_props r : json) :
  seed start_props = Ok r -> has_sections r = true.
Proof.
  intros H; apply seed_ok in H as (d & _ & ->).
  unfold has_sections.
  rewrite dict_lookup_set_same.
  rewrite dict_lookup_set_other by (symmetry; exact k_paths_neq_components).
  rewrite dict_lookup_set_same; reflexivity.
Qed.


(* ================================================================== *)
(** * Merging on well-shaped trees *)
(* ================================================================== *)

Lemma dict_update_cons (d d2 : dict) (k : str) (v : json) :
  dict_update d ((k, v) :: d2) = dict_update (dict_set k v d) d2.
Proof. reflexivity. Qed.

Lemma dict_lookup_update_other (k : str) (d d2 : dict) :
  dict_mem k d2 = false ->
  dict_lookup k (dict_update d d2) = dict_lookup k d.
Proof.
  revert d; induction d2 as [|[k' v'] d2 IH]; intros d H; [reflexivity|].
  rewrite dict_update_cons.
  unfold dict_mem in H; simpl in H.
  destruct (str_eqb k k') eqn:E; [discriminate|].
  rewrite IH by exact H.
  apply dict_lookup_set_other.
  intros ->; rewrite str_eqb_refl in E; discriminate.
Qed.

(** After [d.update(d2)] a key of [d2] has the value [d2] gives it, and
    any other key the value it had. *)
Lemma dict_lookup_update (k : str) (d d2 : dict) :
  nodup_keys d2 = true ->
  dict_lookup k (dict_update d d2) =
  match dict_lookup k d2 with
  | Some v => Some v
  | None => dict_lookup k d
  end.
Proof.
  revert d; induction d2 as [|[k' v'] d2 IH]; intros d; [reflexivity|].
  simpl nodup_keys; rewrite andb_true_iff, negb_true_iff; intros [Hm Hn].
  rewrite dict_update_cons; simpl dict_lookup.
  destruct (str_eqb k k') eqn:E.
  - apply str_eqb_spec in E; subst k'.
    rewrite dict_lookup_update_other by exact Hm.
    apply dict_lookup_set_same.
  - rewrite IH by exact Hn.
    destruct (dict_lookup k d2); [reflexivity|].
    apply dict_lookup_set_other.
    intros ->; rewrite str_eqb_refl in E; discriminate.
Qed.




Lemma nodup_keys_update (d d2 : dict) :
  nodup_keys d = true -> nodup_keys (dict_update d d2) = true.
Proof.
  revert d; induction d2 as [|[k v] d2 IH]; intros d H; [assumption|].
  rewrite dict_update_cons; apply IH, nodup_keys_set, H.
Qed.

Lemma keyed_set (P : json -> bool) (k : str) (v : json) (d : dict) :
  keyed P (JObj d) = true -> P v = true ->
  keyed P (JObj (dict_set k v d)) = true.
Proof.
  simpl; rewrite !andb_true_iff; intros [Hn Hall] Hv; split.
  - apply nodup_keys_set; assumption.
  - clear Hn; induction d as [|[k' v'] d IH]; simpl in *.
    + rewrite Hv; reflexivity.
    + apply andb_true_iff in Hall as [H1 H2].
      destruct (str_eqb k k'); simpl; rewrite ?Hv, ?H1, ?H2, ?IH; auto.
Qed.

Lemma keyed_lookup (P : json -> bool) (k : str) (v : json) (d : dict) :
  keyed P (JObj d) = true -> dict_lookup k d = Some v -> P v = true.
Proof.
  simpl; rewrite andb_true_iff; intros [_ Hall] H.
  apply dict_lookup_In in H.
  rewrite forallb_forall in Hall; apply (Hall _ H).
Qed.


Lemma keyed_nodup (P : json -> bool) (d : dict) :
  keyed P (JObj d) = true -> nodup_keys d = true.
Proof. simpl; rewrite andb_true_iff; tauto. Qed.

Lemma keyed_dict (P : json -> bool) (v : json) :
  keyed P v = true -> exists d, v = JObj d.
Proof. destruct v; try discriminate; eauto. Qed.

Lemma a_dict_update (T N : dict) :
  a_dict (JObj T) = true -> a_dict (JObj (dict_update T N)) = true.
Proof.
  unfold a_dict; simpl; rewrite !andb_true_iff; intros [Hn _]; split.
  - apply nodup_keys_update; assumption.
  - apply forallb_forall; reflexivity.
Qed.

Lemma for_each_app {A S} (body : S -> A -> outcome S) (l1 l2 : list A)
  (s : S) :
  for_each body (l1 ++ l2) s = (s1 <- for_each body l1 s ;; for_each body l2 s1).
Proof.
  revert s; induction l1 as [|a l1 IH]; intros s; simpl; [reflexivity|].
  destruct (body s a); simpl; auto.
Qed.

Lemma for_each_cons {A S} (body : S -> A -> outcome S) (a : A) (l : list A)
  (s : S) :
  for_each body (a :: l) s = (s1 <- body s a ;; for_each body l s1).
Proof. reflexivity. Qed.

(** A loop all of whose steps return, keeping an invariant, returns. *)
Lemma for_each_total {A S} (Inv : S -> Prop) (body : S -> A -> outcome S)
  (l : list A) :
  (forall s a, In a l -> Inv s -> exists s', body s a = Ok s' /\ Inv s') ->
  forall s, Inv s -> exists s', for_each body l s = Ok s' /\ Inv s'.
Proof.
  induction l as [|a l IH]; intros Hstep s Hs; simpl; [eauto|].
  destruct (Hstep s a (or_introl eq_refl) Hs) as (s1 & E & H1).
  rewrite E; simpl; apply IH; auto.
  intros; apply Hstep; auto; right; assumption.
Qed.

(** A loop all of whose steps change nothing changes nothing. *)
Lemma for_each_noop {A S} (body : S -> A -> outcome S) (l : list A) (s : S) :
  (forall a, In a l -> body s a = Ok s) -> for_each body l s = Ok s.
Proof.
  induction l as [|a l IH]; intros H; simpl; [reflexivity|].
  rewrite (H a (or_introl eq_refl)); simpl; apply IH.
  intros; apply H; right; assumption.
Qed.

(** ** One path *)

(** What [merge_path] computes on a tree whose "paths" section is well
    shaped, for a fragment entry that is a dict. *)
Lemma merge_path_eval (M P N : dict) (path : str) :
  dict_lookup k_paths M = Some (JObj P) ->
  paths_shaped (JObj P) = true ->
  merge_path (JObj M) (path, JObj N)
  = Ok (JObj (dict_set k_paths
                (JObj (dict_set path
                         (match dict_lookup path P with
                          | Some (JObj T) => JObj (dict_update T N)
                          | _ => JObj N
                          end) P)) M)).
Proof.
  intros HP Hshape; unfold merge_path; simpl; rewrite HP; simpl.
  unfold dict_mem; destruct (dict_lookup path P) as [v|] eqn:E; simpl.
  - pose proof E as HT; eapply keyed_lookup in HT; [|exact Hshape].
    apply keyed_dict in HT as [T ->].
    reflexivity.
  - reflexivity.
Qed.

(** ** Merging dicts entry by entry *)

Section PutWith.

Variable f : json -> json -> json.

(** The values the entries of the fragment may have, with what is needed
    of [f] on them. *)
Variable Good : json -> bool.
Hypothesis f_twice : forall old v, Good v = true -> f (f old v) v = f old v.
Hypothesis f_self : forall v, Good v = true -> f v v = v.

Lemma merge_all_cons (D items : dict) (e : str * json) :
  merge_all f D (e :: items) = merge_all f (put_with f D e) items.
Proof. reflexivity. Qed.

Lemma merge_all_lookup_other (k : str) (D items : dict) :
  dict_mem k items = false ->
  dict_lookup k (merge_all f D items) = dict_lookup k D.
Proof.
  revert D; induction items as [|[k' v'] items IH]; intros D H; [reflexivity|].
  rewrite merge_all_cons.
  unfold dict_mem in H; simpl in H.
  destruct (str_eqb k k') eqn:E; [discriminate|].
  rewrite IH by exact H.
  unfold put_with; simpl; apply dict_lookup_set_other.
  intros ->; rewrite str_eqb_refl in E; discriminate.
Qed.

(** After the merge a key of the fragment holds the fragment's value,
    combined with the old one if there was one; any other key is as it
    was. *)
Lemma merge_all_lookup (k : str) (D items : dict) :
  nodup_keys items = true ->
  dict_lookup k (merge_all f D items) =
  match dict_lookup k items with
  | Some v => Some (match dict_lookup k D with
                    | Some old => f old v
                    | None => v
                    end)
  | None => dict_lookup k D
  end.
Proof.
  revert D; induction items as [|[k' v'] items IH]; intros D; [reflexivity|].
  simpl nodup_keys; rewrite andb_true_iff, negb_true_iff; intros [Hm Hn].
  rewrite merge_all_cons; simpl dict_lookup.
  destruct (str_eqb k k') eqn:E.
  - apply str_eqb_spec in E; subst k'.
    rewrite merge_all_lookup_other by exact Hm.
    unfold put_with; simpl; apply dict_lookup_set_same.
  - rewrite IH by exact Hn.
    assert (Ho : dict_lookup k (put_with f D (k', v')) = dict_lookup k D).
    { unfold put_with; simpl; apply dict_lookup_set_other.
      intros ->; rewrite str_eqb_refl in E; discriminate. }
    rewrite Ho; reflexivity.
Qed.





(** The shape of the dict is kept. *)
Lemma merge_all_keyed (Q : json -> bool) (D items : dict) :
  (forall old v, Q old = true -> Q v = true -> Q (f old v) = true) ->
  keyed Q (JObj D) = true ->
  forallb (fun kv => Q (snd kv)) items = true ->
  keyed Q (JObj (merge_all f D items)) = true.
Proof.
  intros Hf; revert D; induction items as [|[k v] items IH]; intros D HD;
    [auto|].
  simpl forallb; rewrite andb_true_iff; intros [Hv Hall].
  rewrite merge_all_cons; apply IH; [|assumption].
  unfold put_with; simpl; apply keyed_set; [assumption|].
  destruct (dict_lookup k D) eqn:E; [|assumption].
  apply Hf; [|assumption]; eapply keyed_lookup; eassumption.
Qed.

End PutWith.



Lemma updated_a_dict (old v : json) :
  a_dict old = true -> a_dict v = true -> a_dict (updated old v) = true.
Proof.
  destruct old, v; try discriminate; intros Ho _.
  apply a_dict_update; assumption.
Qed.



Lemma keyed_values (P : json -> bool) (d : dict) :
  keyed P (JObj d) = true -> forallb (fun kv => P (snd kv)) d = true.
Proof. simpl; rewrite andb_true_iff; tauto. Qed.

Lemma section_merged_keyed (old v : json) :
  keyed a_dict old = true -> keyed a_dict v = true ->
  keyed a_dict (section_merged old v) = true.
Proof.
  destruct old as [| | | | | |So], v as [| | | | | |Sn]; try discriminate.
  intros Ho Hv; simpl section_merged.
  apply merge_all_keyed; auto using updated_a_dict, keyed_values.
Qed.

(** ** The loops of the merge compute [merge_all] *)

Lemma a_dict_is_dict (v : json) : a_dict v = true -> exists d, v = JObj d.
Proof. apply keyed_dict. Qed.

Lemma put_updated_shaped (D : dict) (k : str) (v : json) :
  keyed a_dict (JObj D) = true -> a_dict v = true ->
  keyed a_dict (JObj (put_with updated D (k, v))) = true.
Proof.
  intros HD Hv; unfold put_with; simpl; apply keyed_set; [assumption|].
  destruct (dict_lookup k D) eqn:E; [|assumption].
  apply updated_a_dict; [|assumption]; eapply keyed_lookup; eassumption.
Qed.

Lemma merge_path_put (M P : dict) (path : str) (methods : json) :
  dict_lookup k_paths M = Some (JObj P) ->
  paths_shaped (JObj P) = true -> a_dict methods = true ->
  merge_path (JObj M) (path, methods)
  = Ok (JObj (dict_set k_paths (JObj (put_with updated P (path, methods))) M)).
Proof.
  intros HP Hshape Hm; apply a_dict_is_dict in Hm as [N ->].
  erewrite merge_path_eval by eassumption; unfold put_with; simpl.
  destruct (dict_lookup path P) as [old|] eqn:E; [|reflexivity].
  eapply keyed_lookup in E; [|exact Hshape].
  apply a_dict_is_dict in E as [T ->]; reflexivity.
Qed.

Lemma merge_paths_refine (items : dict) :
  forallb (fun kv => a_dict (snd kv)) items = true ->
  forall M P : dict,
    dict_lookup k_paths M = Some (JObj P) ->
    paths_shaped (JObj P) = true ->
    for_each merge_path items (JObj M)
    = Ok (JObj (dict_set k_paths (JObj (merge_all updated P items)) M)).
Proof.
  induction items as [|[path methods] items IH]; intros Hall M P HP Hshape.
  - simpl; erewrite dict_set_same by eassumption; reflexivity.
  - simpl in Hall; apply andb_true_iff in Hall as [Hm Hall].
    rewrite for_each_cons; erewrite merge_path_put by eassumption; cbn [bind].
    erewrite IH;
      [ | assumption | apply dict_lookup_set_same
        | apply put_updated_shaped; assumption ].
    rewrite dict_set_set; reflexivity.
Qed.

Lemma merge_component_put (section : str) (M C Sd : dict) (name : str)
  (item : json) :
  dict_lookup k_components M = Some (JObj C) ->
  dict_lookup section C = Some (JObj Sd) ->
  keyed a_dict (JObj Sd) = true -> a_dict item = true ->
  merge_component section (JObj M) (name, item)
  = Ok (JObj (dict_set k_components
                (JObj (dict_set section
                         (JObj (put_with updated Sd (name, item))) C)) M)).
Proof.
  intros HC HS Hshape Hi; apply a_dict_is_dict in Hi as [I ->].
  unfold merge_component, put_with; simpl; rewrite HC; simpl; rewrite HS; simpl.
  unfold dict_mem; destruct (dict_lookup name Sd) as [old|] eqn:E; simpl;
    [|reflexivity].
  eapply keyed_lookup in E; [|exact Hshape].
  apply a_dict_is_dict in E as [T ->]; reflexivity.
Qed.

Lemma merge_components_refine (section : str) (items : dict) :
  forallb (fun kv => a_dict (snd kv)) items = true ->
  forall M C Sd : dict,
    dict_lookup k_components M = Some (JObj C) ->
    dict_lookup section C = Some (JObj Sd) ->
    keyed a_dict (JObj Sd) = true ->
    for_each (merge_component section) items (JObj M)
    = Ok (JObj (dict_set k_components
                  (JObj (dict_set section
                           (JObj (merge_all updated Sd items)) C)) M)).
Proof.
  induction items as [|[name item] items IH]; intros Hall M C Sd HC HS Hshape.
  - simpl; erewrite (dict_set_same section) by eassumption.
    erewrite dict_set_same by eassumption; reflexivity.
  - simpl in Hall; apply andb_true_iff in Hall as [Hi Hall].
    rewrite for_each_cons; erewrite merge_component_put by eassumption;
      cbn [bind].
    erewrite IH;
      [ | assumption | apply dict_lookup_set_same | apply dict_lookup_set_same
        | apply put_updated_shaped; assumption ].
    rewrite (dict_set_set section), (dict_set_set k_components); reflexivity.
Qed.

Lemma merge_section_put (NC M C Sn : dict) (section : str) :
  dict_lookup k_components M = Some (JObj C) ->
  components_shaped (JObj C) = true ->
  dict_lookup section NC = Some (JObj Sn) ->
  keyed a_dict (JObj Sn) = true ->
  merge_section (JObj NC) (JObj M) (JStr section)
  = Ok (JObj (dict_set k_components
                (JObj (put_with section_merged C (section, JObj Sn))) M)).
Proof.
  intros HC Hshape HN HSn.
  unfold merge_section, put_with; simpl; rewrite HC; simpl.
  unfold dict_mem; destruct (dict_lookup section C) as [old|] eqn:E; simpl;
    rewrite HN; simpl; [|reflexivity].
  pose proof E as Ho; eapply keyed_lookup in Ho; [|exact Hshape].
  pose proof Ho as Hd; apply keyed_dict in Hd as [So ->].
  apply merge_components_refine; auto using keyed_values.
Qed.

Lemma put_section_shaped (C : dict) (k : str) (v : json) :
  components_shaped (JObj C) = true -> keyed a_dict v = true ->
  components_shaped (JObj (put_with section_merged C (k, v))) = true.
Proof.
  intros HC Hv; unfold put_with; simpl; apply keyed_set; [assumption|].
  destruct (dict_lookup k C) eqn:E; [|assumption].
  apply section_merged_keyed; [|assumption]; eapply keyed_lookup; eassumption.
Qed.

Lemma merge_sections_refine (NC : dict) (l : dict) :
  (forall k v, In (k, v) l -> dict_lookup k NC = Some v) ->
  forallb (fun kv => keyed a_dict (snd kv)) l = true ->
  forall M C : dict,
    dict_lookup k_components M = Some (JObj C) ->
    components_shaped (JObj C) = true ->
    for_each (merge_section (JObj NC)) (map (fun kv => JStr (fst kv)) l)
      (JObj M)
    = Ok (JObj (dict_set k_components
                  (JObj (merge_all section_merged C l)) M)).
Proof.
  induction l as [|[section v] l IH]; intros Hin Hall M C HC Hshape.
  - simpl; erewrite dict_set_same by eassumption; reflexivity.
  - simpl in Hall; apply andb_true_iff in Hall as [Hv Hall].
    pose proof Hv as Hd; apply keyed_dict in Hd as [Sn ->].
    simpl map; rewrite for_each_cons.
    erewrite merge_section_put;
      [|eassumption|eassumption|apply Hin; left; reflexivity|assumption].
    cbn [bind].
    erewrite IH;
      [ | intros; apply Hin; right; assumption | assumption
        | apply dict_lookup_set_same | apply put_section_shaped; assumption ].
    rewrite dict_set_set; reflexivity.
Qed.

Lemma spec_tree_sections (t : json) :
  spec_tree t = true ->
  exists M P C,
    t = JObj M
    /\ dict_lookup k_paths M = Some (JObj P)
    /\ dict_lookup k_components M = Some (JObj C)
    /\ paths_shaped (JObj P) = true /\ components_shaped (JObj C) = true.
Proof.
  destruct t as [| | | | | |M]; try discriminate; unfold spec_tree.
  destruct (dict_lookup k_paths M) as [P|] eqn:EP; [|discriminate].
  destruct (dict_lookup k_components M) as [C|] eqn:EC; [|discriminate].
  rewrite andb_true_iff; intros [HP HC].
  pose proof HP as HP'; apply keyed_dict in HP' as [P' ->].
  pose proof HC as HC'; apply keyed_dict in HC' as [C' ->].
  exists M, P', C'; auto.
Qed.

Lemma merged_tree_sections (base new : json) (M P C : dict) :
  base = JObj M ->
  dict_lookup k_paths M = Some (JObj P) ->
  dict_lookup k_components M = Some (JObj C) ->
  merged_tree base new
  = JObj (dict_set k_components
            (JObj (merge_all section_merged C
                     (fragment_section k_components new)))
            (dict_set k_paths
               (JObj (merge_all updated P (fragment_section k_paths new)))
               M)).
Proof.
  intros -> HP HC; unfold merged_tree, fragment_section at 1 3, section_of.
  rewrite HP, HC; reflexivity.
Qed.

Lemma oas_fragment_sections (new : json) :
  oas_fragment new = true ->
  paths_shaped (JObj (fragment_section k_paths new)) = true
  /\ components_shaped (JObj (fragment_section k_components new)) = true.
Proof.
  destruct new as [| | | | | |F]; try discriminate; simpl.
  rewrite andb_true_iff; intros [HP HC].
  unfold fragment_section, section_of.
  destruct (dict_lookup k_paths F) as [[]|];
    destruct (dict_lookup k_components F) as [[]|];
    try discriminate; auto.
Qed.

(** On a specification tree and a well-shaped fragment the merge returns,
    and what it returns is [merged_tree], again a specification tree. *)
Lemma merge_refines (base new : json) :
  spec_tree base = true -> oas_fragment new = true ->
  merge_oas_definitions base new = Ok (merged_tree base new)
  /\ spec_tree (merged_tree base new) = true.
Proof.
  intros Hb Hn.
  destruct (oas_fragment_sections _ Hn) as [HNP HNC].
  apply spec_tree_sections in Hb as (M & P & C & -> & HP & HC & HPs & HCs).
  rewrite (merged_tree_sections new eq_refl HP HC).
  destruct new as [| | | | | |F]; try discriminate.
  simpl in Hn; apply andb_true_iff in Hn as [HnP HnC].
  set (NP := fragment_section k_paths (JObj F)) in *.
  set (NC := fragment_section k_components (JObj F)) in *.
  set (P' := merge_all updated P NP).
  set (M1 := dict_set k_paths (JObj P') M).
  assert (HC1 : dict_lookup k_components M1 = Some (JObj C)).
  { subst M1; rewrite dict_lookup_set_other; [assumption|].
    exact k_paths_neq_components. }
  assert (HP' : paths_shaped (JObj P') = true)
    by (apply merge_all_keyed; auto using updated_a_dict, keyed_values).
  assert (Hpaths :
            (if dict_mem k_paths F
             then npaths <- py_getitem (JObj F) k_paths ;;
                  items <- py_items npaths ;;
                  for_each merge_path items (JObj M)
             else Ok (JObj M)) = Ok (JObj M1)).
  { subst M1 P' NP; unfold fragment_section, section_of, dict_mem.
    simpl py_getitem.
    destruct (dict_lookup k_paths F) as [v|]; cbn [bind].
    - pose proof HnP as Hd; apply keyed_dict in Hd as [NP ->].
      cbn [py_items bind].
      apply merge_paths_refine; auto using keyed_values.
    - unfold merge_all; simpl fold_left.
      erewrite dict_set_same by eassumption; reflexivity. }
  assert (Hcomps :
            (if dict_mem k_components F
             then ncomps <- py_getitem (JObj F) k_components ;;
                  sections <- py_iter ncomps ;;
                  for_each (merge_section ncomps) sections (JObj M1)
             else Ok (JObj M1))
            = Ok (JObj (dict_set k_components
                          (JObj (merge_all section_merged C NC)) M1))).
  { subst NC; unfold fragment_section, section_of, dict_mem.
    simpl py_getitem.
    destruct (dict_lookup k_components F) as [v|]; cbn [bind].
    - pose proof HnC as Hd; apply keyed_dict in Hd as [NC ->].
      cbn [py_iter bind].
      apply merge_sections_refine; auto using keyed_values.
      intros k v Hin; eapply dict_In_lookup; [|eassumption].
      eapply keyed_nodup; eassumption.
    - unfold merge_all; simpl fold_left.
      erewrite dict_set_same by eassumption; reflexivity. }
  split.
  - unfold merge_oas_definitions; cbn [py_copy bind py_contains].
    rewrite Hpaths; cbn [bind]; exact Hcomps.
  - unfold spec_tree; fold M1.
    rewrite dict_lookup_set_same.
    rewrite dict_lookup_set_other by (symmetry; exact k_paths_neq_components).
    subst M1; rewrite dict_lookup_set_same.
    rewrite HP'; simpl andb.
    apply merge_all_keyed;
      auto using section_merged_keyed, keyed_values.
Qed.


(** C5.  Merging is last-fragment-wins at the granularity of methods.
    Take a specification tree and a well-shaped fragment that both have
    the path [path], with method maps [T] and [N]: the merge returns a
    tree in which the method map of [path] gives every method of [N] the
    operation the fragment has for it, and every other method the
    operation it had in [T].  In particular, merging A and then B, whose
    operation get of /x has the summary "old" and then "new", yields the
    summary "new". *)
Theorem last_fragment_wins_per_method :
  (forall (base new : json) (P NP T N : dict) (path : str),
      spec_tree base = true -> oas_fragment new = true ->
      section_of k_paths base = Some P ->
      dict_lookup path P = Some (JObj T) ->
      section_of k_paths new = Some NP ->
      dict_lookup path NP = Some (JObj N) ->
      exists r P' T',
        merge_oas_definitions base new = Ok r
        /\ section_of k_paths r = Some P'
        /\ dict_lookup path P' = Some (JObj T')
        /\ forall method : str,
             dict_lookup method T' =
             match dict_lookup method N with
             | Some operation => Some operation
             | None => dict_lookup method T
             end)
  /\ (r1 <- merge_oas_definitions empty_tree fragment_A ;;
      r2 <- merge_oas_definitions r1 fragment_B ;;
      paths <- py_getitem r2 k_paths ;;
      x <- py_getitem paths (u "/x") ;;
      get <- py_getitem x (u "get") ;;
      py_getitem get (u "summary")) = Ok (JStr (u "new")).
Proof.
  split; [|vm_compute; reflexivity].
  intros base new P NP T N path Hb Hn HbP HT HnP HN.
  destruct (merge_refines _ _ Hb Hn) as [H1 _].
  destruct (oas_fragment_sections _ Hn) as [HNP _].
  apply spec_tree_sections in Hb as (M & P0 & C & -> & HP & HC & HPs & HCs).
  assert (P0 = P) as ->
      by (unfold section_of in HbP; rewrite HP in HbP; congruence).
  assert (Hfs : fragment_section k_paths new = NP)
    by (unfold fragment_section; rewrite HnP; reflexivity).
  rewrite Hfs in *.
  rewrite (merged_tree_sections new eq_refl HP HC), Hfs in H1.
  exists (JObj (dict_set k_components
                  (JObj (merge_all section_merged C
                           (fragment_section k_components new)))
                  (dict_set k_paths (JObj (merge_all updated P NP)) M))),
         (merge_all updated P NP), (dict_update T N).
  split; [exact H1|]; split; [|split].
  - unfold section_of.
    rewrite dict_lookup_set_other by (symmetry; exact k_paths_neq_components).
    rewrite dict_lookup_set_same; reflexivity.
  - rewrite merge_all_lookup by (eapply keyed_nodup; exact HNP).
    rewrite HN, HT; reflexivity.
  - intros method; apply dict_lookup_update.
    eapply keyed_lookup in HN; [|exact HNP].
    eapply keyed_nodup; exact HN.
Qed.

(** ** Where the keys of the sections come from *)









(* ================================================================== *)
(** * The crawl *)
(* ================================================================== *)

Section Crawl.

Variable sha256_hexdigest : str -> str.
Variable requests_get : list str -> str -> http_result.
Variable soup_find_ssr_props : str -> soup_result.
Variable json_dumps : json -> str.

Let fetch := fetch_ssr_props sha256_hexdigest requests_get
               soup_find_ssr_props json_dumps.
Let page_step := process_page sha256_hexdigest requests_get
                   soup_find_ssr_props json_dumps.
Let ref_step := process_ref sha256_hexdigest requests_get
                  soup_find_ssr_props json_dumps.
Let run_crawl := crawl sha256_hexdigest requests_get
                   soup_find_ssr_props json_dumps.
Let run_main := main sha256_hexdigest requests_get
                  soup_find_ssr_props json_dumps.

Lemma bindM_cases {A B} (m : M A) (k : A -> M B) (w w' : world)
  (res : outcome B) :
  bindM m k w = (res, w') ->
  (exists e, m w = (Raise e, w') /\ res = Raise e) \/
  (exists a w1, m w = (Ok a, w1) /\ k a w1 = (res, w')).
Proof.
  unfold bindM; destruct (m w) as [[a|e] w1]; intros H.
  - right; eauto.
  - left; injection H as <- <-; eauto.
Qed.

Lemma bindM_ok {A B} (m : M A) (k : A -> M B) (w w' : world) (b : B) :
  bindM m k w = (Ok b, w') ->
  exists a w1, m w = (Ok a, w1) /\ k a w1 = (Ok b, w').
Proof.
  intros H; apply bindM_cases in H as [(e & _ & [=])|H]; exact H.
Qed.

Lemma lift_ok {A} (r : outcome A) (w w' : world) (a : A) :
  lift r w = (Ok a, w') -> r = Ok a /\ w' = w.
Proof. unfold lift; intros [= -> ->]; auto. Qed.

Lemma lift_world {A} (r r' : outcome A) (w w' : world) :
  lift r w = (r', w') -> r' = r /\ w' = w.
Proof. unfold lift; intros [= -> ->]; auto. Qed.

(** Every call of [fetch_ssr_props] is recorded, whatever it returns. *)
Lemma fetch_records_call (url : str) (w w' : world) (res : outcome json) :
  fetch url w = (res, w') -> fetch_calls w' = fetch_calls w ++ [url].
Proof.
  unfold fetch, fetch_ssr_props.
  repeat match goal with
         | |- context [if ?b then _ else _] => destruct b
         | |- context [match ?x with _ => _ end] => destruct x
         end; intros [= <- <-]; reflexivity.
Qed.

(** One page of the crawl, whatever comes of it: either nothing is
    fetched, or the page has a [str] slug that is not in the set of
    non-reference pages and exactly its URL is fetched. *)
Lemma process_page_trace (url_prefix : str) (non_reference_pages : list json)
  (oas page : json) (w w' : world) (res : outcome json) :
  page_step url_prefix non_reference_pages oas page w = (res, w') ->
  fetch_calls w' = fetch_calls w \/
  exists s, py_getitem page (u "slug") = Ok (JStr s)
            /\ set_contains (JStr s) non_reference_pages = Ok false
            /\ fetch_calls w' = fetch_calls w ++ [url_prefix ++ s].
Proof.
  unfold page_step, process_page; intros H.
  apply bindM_cases in H as [(e & H & _)|(slug & w1 & Hslug & H)];
    [apply lift_world in H as [_ ->]; auto|].
  apply lift_ok in Hslug as [Hslug ->].
  apply bindM_cases in H as [(e & H & _)|(skip & w1 & Hskip & H)];
    [apply lift_world in H as [_ ->]; auto|].
  apply lift_ok in Hskip as [Hskip ->].
  destruct skip.
  { apply bindM_cases in H as [(e & H & _)|(? & w1 & Hp & H)];
      [apply lift_world in H as [_ ->]; auto|].
    apply lift_ok in Hp as [_ ->]; injection H as _ <-; auto. }
  apply bindM_cases in H as [(e & H & _)|(? & w1 & Hp & H)];
    [apply lift_world in H as [_ ->]; auto|].
  apply lift_ok in Hp as [_ ->].
  apply bindM_cases in H as [(e & H & _)|(slug' & w1 & Hslug' & H)];
    [apply lift_world in H as [_ ->]; auto|].
  apply lift_ok in Hslug' as [Hslug' ->].
  assert (slug' = slug) as -> by congruence.
  apply bindM_cases in H as [(e & H & _)|(url & w1 & Hurl & H)];
    [apply lift_world in H as [_ ->]; auto|].
  apply lift_ok in Hurl as [Hurl ->].
  destruct slug as [| | | |s| |]; try discriminate.
  injection Hurl as <-.
  right; exists s; repeat split; auto.
  apply bindM_cases in H as [(e & H & _)|(props & w1 & Hf & H)].
  { eapply fetch_records_call; eassumption. }
  apply fetch_records_call in Hf.
  enough (w' = w1) as -> by exact Hf.
  destruct props;
    try (injection H as _ <-; reflexivity);
    (apply bindM_cases in H as [(e & H & _)|(has & w2 & Hh & H)];
     [apply lift_world in H as [_ ->]; reflexivity|];
     apply lift_ok in Hh as [_ ->];
     destruct has; simpl in H; [|injection H as _ <-; reflexivity];
     apply bindM_cases in H as [(e & H & _)|(frag & w2 & Hg & H)];
     [apply lift_world in H as [_ ->]; reflexivity|];
     apply lift_ok in Hg as [_ ->];
     destruct (py_truthy frag); simpl in H;
     [|injection H as _ <-; reflexivity];
     apply bindM_cases in H as [(e & H & _)|(frag' & w2 & Hg' & H)];
     [apply lift_world in H as [_ ->]; reflexivity|];
     apply lift_ok in Hg' as [_ ->];
     apply lift_world in H as [_ ->]; reflexivity).
Qed.

(** One page of the crawl that returns: the result is untouched, or it
    is the result merged with the fragment of the page just fetched. *)
Lemma process_page_ok (url_prefix : str) (non_reference_pages : list json)
  (oas page r : json) (w w' : world) :
  page_step url_prefix non_reference_pages oas page w = (Ok r, w') ->
  r = oas \/
  exists s props fragment,
    py_getitem page (u "slug") = Ok (JStr s)
    /\ fetch (url_prefix ++ s) w = (Ok props, w')
    /\ py_getitem props k_oasDefinition = Ok fragment
    /\ py_truthy fragment = true
    /\ merge_oas_definitions oas fragment = Ok r.
Proof.
  unfold page_step, process_page; intros H.
  apply bindM_ok in H as (slug & w1 & Hslug & H).
  apply lift_ok in Hslug as [Hslug ->].
  apply bindM_ok in H as (skip & w1 & Hskip & H).
  apply lift_ok in Hskip as [Hskip ->].
  destruct skip.
  { apply bindM_ok in H as (? & w1 & _ & H); injection H as <- _; auto. }
  apply bindM_ok in H as (? & w1 & Hp & H).
  apply lift_ok in Hp as [_ ->].
  apply bindM_ok in H as (slug' & w1 & Hslug' & H).
  apply lift_ok in Hslug' as [Hslug' ->].
  assert (slug' = slug) as -> by congruence.
  apply bindM_ok in H as (url & w1 & Hurl & H).
  apply lift_ok in Hurl as [Hurl ->].
  destruct slug as [| | | |s| |]; try discriminate.
  injection Hurl as <-.
  apply bindM_ok in H as (props & w1 & Hf & H).
  destruct props;
    try (injection H as <- _; left; reflexivity);
    (apply bindM_ok in H as (has & w2 & Hh & H);
     apply lift_ok in Hh as [_ ->];
     destruct has; simpl in H; [|injection H as <- _; left; reflexivity];
     apply bindM_ok in H as (frag & w2 & Hg & H);
     apply lift_ok in Hg as [Hg ->];
     destruct (py_truthy frag) eqn:Ht; simpl in H;
     [|injection H as <- _; left; reflexivity];
     apply bindM_ok in H as (frag' & w2 & Hg' & H);
     apply lift_ok in Hg' as [Hg' ->];
     apply lift_ok in H as [H ->];
     assert (frag' = frag) as -> by congruence;
     right; exists s; eauto 10).
Qed.

Lemma for_eachM_invariant {A S} (P : S -> Prop) (body : S -> A -> M S)
  (l : list A) :
  (forall s a s' w w', In a l -> P s -> body s a w = (Ok s', w') -> P s') ->
  forall s s' w w', P s -> for_eachM body l s w = (Ok s', w') -> P s'.
Proof.
  induction l as [|a l IH]; intros Hstep s s' w w' Hs; simpl.
  - intros [= <- _]; assumption.
  - intros H; apply bindM_ok in H as (s1 & w1 & H1 & H).
    eapply IH; [ | | eassumption].
    + intros; eapply Hstep; eauto; right; assumption.
    + eapply Hstep; eauto; left; reflexivity.
Qed.



(** ** The set of non-reference pages *)

Lemma set_add_grows (v : json) (s s' : list json) (x : json) :
  set_add v s = Ok s' -> in_set x s = true -> in_set x s' = true.
Proof.
  unfold set_add, in_set.
  destruct (hashable v); [|discriminate].
  destruct (existsb (py_eq v) s); intros [= <-]; auto.
  rewrite existsb_app; intros ->; reflexivity.
Qed.

Lemma set_add_str (t : str) (s s' : list json) :
  set_add (JStr t) s = Ok s' -> in_set (JStr t) s' = true.
Proof.
  unfold set_add, in_set; simpl.
  destruct (existsb (py_eq (JStr t)) s) eqn:E; intros [= <-]; auto.
  rewrite existsb_app; simpl; rewrite str_eqb_refl.
  rewrite orb_true_r; reflexivity.
Qed.

(** A loop whose steps only move the state forward along [R] keeps what
    each step has established. *)
Lemma for_each_established {A S} (R : S -> S -> Prop) (Q : A -> S -> Prop)
  (body : S -> A -> outcome S) (l : list A) :
  (forall s, R s s) ->
  (forall s1 s2 s3, R s1 s2 -> R s2 s3 -> R s1 s3) ->
  (forall a s s', Q a s -> R s s' -> Q a s') ->
  (forall s a s', In a l -> body s a = Ok s' -> R s s' /\ Q a s') ->
  forall s s', for_each body l s = Ok s' ->
               R s s' /\ forall a, In a l -> Q a s'.
Proof.
  intros Hrefl Htrans Hkeep.
  induction l as [|a l IH]; intros Hstep s s'; simpl.
  - intros [= <-]; split; [apply Hrefl | contradiction].
  - intros H; apply bind_ok in H as (s1 & H1 & H).
    apply Hstep in H1 as [R1 Q1]; [|left; reflexivity].
    apply IH in H as [R2 Q2]; [|intros; apply Hstep; auto; right; assumption].
    split; [eauto|].
    intros b [<-|Hb]; eauto.
Qed.

Lemma collect_page_ok (s s' : list json) (page : json) :
  collect_page s page = Ok s' -> set_grows s s' /\ page_recorded page s'.
Proof.
  unfold collect_page; intros H.
  apply bind_ok in H as (is_reference & Hr & H).
  destruct (py_truthy is_reference) eqn:Ht; simpl in H.
  - injection H as <-; split; [intros x Hx; exact Hx|].
    intros r slug Hr'; congruence.
  - apply bind_ok in H as (slug & Hs & H).
    split; [intros x; eapply set_add_grows; eassumption|].
    intros r slug' _ _ Hs'.
    assert (slug = JStr slug') as -> by congruence.
    eapply set_add_str; eassumption.
Qed.

Lemma collect_doc_ok (s s' : list json) (doc : json) :
  collect_doc s doc = Ok s' ->
  set_grows s s' /\
  forall pages page, py_getitem doc (u "pages") = Ok (JArr pages) ->
                     In page pages -> page_recorded page s'.
Proof.
  unfold collect_doc; intros H.
  apply bind_ok in H as (pages & Hp & H).
  apply bind_ok in H as (pages' & Hi & H).
  apply (for_each_established set_grows page_recorded) in H as [Hg Hall].
  - split; [assumption|].
    intros ps page Hp'; rewrite Hp in Hp'; injection Hp' as ->.
    simpl in Hi; injection Hi as <-; apply Hall.
  - intros x y Hy; exact Hy.
  - intros s1 s2 s3 H12 H23 x Hx; auto.
  - intros a s1 s2 Hq Hg r slug Hr Ht Hs; eauto.
  - intros s1 a s2 _; apply collect_page_ok.
Qed.

Lemma collect_non_reference_ok (start_props : json) (s : list json)
  (slug : str) :
  collect_non_reference start_props = Ok s ->
  marked_non_reference start_props slug ->
  in_set (JStr slug) s = true.
Proof.
  unfold collect_non_reference; intros H
    (sidebars & docs & doc & pages & page & r & Hsb & Hd & Hdoc & Hp & Hpage
     & Hr & Ht & Hs).
  apply bind_ok in H as (sidebars' & Hsb' & H).
  apply bind_ok in H as (docs' & Hd' & H).
  apply bind_ok in H as (docs'' & Hi & H).
  assert (sidebars' = sidebars) as -> by congruence.
  assert (docs' = JArr docs) as -> by congruence.
  simpl in Hi; injection Hi as <-.
  apply (for_each_established set_grows
           (fun doc s => forall pages page,
                py_getitem doc (u "pages") = Ok (JArr pages) ->
                In page pages -> page_recorded page s))
    in H as [_ Hall].
  - eapply Hall; eauto.
  - intros x y Hy; exact Hy.
  - intros s1 s2 s3 H12 H23 x Hx; auto.
  - intros a s1 s2 Hq Hg ps pg Hps Hin r' sl Hr' Ht' Hs'.
    apply Hg; eapply Hq; eauto.
  - intros s1 a s2 _; apply collect_doc_ok.
Qed.


(** ** What is fetched is well formed *)

Lemma parse_pairs_wf (ps : list str) (result d : dict) :
  wf_dict result = true -> parse_pairs ps result = Ok d -> wf_dict d = true.
Proof.
  revert result; induction ps as [|p ps IH]; intros result Hr; simpl.
  - intros [= <-]; assumption.
  - destruct (json_loads (ch_lbrace :: p ++ [ch_rbrace])) as [parsed|e] eqn:E;
      simpl.
    + destruct (json_loads_object _ E) as [d2 ->]; simpl.
      apply IH, wf_dict_update; [assumption|].
      apply (json_loads_wf _ E).
    + rewrite (json_loads_raises _ E); apply IH; assumption.
Qed.

Lemma extract_props_wf (html : str) (v : json) :
  extract_props soup_find_ssr_props html = Ok v -> wf_json v = true.
Proof.
  unfold extract_props.
  destruct (find tag_needle html 0); [|discriminate].
  destruct (find attr_needle html _); [|discriminate].
  destruct (soup_find_ssr_props _) as [| |data_json]; try discriminate.
  intros H; apply bind_ok in H as (data & Hd & H).
  apply bind_ok in H as (? & _ & H); injection H as <-.
  destruct (find [ch_quote] html _).
  - apply (json_loads_wf _ Hd).
  - apply bind_ok in Hd as (d & Hp & Hd).
    apply bind_ok in Hd as (? & _ & Hd); injection Hd as <-.
    unfold parse_truncated_json in Hp.
    eapply parse_pairs_wf in Hp; [exact Hp | reflexivity].
Qed.

Lemma fetch_wf (url : str) (w w' : world) (v : json) :
  fetch url w = (Ok v, w') -> wf_json v = true.
Proof.
  unfold fetch, fetch_ssr_props.
  destruct (file_exists _ _); [intros [= <- _]; reflexivity|].
  destruct (file_read _ _) as [content|].
  { intros [= H _]; apply (json_loads_wf _ H). }
  destruct (requests_get _ url) as [status text|]; [|discriminate].
  destruct (negb _); [intros [= <- _]; reflexivity|].
  destruct (extract_props _ text) eqn:E; [|discriminate].
  intros [= <- _]; apply (extract_props_wf _ E).
Qed.

Lemma py_getitem_wf (v x : json) (k : str) :
  wf_json v = true -> py_getitem v k = Ok x -> wf_json x = true.
Proof.
  intros Hv H; apply py_getitem_ok in H as (d & -> & H).
  eapply wf_dict_lookup; eassumption.
Qed.

(** ** Invariants of the crawl *)

Lemma merge_top_nodup (base new r : json) :
  top_nodup base = true -> merge_oas_definitions base new = Ok r ->
  top_nodup r = true.
Proof.
  intros Hb H; apply merge_sections_replaced in H as (m & H1 & H2).
  destruct base as [| | | | | |B]; try discriminate.
  destruct (section_replaced_dict H1 eq_refl) as (Mm & -> & Hm).
  destruct (section_replaced_dict H2 eq_refl) as (R & -> & HR).
  simpl in *; auto.
Qed.

Lemma crawl_invariant (P : json -> Prop) (url_prefix : str)
  (non_reference_pages refs : list json) (oas r : json) (w w' : world) :
  (forall base new r', P base -> merge_oas_definitions base new = Ok r' ->
                       P r') ->
  P oas ->
  run_crawl url_prefix non_reference_pages refs oas w = (Ok r, w') -> P r.
Proof.
  intros Hmerge Hoas H.
  unfold run_crawl, crawl in H.
  revert Hoas H; apply for_eachM_invariant.
  intros s ref s' w1 w2 _ Hs H.
  unfold process_ref in H.
  apply bindM_ok in H as (pages & w3 & _ & H).
  apply bindM_ok in H as (pages' & w4 & _ & H).
  revert Hs H; apply for_eachM_invariant.
  intros t page t' w5 w6 _ Ht H.
  apply process_page_ok in H
    as [->|(slug & props & frag & _ & _ & _ & _ & H)]; eauto.
Qed.

Lemma seed_top_nodup (start_props r : json) :
  wf_json start_props = true -> seed start_props = Ok r ->
  top_nodup r = true.
Proof.
  intros Hwf H; apply seed_ok in H as (d & Hd & ->).
  eapply py_getitem_wf in Hd; [|exact Hwf].
  simpl; auto using nodup_keys_set, wf_dict_nodup.
Qed.

(** ** The final strip *)

Lemma strip_key_ok (t r : json) (k : str) :
  top_nodup t = true -> strip_key t k = Ok r ->
  top_nodup r = true
  /\ py_contains k r = Ok false
  /\ (forall k', k' <> k -> py_getitem r k' = py_getitem t k')
  /\ (forall k', py_contains k' t = Ok false -> py_contains k' r = Ok false).
Proof.
  destruct t as [| | | | | |d]; try discriminate; simpl.
  unfold strip_key; simpl; intros Hn.
  destruct (dict_mem k d) eqn:Hm; simpl; rewrite ?Hm.
  - intros [= <-]; simpl; unfold dict_mem.
    rewrite dict_lookup_del_same by assumption.
    repeat split; auto using nodup_keys_del.
    + intros k' Hne; rewrite dict_lookup_del_other by congruence; reflexivity.
    + intros k'; destruct (str_eqb k k') eqn:E.
      * apply str_eqb_spec in E; subst k'.
        rewrite dict_lookup_del_same by assumption; reflexivity.
      * rewrite dict_lookup_del_other; auto.
        intros ->; rewrite str_eqb_refl in E; discriminate.
  - intros [= <-]; simpl; rewrite Hm; auto.
Qed.

Lemma strip_bookkeeping_ok (t r : json) :
  top_nodup t = true -> strip_bookkeeping t = Ok r ->
  py_contains (u "x-readme-fauxas") r = Ok false
  /\ py_contains (u "_id") r = Ok false
  /\ forall k, k <> u "x-readme-fauxas" -> k <> u "_id" ->
               py_getitem r k = py_getitem t k.
Proof.
  unfold strip_bookkeeping, bookkeeping_keys; simpl; intros Hn H.
  apply bind_ok in H as (t1 & H1 & H).
  apply bind_ok in H as (t2 & H2 & H); injection H as <-.
  eapply strip_key_ok in H1 as (Hn1 & Hc1 & Hg1 & _); [|exact Hn].
  eapply strip_key_ok in H2 as (_ & Hc2 & Hg2 & Hk2); [|exact Hn1].
  repeat split; auto.
  intros k Hk1 Hk2'; rewrite Hg2, Hg1; auto.
Qed.

(** What a run of [main] that returns has gone through. *)
Lemma main_ok (start_url : str) (w w' : world) (t : json) :
  run_main start_url w = (Ok t, w') ->
  exists start_props w1 refs non_reference_pages oas oas' w2,
    fetch start_url w = (Ok start_props, w1)
    /\ collect_non_reference start_props = Ok non_reference_pages
    /\ seed start_props = Ok oas
    /\ run_crawl (make_url_prefix start_url) non_reference_pages refs oas w1
       = (Ok oas', w2)
    /\ strip_bookkeeping oas' = Ok t
    /\ fetch_calls w' = fetch_calls w2.
Proof.
  unfold run_main, main; intros H.
  apply bindM_ok in H as (start_props & w1 & Hf & H).
  apply bindM_ok in H as (refs & w2 & Hr & H).
  apply lift_ok in Hr as [_ ->].
  apply bindM_ok in H as (nrp & w2 & Hn & H).
  apply lift_ok in Hn as [Hn ->].
  apply bindM_ok in H as (oas & w2 & Hs & H).
  apply lift_ok in Hs as [Hs ->].
  apply bindM_ok in H as (refs' & w2 & Hi & H).
  apply lift_ok in Hi as [_ ->].
  apply bindM_ok in H as (oas' & w2 & Hc & H).
  apply bindM_ok in H as (final & w3 & Hst & H).
  apply lift_ok in Hst as [Hst ->].
  injection H as <- <-.
  exists start_props, w1, refs', nrp, oas, oas', w2; repeat split; auto.
Qed.

(** C9.  The tree a finished run of [main] hands to [json.dump] has
    neither the key "x-readme-fauxas" nor the key "_id", whatever the
    start fragment and the merged fragments carried. *)
Theorem final_tree_has_no_bookkeeping_keys
  (start_url : str) (w w' : world) (t : json) :
  run_main start_url w = (Ok t, w') ->
  py_contains (u "x-readme-fauxas") t = Ok false
  /\ py_contains (u "_id") t = Ok false.
Proof.
  intros H.
  apply main_ok in H
    as (sp & w1 & refs & nrp & oas & oas' & w2 & Hf & _ & Hs & Hc & Hst & _).
  apply fetch_wf in Hf.
  eapply seed_top_nodup in Hs; [|exact Hf].
  apply (crawl_invariant (fun x => top_nodup x = true)) in Hc;
    [|intros; eapply merge_top_nodup; eassumption | assumption].
  eapply strip_bookkeeping_ok in Hst as (H1 & H2 & _); auto.
Qed.

(** C8.  The accumulating result is a dict with a "paths" and a
    "components" section, both dicts, from the moment it is seeded from
    the start fragment (which succeeds whenever that fragment is a dict),
    and every merge, every page of the crawl and the whole crawl keep it
    so. *)
Theorem result_always_has_both_sections :
  (forall (start_props : json) (d : dict),
      py_getitem start_props k_oasDefinition = Ok (JObj d) ->
      exists r, seed start_props = Ok r /\ has_sections r = true)
  /\ (forall base new r : json,
         has_sections base = true ->
         merge_oas_definitions base new = Ok r -> has_sections r = true)
  /\ (forall (url_prefix : str) (non_reference_pages : list json)
             (oas page r : json) (w w' : world),
         has_sections oas = true ->
         page_step url_prefix non_reference_pages oas page w = (Ok r, w') ->
         has_sections r = true)
  /\ (forall (url_prefix : str) (non_reference_pages refs : list json)
             (oas r : json) (w w' : world),
         has_sections oas = true ->
         run_crawl url_prefix non_reference_pages refs oas w = (Ok r, w') ->
         has_sections r = true).
Proof.
  repeat split.
  - intros start_props d H.
    assert (Hs : seed start_props
                 = Ok (JObj (dict_set k_components (JObj [])
                               (dict_set k_paths (JObj []) d))))
      by (unfold seed; rewrite H; reflexivity).
    eexists; split; [exact Hs|]; eapply seed_has_sections; exact Hs.
  - apply merge_has_sections.
  - intros url_prefix nrp oas page r w w' Hs H.
    apply process_page_ok in H
      as [->|(slug & props & frag & _ & _ & _ & _ & H)];
      eauto using merge_has_sections.
  - intros url_prefix nrp refs oas r w w' Hs H.
    eapply (crawl_invariant (fun x => has_sections x = true)); eauto.
    intros; eapply merge_has_sections; eassumption.
Qed.

(** ** Where the entries of the final tree come from *)










(** ** Pages that fail and pages that are skipped *)

Lemma for_eachM_app {A S} (body : S -> A -> M S) (l1 l2 : list A) (s : S)
  (w : world) :
  for_eachM body (l1 ++ l2) s w =
  match for_eachM body l1 s w with
  | (Ok s1, w1) => for_eachM body l2 s1 w1
  | (Raise e, w1) => (Raise e, w1)
  end.
Proof.
  revert s w; induction l1 as [|a l1 IH]; intros s w; simpl; [reflexivity|].
  unfold bindM.
  destruct (body s a w) as [[s1|e] w1]; [apply IH | reflexivity].
Qed.

Lemma fetch_marker_missing (url : str) (w : world) (text : str) :
  file_exists (not_found_file sha256_hexdigest url) w = false ->
  file_read (cache_file sha256_hexdigest url) (files w) = None ->
  requests_get (requests w) url = Response 200 text ->
  find tag_needle text 0 = None ->
  exists w',
    fetch url w = (Raise (AssertionError (tag_needle ++ u " not found")), w').
Proof.
  unfold not_found_file, cache_file; intros Hnf Hc Hr Hfind.
  unfold fetch, fetch_ssr_props.
  cbn [files requests log_fetch_call].
  change (file_exists ?p (log_fetch_call url w)) with (file_exists p w).
  rewrite Hnf, Hc, Hr; cbn [Z.eqb negb Pos.eqb].
  unfold extract_props; rewrite Hfind; eauto.
Qed.

Lemma fetch_recovery_incomplete (url : str) (w : world)
  (text data_json : str) (data : dict) (tag_start attr_start : nat) :
  file_exists (not_found_file sha256_hexdigest url) w = false ->
  file_read (cache_file sha256_hexdigest url) (files w) = None ->
  requests_get (requests w) url = Response 200 text ->
  find tag_needle text 0 = Some tag_start ->
  find attr_needle text (tag_start + List.length tag_needle)
  = Some attr_start ->
  find [ch_quote] text (attr_start + List.length attr_needle) = None ->
  soup_find_ssr_props (text ++ q "'></script>") = Attribute data_json ->
  parse_truncated_json data_json = Ok data ->
  dict_mem k_oasDefinition data = false ->
  exists w',
    fetch url w
    = (Raise (AssertionError (u "truncated JSON missing oasDefinition")), w').
Proof.
  unfold not_found_file, cache_file; intros Hnf Hc Hr Ht Ha Hq Hs Hp Hm.
  unfold fetch, fetch_ssr_props.
  cbn [files requests log_fetch_call].
  change (file_exists ?p (log_fetch_call url w)) with (file_exists p w).
  rewrite Hnf, Hc, Hr; cbn [Z.eqb negb Pos.eqb].
  unfold extract_props; rewrite Ht, Ha, Hq, Hs, Hp; cbn [bind].
  rewrite Hm; cbn [assert_ bind]; eauto.
Qed.

Lemma process_page_fetch_raises (url_prefix : str)
  (non_reference_pages : list json) (oas page title : json) (slug : str)
  (w w' : world) (e : exn) :
  py_getitem page (u "slug") = Ok (JStr slug) ->
  set_contains (JStr slug) non_reference_pages = Ok false ->
  py_getitem page (u "title") = Ok title ->
  fetch (url_prefix ++ slug) w = (Raise e, w') ->
  page_step url_prefix non_reference_pages oas page w = (Raise e, w').
Proof.
  intros Hs Hn Ht Hf.
  unfold page_step, process_page, print_page, bindM, lift.
  rewrite Hs, Hn, Ht; cbn [bind py_concat].
  unfold fetch in Hf; rewrite Hf; reflexivity.
Qed.

Lemma process_page_skips (url_prefix : str)
  (non_reference_pages : list json) (oas page title props : json)
  (slug : str) (w w' : world) :
  py_getitem page (u "slug") = Ok (JStr slug) ->
  set_contains (JStr slug) non_reference_pages = Ok false ->
  py_getitem page (u "title") = Ok title ->
  fetch (url_prefix ++ slug) w = (Ok props, w') ->
  nothing_to_merge props ->
  page_step url_prefix non_reference_pages oas page w = (Ok oas, w').
Proof.
  intros Hs Hn Ht Hf Hnone.
  unfold page_step, process_page, print_page, bindM, lift.
  rewrite Hs, Hn, Ht; cbn [bind py_concat].
  unfold fetch in Hf; rewrite Hf.
  destruct Hnone as [->|[Hc|(frag & Hc & Hg & Hfalse)]]; [reflexivity| |].
  - destruct props; try reflexivity; rewrite Hc; reflexivity.
  - destruct props; try reflexivity; rewrite Hc; cbn [negb]; rewrite Hg, Hfalse;
      reflexivity.
Qed.

Lemma main_raises_in_crawl (start_url : str) (w w1 w2 w3 : world)
  (start_props sidebars refs pages : json)
  (non_reference_pages before after page_list : list json)
  (oas oas1 ref : json) (e : exn) :
  fetch start_url w = (Ok start_props, w1) ->
  py_getitem start_props (u "sidebars") = Ok sidebars ->
  py_getitem sidebars (u "refs") = Ok refs ->
  collect_non_reference start_props = Ok non_reference_pages ->
  seed start_props = Ok oas ->
  py_iter refs = Ok (before ++ ref :: after) ->
  run_crawl (make_url_prefix start_url) non_reference_pages before oas w1
  = (Ok oas1, w2) ->
  py_getitem ref (u "pages") = Ok pages ->
  py_iter pages = Ok page_list ->
  for_eachM (page_step (make_url_prefix start_url) non_reference_pages)
    page_list oas1 w2 = (Raise e, w3) ->
  run_main start_url w = (Raise e, w3).
Proof.
  intros Hf Hsb Hr Hn Hs Hi Hb Hp Hpi Hloop.
  unfold run_main, main, bindM, lift.
  unfold fetch in Hf; rewrite Hf, Hsb; cbn [bind]; rewrite Hr, Hn, Hs, Hi.
  unfold crawl; rewrite for_eachM_app.
  unfold run_crawl, crawl in Hb; rewrite Hb.
  simpl for_eachM; unfold bindM at 1.
  unfold process_ref, bindM, lift; rewrite Hp, Hpi.
  unfold page_step in Hloop; rewrite Hloop; reflexivity.
Qed.

(** C2, as the code has it.  A page served without the payload marker,
    and a page whose recovered payload lacks "oasDefinition", make
    [fetch_ssr_props] raise [AssertionError].  Nothing catches it: the
    loop over the pages ends with that exception at that page, and so
    does the run of [main].  The pages that are skipped, the crawl going
    on with the next one, are those whose fetch returns [None] or whose
    payload has no usable "oasDefinition". *)
Theorem page_failures_abort_and_empty_pages_are_skipped :
  (forall (url : str) (w : world) (text : str),
      file_exists (not_found_file sha256_hexdigest url) w = false ->
      file_read (cache_file sha256_hexdigest url) (files w) = None ->
      requests_get (requests w) url = Response 200 text ->
      find tag_needle text 0 = None ->
      exists w',
        fetch url w
        = (Raise (AssertionError (tag_needle ++ u " not found")), w'))
  /\ (forall (url : str) (w : world) (text data_json : str) (data : dict)
             (tag_start attr_start : nat),
         file_exists (not_found_file sha256_hexdigest url) w = false ->
         file_read (cache_file sha256_hexdigest url) (files w) = None ->
         requests_get (requests w) url = Response 200 text ->
         find tag_needle text 0 = Some tag_start ->
         find attr_needle text (tag_start + List.length tag_needle)
         = Some attr_start ->
         find [ch_quote] text (attr_start + List.length attr_needle) = None ->
         soup_find_ssr_props (text ++ q "'></script>") = Attribute data_json ->
         parse_truncated_json data_json = Ok data ->
         dict_mem k_oasDefinition data = false ->
         exists w',
           fetch url w
           = (Raise (AssertionError
                       (u "truncated JSON missing oasDefinition")), w'))
  /\ (forall (url_prefix : str) (non_reference_pages before after : list json)
             (oas oas1 page title : json) (slug : str) (w w1 w2 : world)
             (e : exn),
         for_eachM (page_step url_prefix non_reference_pages) before oas w
         = (Ok oas1, w1) ->
         py_getitem page (u "slug") = Ok (JStr slug) ->
         set_contains (JStr slug) non_reference_pages = Ok false ->
         py_getitem page (u "title") = Ok title ->
         fetch (url_prefix ++ slug) w1 = (Raise e, w2) ->
         for_eachM (page_step url_prefix non_reference_pages)
           (before ++ page :: after) oas w = (Raise e, w2))
  /\ (forall (start_url : str) (w w1 w2 w3 : world)
             (start_props sidebars refs pages : json)
             (non_reference_pages before after page_list : list json)
             (oas oas1 ref : json) (e : exn),
         fetch start_url w = (Ok start_props, w1) ->
         py_getitem start_props (u "sidebars") = Ok sidebars ->
         py_getitem sidebars (u "refs") = Ok refs ->
         collect_non_reference start_props = Ok non_reference_pages ->
         seed start_props = Ok oas ->
         py_iter refs = Ok (before ++ ref :: after) ->
         run_crawl (make_url_prefix start_url) non_reference_pages before
           oas w1 = (Ok oas1, w2) ->
         py_getitem ref (u "pages") = Ok pages ->
         py_iter pages = Ok page_list ->
         for_eachM (page_step (make_url_prefix start_url) non_reference_pages)
           page_list oas1 w2 = (Raise e, w3) ->
         run_main start_url w = (Raise e, w3))
  /\ (forall (url_prefix : str) (non_reference_pages before after : list json)
             (oas oas1 page title props : json) (slug : str)
             (w w1 w2 : world),
         for_eachM (page_step url_prefix non_reference_pages) before oas w
         = (Ok oas1, w1) ->
         py_getitem page (u "slug") = Ok (JStr slug) ->
         set_contains (JStr slug) non_reference_pages = Ok false ->
         py_getitem page (u "title") = Ok title ->
         fetch (url_prefix ++ slug) w1 = (Ok props, w2) ->
         nothing_to_merge props ->
         for_eachM (page_step url_prefix non_reference_pages)
           (before ++ page :: after) oas w
         = for_eachM (page_step url_prefix non_reference_pages) after oas1 w2).
Proof.
  split; [exact fetch_marker_missing|].
  split; [exact fetch_recovery_incomplete|].
  split; [|split; [exact main_raises_in_crawl|]].
  - intros url_prefix nrp before after oas oas1 page title slug w w1 w2 e
      Hb Hs Hn Ht Hf.
    rewrite for_eachM_app, Hb; simpl for_eachM; unfold bindM at 1.
    erewrite process_page_fetch_raises by eassumption; reflexivity.
  - intros url_prefix nrp before after oas oas1 page title props slug w w1 w2
      Hb Hs Hn Ht Hf Hnone.
    rewrite for_eachM_app, Hb; simpl for_eachM; unfold bindM at 1.
    erewrite process_page_skips by eassumption; reflexivity.
Qed.

End Crawl.

(* ================================================================== *)
(** * The statements on the example data *)
(* ================================================================== *)


(** C2 fails as stated.  On site B the page broken is served without the
    payload marker; on site C the recovery of the page cut yields a
    mapping without "oasDefinition".  Both runs end with
    [AssertionError], and the page pets, listed after the failing page, is
    never fetched. *)
Lemma failing_page_aborts_the_crawl :
  site_B [ex_start_url] (ex_page_url "broken")
  = Response 200 (u "<html><body>Service unavailable</body></html>")
  /\ find tag_needle (u "<html><body>Service unavailable</body></html>") 0
     = None
  /\ fst (run_site site_B)
     = Raise (AssertionError (tag_needle ++ u " not found"))
  /\ fetch_calls (snd (run_site site_B))
     = [ex_start_url; ex_page_url "broken"]
  /\ parse_truncated_json cut_payload = Ok [(u "title", JStr (u "Cut"))]
  /\ fst (run_site site_C)
     = Raise (AssertionError (u "truncated JSON missing oasDefinition"))
  /\ fetch_calls (snd (run_site site_C))
     = [ex_start_url; ex_page_url "cut"].
Proof. vm_compute; repeat split; reflexivity. Qed.


Lemma page_failures_witness :
  (exists w',
      ex_fetch site_B (ex_page_url "broken") (after_start site_B)
      = (Raise (AssertionError (tag_needle ++ u " not found")), w'))
  /\ (exists w',
         ex_fetch site_C (ex_page_url "cut") (after_start site_C)
         = (Raise (AssertionError (u "truncated JSON missing oasDefinition")),
            w'))
  /\ for_eachM
       (process_page ex_sha256 site_B ex_soup ex_dumps
          (make_url_prefix ex_start_url) (non_reference_of site_B))
       ([] ++ nav_page "broken" "Broken" :: [nav_page "pets" "Pets"])
       (seed_of site_B) (after_start site_B)
     = (Raise (AssertionError (tag_needle ++ u " not found")),
        snd (ex_fetch site_B (ex_page_url "broken") (after_start site_B))).
Proof.
  pose proof (@page_failures_abort_and_empty_pages_are_skipped
                ex_sha256 site_B ex_soup ex_dumps) as (HB1 & _ & HB3 & _).
  pose proof (@page_failures_abort_and_empty_pages_are_skipped
                ex_sha256 site_C ex_soup ex_dumps) as (_ & HC2 & _).
  split; [|split].
  - apply (HB1 (ex_page_url "broken") (after_start site_B)
             (u "<html><body>Service unavailable</body></html>"));
      vm_compute; reflexivity.
  - apply (HC2 (ex_page_url "cut") (after_start site_C)
             (html_cut cut_payload) cut_payload
             [(u "title", JStr (u "Cut"))] 20 35);
      vm_compute; reflexivity.
  - apply (HB3 (make_url_prefix ex_start_url) (non_reference_of site_B)
             [] [nav_page "pets" "Pets"] (seed_of site_B) (seed_of site_B)
             (nav_page "broken" "Broken") (JStr (u "Broken")) (u "broken")
             (after_start site_B) (after_start site_B)
             (snd (ex_fetch site_B (ex_page_url "broken")
                     (after_start site_B)))
             (AssertionError (tag_needle ++ u " not found")));
      vm_compute; reflexivity.
Defined.


Lemma last_fragment_wins_per_method_witness :
  exists r P' T',
    merge_oas_definitions tree_with_A fragment_B = Ok r
    /\ section_of k_paths r = Some P'
    /\ dict_lookup (u "/x") P' = Some (JObj T')
    /\ forall method : str,
         dict_lookup method T' =
         match dict_lookup method
                 [(u "get", JObj [(u "summary", JStr (u "new"))])] with
         | Some operation => Some operation
         | None =>
             dict_lookup method
               [(u "get", JObj [(u "summary", JStr (u "old"))])]
         end.
Proof.
  eapply (proj1 last_fragment_wins_per_method tree_with_A fragment_B);
    vm_compute; reflexivity.
Defined.


Lemma result_always_has_both_sections_witness :
  (exists r, seed (start_props_of site_A) = Ok r /\ has_sections r = true)
  /\ has_sections tree_with_A = true
  /\ merge_oas_definitions tree_with_A fragment_C
     = Ok (merged_tree tree_with_A fragment_C)
  /\ has_sections (merged_tree tree_with_A fragment_C) = true.
Proof.
  pose proof (@result_always_has_both_sections
                ex_sha256 site_A ex_soup ex_dumps) as (H1 & H2 & _).
  split; [eapply H1; vm_compute; reflexivity|].
  split; [reflexivity|].
  split; [vm_compute; reflexivity|].
  eapply (H2 tree_with_A fragment_C); vm_compute; reflexivity.
Defined.

Lemma final_tree_has_no_bookkeeping_keys_witness :
  run_site site_A = (Ok site_A_tree, snd (run_site site_A))
  /\ py_contains (u "x-readme-fauxas") site_A_tree = Ok false
  /\ py_contains (u "_id") site_A_tree = Ok false.
Proof.
  assert (H : run_site site_A = (Ok site_A_tree, snd (run_site site_A)))
    by (vm_compute; reflexivity).
  split; [exact H|].
  exact (@final_tree_has_no_bookkeeping_keys
           ex_sha256 site_A ex_soup ex_dumps ex_start_url empty_world
           (snd (run_site site_A)) site_A_tree H).
Defined.


(* ================================================================== *)
(** * More about the recovery parser *)
(* ================================================================== *)

Lemma scan_char_scalar (st : scanner) (c : char) :
  scalar_char c = true ->
  pairs (scan_char st c) = pairs st
  /\ brace_count (scan_char st c) = brace_count st
  /\ bracket_count (scan_char st c) = bracket_count st
  /\ current_pair (scan_char st c) = current_pair st ++ [c].
Proof.
  unfold scalar_char; rewrite negb_true_iff, !orb_false_iff.
  intros ((((H1 & H2) & H3) & H4) & H5).
  unfold scan_char; rewrite H1, H2, H3, H4, H5.
  repeat match goal with
         | |- context [if ?b then _ else _] => destruct b; simpl
         end; auto.
Qed.

Lemma scan_scalar_text (text : str) :
  forallb scalar_char text = true ->
  forall st,
    pairs (fold_left scan_char text st) = pairs st
    /\ brace_count (fold_left scan_char text st) = brace_count st
    /\ bracket_count (fold_left scan_char text st) = bracket_count st
    /\ current_pair (fold_left scan_char text st) = current_pair st ++ text.
Proof.
  induction text as [|c text IH]; intros Hall st; simpl.
  - rewrite app_nil_r; auto.
  - simpl in Hall; apply andb_true_iff in Hall as [Hc Hall].
    destruct (@scan_char_scalar st c Hc) as (Hp & Hb & Hk & Hcur).
    destruct (IH Hall (scan_char st c)) as (Hp' & Hb' & Hk' & Hcur').
    rewrite Hp', Hb', Hk', Hcur', Hp, Hb, Hk, Hcur, <- app_assoc; auto.
Qed.

(** X1.  On a text without braces, brackets and commas, a single scalar
    entry, the scanner gives exactly one entry, the trimmed text, if the
    text has a colon and is not blank, and no entry otherwise. *)
Theorem scanner_single_entry (text : str) :
  forallb scalar_char text = true ->
  scan_pairs text =
  if negb (blank (strip text)) && char_in ch_colon text
  then [strip text] else [].
Proof.
  intros Hall.
  destruct (@scan_scalar_text text Hall scanner_init) as (Hp & Hb & Hk & Hcur).
  unfold scan_pairs; rewrite Hp, Hb, Hk, Hcur; simpl.
  rewrite !andb_true_r.
  destruct (strip text); reflexivity.
Qed.

Lemma scanner_single_entry_witness :
  forallb scalar_char (q "  'name' : 'a b'  ") = true
  /\ scan_pairs (q "  'name' : 'a b'  ") = [q "'name' : 'a b'"].
Proof.
  split; [reflexivity|].
  rewrite (@scanner_single_entry (q "  'name' : 'a b'  ") eq_refl).
  vm_compute; reflexivity.
Defined.

(** X2.  Inside a quoted string no character changes the depth counters
    or ends an entry: whatever the character, it is added to the current
    entry. *)
Theorem scanner_inside_string (st : scanner) (c : char) :
  in_string st = true ->
  pairs (scan_char st c) = pairs st
  /\ brace_count (scan_char st c) = brace_count st
  /\ bracket_count (scan_char st c) = bracket_count st
  /\ current_pair (scan_char st c) = current_pair st ++ [c].
Proof.
  intros Hin; unfold scan_char; rewrite Hin.
  destruct (escape_next st); simpl; auto.
  rewrite andb_true_r.
  destruct (c =? ch_backslash)%N eqn:Hb; simpl; auto.
  rewrite andb_true_r.
  destruct (c =? ch_quote)%N eqn:Hq; simpl; auto.
  apply N.eqb_eq in Hq; subst c; simpl; auto.
Qed.

Lemma scanner_inside_string_witness :
  in_string (scanner_after (q "'a':'x")) = true
  /\ pairs (scan_char (scanner_after (q "'a':'x")) ch_comma) = []
  /\ brace_count (scan_char (scanner_after (q "'a':'x")) ch_comma) = 0%Z
  /\ bracket_count (scan_char (scanner_after (q "'a':'x")) ch_comma) = 0%Z
  /\ current_pair (scan_char (scanner_after (q "'a':'x")) ch_comma)
     = q "'a':'x,".
Proof.
  split; [reflexivity|].
  exact (@scanner_inside_string (scanner_after (q "'a':'x")) ch_comma eq_refl).
Defined.

Lemma char_in_lstrip (c : char) (s : str) :
  is_space c = false -> char_in c (lstrip s) = char_in c s.
Proof.
  intros Hc; induction s as [|x s IH]; [reflexivity|].
  simpl lstrip; destruct (is_space x) eqn:Hx; [|reflexivity].
  rewrite IH; unfold char_in; simpl.
  destruct (c =? x)%N eqn:E; [|reflexivity].
  apply N.eqb_eq in E; subst x; congruence.
Qed.

Lemma char_in_rev (c : char) (s : str) : char_in c (rev s) = char_in c s.
Proof.
  unfold char_in; destruct (existsb (N.eqb c) s) eqn:E.
  - apply existsb_exists in E as (x & Hx & E).
    apply existsb_exists; exists x; split; [apply in_rev in Hx|]; auto.
  - destruct (existsb (N.eqb c) (rev s)) eqn:E'; [|reflexivity].
    apply existsb_exists in E' as (x & Hx & E').
    apply in_rev in Hx.
    assert (existsb (N.eqb c) s = true) by (apply existsb_exists; eauto).
    congruence.
Qed.

Lemma char_in_strip (c : char) (s : str) :
  is_space c = false -> char_in c (strip s) = char_in c s.
Proof.
  intros Hc; unfold strip, rstrip.
  rewrite char_in_rev, char_in_lstrip, char_in_rev, char_in_lstrip; auto.
Qed.

Lemma scan_char_pairs_have_colon (st : scanner) (c : char) :
  forallb (char_in ch_colon) (pairs st) = true ->
  forallb (char_in ch_colon) (pairs (scan_char st c)) = true.
Proof.
  intros H; unfold scan_char.
  repeat match goal with
         | |- context [if ?b then _ else _] =>
             let E := fresh "E" in destruct b eqn:E; simpl
         end; auto.
  rewrite forallb_app, H; simpl; rewrite andb_true_r; assumption.
Qed.

(** X3.  Every candidate entry the scanner hands over contains a colon;
    a piece of text between two top-level commas without one is
    dropped. *)
Theorem scanner_entries_have_a_colon (content : str) :
  forallb (char_in ch_colon) (scan_pairs content) = true.
Proof.
  assert (H : forall text st,
             forallb (char_in ch_colon) (pairs st) = true ->
             forallb (char_in ch_colon) (pairs (fold_left scan_char text st))
             = true).
  { induction text as [|c text IH]; intros st Hst; simpl; [assumption|].
    apply IH, scan_char_pairs_have_colon, Hst. }
  specialize (H content scanner_init eq_refl).
  unfold scan_pairs.
  destruct (_ && _ && _ && _)%bool eqn:E; [|exact H].
  rewrite forallb_app, H; simpl.
  rewrite char_in_strip by reflexivity.
  apply andb_true_iff in E as [E _].
  apply andb_true_iff in E as [E _].
  apply andb_true_iff in E as [_ E]; rewrite E; reflexivity.
Qed.

Lemma lstrip_spaces (s : str) : forallb is_space s = true -> lstrip s = [].
Proof.
  induction s as [|c s IH]; simpl; [reflexivity|].
  rewrite andb_true_iff; intros [Hc Hs]; rewrite Hc; auto.
Qed.

Lemma strip_spaces (s : str) : forallb is_space s = true -> strip s = [].
Proof. intros H; unfold strip; rewrite lstrip_spaces by exact H; reflexivity. Qed.

Lemma space_is_scalar (c : char) : is_space c = true -> scalar_char c = true.
Proof.
  unfold scalar_char; intros H.
  destruct ((c =? ch_lbrace) || (c =? ch_rbrace) || (c =? ch_lbracket)
            || (c =? ch_rbracket) || (c =? ch_comma))%N eqn:E; [|reflexivity].
  rewrite !orb_true_iff, !N.eqb_eq in E.
  destruct E as [[[[-> | ->] | ->] | ->] | ->]; discriminate H.
Qed.

(** X4.  A payload with nothing between its braces gives the empty
    mapping: the empty text, a blank text, a lone brace, a pair of braces
    around blanks. *)
Theorem recovery_of_an_empty_payload (json_str : str) :
  forallb is_space (strip_braces json_str) = true ->
  parse_truncated_json json_str = Ok [].
Proof.
  intros H; unfold parse_truncated_json.
  assert (Hs : forallb scalar_char (strip_braces json_str) = true).
  { apply forallb_forall; intros c Hc.
    rewrite forallb_forall in H; apply space_is_scalar, H, Hc. }
  destruct (@scan_scalar_text _ Hs scanner_init) as (Hp & Hb & Hk & Hcur).
  unfold scan_pairs; rewrite Hp, Hcur; simpl.
  rewrite strip_spaces by exact H; reflexivity.
Qed.

Lemma recovery_of_an_empty_payload_witness :
  forallb is_space (strip_braces (u " { } ")) = true
  /\ parse_truncated_json (u " { } ") = Ok [].
Proof.
  split; [reflexivity|].
  exact (@recovery_of_an_empty_payload (u " { } ") eq_refl).
Defined.

Lemma lstrip_nonspace (c : char) (s : str) :
  is_space c = false -> lstrip (c :: s) = c :: s.
Proof. intros H; simpl; rewrite H; reflexivity. Qed.

Lemma lstrip_app_spaces (ws s : str) :
  forallb is_space ws = true -> lstrip (ws ++ s) = lstrip s.
Proof.
  induction ws as [|c ws IH]; simpl; [reflexivity|].
  rewrite andb_true_iff; intros [Hc Hs]; rewrite Hc; auto.
Qed.

Lemma rstrip_app_spaces (s ws : str) :
  forallb is_space ws = true -> rstrip (s ++ ws) = rstrip s.
Proof.
  intros H; unfold rstrip; rewrite rev_app_distr, lstrip_app_spaces; auto.
  rewrite forallb_forall in *; intros x Hx; apply H, in_rev, Hx.
Qed.

Lemma rstrip_last_nonspace (s : str) (d : char) :
  is_space d = false -> rstrip (s ++ [d]) = s ++ [d].
Proof.
  intros H; unfold rstrip; rewrite rev_app_distr; simpl app.
  rewrite lstrip_nonspace by exact H.
  simpl rev; rewrite rev_involutive; reflexivity.
Qed.

(** X5.  The outer braces are taken off, with the blanks around them,
    and nothing else: a text wrapped in a pair of braces, blanks before
    and after, gives back the text. *)
Theorem strip_braces_unwraps (before content after : str) :
  forallb is_space before = true -> forallb is_space after = true ->
  strip_braces (before ++ [ch_lbrace] ++ content ++ [ch_rbrace] ++ after)
  = content.
Proof.
  intros Hb Ha.
  assert (Hs : strip (before ++ [ch_lbrace] ++ content ++ [ch_rbrace] ++ after)
               = ch_lbrace :: content ++ [ch_rbrace]).
  { unfold strip.
    rewrite lstrip_app_spaces by exact Hb.
    simpl app at 1; rewrite lstrip_nonspace by reflexivity.
    replace (ch_lbrace :: content ++ ch_rbrace :: after)
      with (((ch_lbrace :: content) ++ [ch_rbrace]) ++ after)
      by (simpl; rewrite <- app_assoc; reflexivity).
    rewrite rstrip_app_spaces by exact Ha.
    rewrite rstrip_last_nonspace by reflexivity; reflexivity. }
  unfold strip_braces; rewrite Hs.
  change (startswith [ch_lbrace] (ch_lbrace :: content ++ [ch_rbrace]))
    with true.
  cbv iota; simpl tl.
  unfold endswith; rewrite rev_app_distr; simpl.
  apply removelast_last.
Qed.

Lemma strip_braces_unwraps_witness :
  strip_braces (u "  " ++ [ch_lbrace] ++ q "'a': 1 " ++ [ch_rbrace] ++ u " ")
  = q "'a': 1 ".
Proof.
  exact (@strip_braces_unwraps (u "  ") (q "'a': 1 ") (u " ") eq_refl eq_refl).
Defined.

Lemma scan_char_with_pairs (before : list str) (st : scanner) (c : char) :
  scan_char (with_pairs before st) c = with_pairs before (scan_char st c).
Proof.
  unfold scan_char, with_pairs; simpl.
  repeat match goal with
         | |- context [if ?b then _ else _] => destruct b; simpl
         end; try reflexivity; rewrite ?app_assoc; reflexivity.
Qed.

Lemma scan_text_with_pairs (before : list str) (text : str) (st : scanner) :
  fold_left scan_char text (with_pairs before st)
  = with_pairs before (fold_left scan_char text st).
Proof.
  revert st; induction text as [|c text IH]; intros st; simpl; [reflexivity|].
  rewrite scan_char_with_pairs; apply IH.
Qed.

(** X6.  A comma met at the top level restarts the scanner: when the
    text read so far leaves the scanner outside every string, object and
    array, the entries of the whole text are the entries closed so far,
    the entry the comma closes (kept if it has a colon), and the entries
    of the rest scanned on its own. *)
Theorem scanner_restarts_at_top_level_comma (text rest : str) :
  in_string (scanner_after text) = false ->
  brace_count (scanner_after text) = 0%Z ->
  bracket_count (scanner_after text) = 0%Z ->
  scan_pairs (text ++ [ch_comma] ++ rest)
  = pairs (scanner_after text) ++ closed_entry (scanner_after text)
    ++ scan_pairs rest.
Proof.
  intros Hin Hb Hk.
  assert (Hesc : escape_next (scanner_after text) = false).
  { destruct (escape_next (scanner_after text)) eqn:E; [|reflexivity].
    apply scanner_after_escape_in_string in E; congruence. }
  assert (Hstep : scan_char (scanner_after text) ch_comma
                  = with_pairs (pairs (scanner_after text)
                                ++ closed_entry (scanner_after text))
                               scanner_init).
  { unfold scan_char, with_pairs, closed_entry.
    rewrite Hesc, Hin, Hb, Hk; simpl.
    destruct (char_in ch_colon (strip (current_pair (scanner_after text))));
      rewrite ?app_nil_r; reflexivity. }
  assert (Hall : fold_left scan_char (text ++ [ch_comma] ++ rest) scanner_init
                 = with_pairs (pairs (scanner_after text)
                               ++ closed_entry (scanner_after text))
                              (fold_left scan_char rest scanner_init)).
  { rewrite !fold_left_app; fold (scanner_after text).
    simpl fold_left at 2; rewrite Hstep; apply scan_text_with_pairs. }
  unfold scan_pairs; rewrite Hall; simpl.
  destruct (_ && _ && _ && _)%bool; rewrite <- ?app_assoc; reflexivity.
Qed.

Lemma scanner_restarts_at_top_level_comma_witness :
  in_string (scanner_after (q "'a':[1,'x,y']")) = false
  /\ brace_count (scanner_after (q "'a':[1,'x,y']")) = 0%Z
  /\ bracket_count (scanner_after (q "'a':[1,'x,y']")) = 0%Z
  /\ scan_pairs (q "'a':[1,'x,y']" ++ [ch_comma] ++ q "'b':2,'c':'tr")
     = [q "'a':[1,'x,y']"; q "'b':2"; q "'c':'tr"].
Proof.
  split; [reflexivity|]; split; [reflexivity|]; split; [reflexivity|].
  rewrite (@scanner_restarts_at_top_level_comma
             (q "'a':[1,'x,y']") (q "'b':2,'c':'tr") eq_refl eq_refl eq_refl).
  vm_compute; reflexivity.
Defined.

Lemma parse_pairs_app (ps qs : list str) (result : dict) :
  parse_pairs (ps ++ qs) result
  = (r <- parse_pairs ps result ;; parse_pairs qs r).
Proof.
  revert result; induction ps as [|p ps IH]; intros result; [reflexivity|].
  simpl.
  destruct (parsed <- json_loads (ch_lbrace :: p ++ [ch_rbrace]) ;;
            dict_update_py result parsed) as [r'|[]]; auto.
Qed.

(** X27.  Entries are put into the result in the order of the text, so
    a later entry wins: when the last entry decodes to a mapping, the
    result has every key of that mapping with the value the entry gives
    it, and every other key as the entries before left it. *)
Theorem later_entries_win (ps : list str) (p : str) (result r d : dict) :
  parse_pairs ps result = Ok r ->
  json_loads ([ch_lbrace] ++ p ++ [ch_rbrace]) = Ok (JObj d) ->
  exists r',
    parse_pairs (ps ++ [p]) result = Ok r'
    /\ forall k,
         dict_lookup k r' =
         match dict_lookup k d with
         | Some v => Some v
         | None => dict_lookup k r
         end.
Proof.
  intros Hps Hp.
  exists (dict_update r d); split.
  - rewrite parse_pairs_app, Hps; cbn [bind].
    simpl in Hp |- *; rewrite Hp; reflexivity.
  - intros k; apply dict_lookup_update.
    apply json_loads_wf in Hp.
    apply wf_dict_nodup; exact Hp.
Qed.

Lemma later_entries_win_witness :
  exists r',
    parse_pairs ([q "'a':1"; q "'b':true"] ++ [q "'a':[2]"]) [] = Ok r'
    /\ forall k,
         dict_lookup k r' =
         match dict_lookup k [(u "a", JArr [JInt 2])] with
         | Some v => Some v
         | None => dict_lookup k [(u "a", JInt 1); (u "b", JBool true)]
         end.
Proof.
  refine (@later_entries_win [q "'a':1"; q "'b':true"] (q "'a':[2]") []
            [(u "a", JInt 1); (u "b", JBool true)] [(u "a", JArr [JInt 2])]
            _ _); vm_compute; reflexivity.
Defined.

(* ================================================================== *)
(** * More about merging *)
(* ================================================================== *)

(** X7.  A merge that returns neither adds nor removes a top-level key,
    and leaves the value of every top-level key other than "paths" and
    "components" as it was in the tree merged into: what else the
    fragment has at the top level is ignored. *)
Theorem merge_touches_only_the_two_sections (base new r : json) (k : str) :
  merge_oas_definitions base new = Ok r ->
  py_contains k r = py_contains k base
  /\ (k <> k_paths -> k <> k_components ->
      py_getitem r k = py_getitem base k).
Proof.
  intros H; apply merge_sections_replaced in H as (m & H1 & H2); split.
  - erewrite section_replaced_contains by exact H2.
    eapply section_replaced_contains; exact H1.
  - intros Hp Hc.
    erewrite section_replaced_getitem; [|exact H2|exact Hc].
    eapply section_replaced_getitem; [exact H1|exact Hp].
Qed.

Lemma merge_touches_only_the_two_sections_witness :
  merge_oas_definitions tree_with_Pet fragment_C
  = Ok (merged_tree tree_with_Pet fragment_C)
  /\ py_contains (u "info") (merged_tree tree_with_Pet fragment_C)
     = py_contains (u "info") tree_with_Pet
  /\ (u "info" <> k_paths -> u "info" <> k_components ->
      py_getitem (merged_tree tree_with_Pet fragment_C) (u "info")
      = py_getitem tree_with_Pet (u "info")).
Proof.
  split; [vm_compute; reflexivity|].
  exact (@merge_touches_only_the_two_sections
           tree_with_Pet fragment_C (merged_tree tree_with_Pet fragment_C)
           (u "info") eq_refl).
Defined.

Lemma merge_returns_merged_sections (base new : json) (M P C : dict) :
  base = JObj M ->
  dict_lookup k_paths M = Some (JObj P) ->
  dict_lookup k_components M = Some (JObj C) ->
  paths_shaped (JObj P) = true -> components_shaped (JObj C) = true ->
  oas_fragment new = true ->
  exists r,
    merge_oas_definitions base new = Ok r
    /\ section_of k_paths r
       = Some (merge_all updated P (fragment_section k_paths new))
    /\ section_of k_components r
       = Some (merge_all section_merged C
                 (fragment_section k_components new)).
Proof.
  intros -> HP HC HPs HCs Hn.
  assert (Hb : spec_tree (JObj M) = true)
    by (unfold spec_tree; rewrite HP, HC, HPs, HCs; reflexivity).
  destruct (@merge_refines (JObj M) new Hb Hn) as [H1 _].
  rewrite (@merged_tree_sections (JObj M) new M P C eq_refl HP HC) in H1.
  eexists; split; [exact H1|]; split; unfold section_of.
  - rewrite dict_lookup_set_other by (symmetry; exact k_paths_neq_components).
    rewrite dict_lookup_set_same; reflexivity.
  - rewrite dict_lookup_set_same; reflexivity.
Qed.

Lemma spec_tree_section_of (base : json) :
  spec_tree base = true ->
  exists M P C,
    base = JObj M
    /\ dict_lookup k_paths M = Some (JObj P)
    /\ dict_lookup k_components M = Some (JObj C)
    /\ section_of k_paths base = Some P
    /\ section_of k_components base = Some C
    /\ paths_shaped (JObj P) = true /\ components_shaped (JObj C) = true.
Proof.
  intros Hb.
  apply spec_tree_sections in Hb as (M & P & C & -> & HP & HC & HPs & HCs).
  exists M, P, C; unfold section_of; rewrite HP, HC; auto 10.
Qed.

(** X8.  Paths are merged as a union: on a specification tree and a
    well-shaped fragment, a path the tree did not have gets the method map
    of the fragment as it is, and a path the fragment does not have keeps
    what it had. *)
Theorem merge_adds_new_paths_and_keeps_the_others (base new : json) (P : dict) :
  spec_tree base = true -> oas_fragment new = true ->
  section_of k_paths base = Some P ->
  exists r P',
    merge_oas_definitions base new = Ok r
    /\ section_of k_paths r = Some P'
    /\ (forall path methods,
           dict_lookup path P = None ->
           dict_lookup path (fragment_section k_paths new) = Some methods ->
           dict_lookup path P' = Some methods)
    /\ (forall path,
           dict_lookup path (fragment_section k_paths new) = None ->
           dict_lookup path P' = dict_lookup path P).
Proof.
  intros Hb Hn HbP.
  destruct (oas_fragment_sections _ Hn) as [HNP _].
  apply spec_tree_section_of in Hb
    as (M & P0 & C & -> & HP & HC & HsP & _ & HPs & HCs).
  assert (P0 = P) as -> by congruence.
  destruct (@merge_returns_merged_sections (JObj M) new M P C
              eq_refl HP HC HPs HCs Hn) as (r & Hr & HrP & _).
  exists r, (merge_all updated P (fragment_section k_paths new)).
  split; [exact Hr|]; split; [exact HrP|]; split.
  - intros path methods Hold Hnew.
    rewrite merge_all_lookup by (eapply keyed_nodup; exact HNP).
    rewrite Hnew, Hold; reflexivity.
  - intros path Hnew.
    rewrite merge_all_lookup by (eapply keyed_nodup; exact HNP).
    rewrite Hnew; reflexivity.
Qed.

Lemma merge_adds_new_paths_and_keeps_the_others_witness :
  spec_tree tree_with_A = true /\ oas_fragment fragment_C = true
  /\ section_of k_paths tree_with_A
     = Some [(u "/x",
              JObj [(u "get", JObj [(u "summary", JStr (u "old"))])])]
  /\ exists r P',
      merge_oas_definitions tree_with_A fragment_C = Ok r
      /\ section_of k_paths r = Some P'
      /\ (forall path methods,
             dict_lookup path
               [(u "/x",
                 JObj [(u "get", JObj [(u "summary", JStr (u "old"))])])]
             = None ->
             dict_lookup path (fragment_section k_paths fragment_C)
             = Some methods ->
             dict_lookup path P' = Some methods)
      /\ (forall path,
             dict_lookup path (fragment_section k_paths fragment_C) = None ->
             dict_lookup path P'
             = dict_lookup path
                 [(u "/x",
                   JObj [(u "get", JObj [(u "summary", JStr (u "old"))])])]).
Proof.
  split; [reflexivity|]; split; [reflexivity|]; split; [reflexivity|].
  exact (@merge_adds_new_paths_and_keeps_the_others
           tree_with_A fragment_C
           [(u "/x", JObj [(u "get", JObj [(u "summary", JStr (u "old"))])])]
           eq_refl eq_refl eq_refl).
Defined.

(** X9.  Components are merged field by field: when the tree and the
    fragment both have the component [name] in the category [section],
    the merged definition gives every field of the fragment's definition
    the value the fragment has for it, and every other field the value it
    had. *)
Theorem components_merge_field_by_field
  (base new : json) (C NC So Sn T I : dict) (section name : str) :
  spec_tree base = true -> oas_fragment new = true ->
  section_of k_components base = Some C ->
  dict_lookup section C = Some (JObj So) ->
  dict_lookup name So = Some (JObj T) ->
  section_of k_components new = Some NC ->
  dict_lookup section NC = Some (JObj Sn) ->
  dict_lookup name Sn = Some (JObj I) ->
  exists r C' S' T',
    merge_oas_definitions base new = Ok r
    /\ section_of k_components r = Some C'
    /\ dict_lookup section C' = Some (JObj S')
    /\ dict_lookup name S' = Some (JObj T')
    /\ forall field : str,
         dict_lookup field T' =
         match dict_lookup field I with
         | Some v => Some v
         | None => dict_lookup field T
         end.
Proof.
  intros Hb Hn HbC HSo HT HnC HSn HI.
  destruct (oas_fragment_sections _ Hn) as [_ HNC].
  apply spec_tree_section_of in Hb
    as (M & P & C0 & -> & HP & HC & _ & HsC & HPs & HCs).
  assert (C0 = C) as -> by congruence.
  destruct (@merge_returns_merged_sections (JObj M) new M P C
              eq_refl HP HC HPs HCs Hn) as (r & Hr & _ & HrC).
  assert (Hfs : fragment_section k_components new = NC)
    by (unfold fragment_section; rewrite HnC; reflexivity).
  rewrite Hfs in *.
  pose proof (keyed_lookup _ _ _ HNC HSn) as HSns.
  pose proof (keyed_lookup _ _ _ HSns HI) as HIs.
  exists r, (merge_all section_merged C NC), (merge_all updated So Sn),
         (dict_update T I).
  split; [exact Hr|]; split; [exact HrC|]; split; [|split].
  - rewrite merge_all_lookup by (eapply keyed_nodup; exact HNC).
    rewrite HSn, HSo; reflexivity.
  - rewrite merge_all_lookup by (eapply keyed_nodup; exact HSns).
    rewrite HI, HT; reflexivity.
  - intros field; apply dict_lookup_update.
    eapply keyed_nodup; exact HIs.
Qed.

Lemma components_merge_field_by_field_witness :
  exists r C' S' T',
    merge_oas_definitions tree_with_Pet fragment_D = Ok r
    /\ section_of k_components r = Some C'
    /\ dict_lookup (u "schemas") C' = Some (JObj S')
    /\ dict_lookup (u "Pet") S' = Some (JObj T')
    /\ forall field : str,
         dict_lookup field T' =
         match dict_lookup field [(u "type", JStr (u "object"))] with
         | Some v => Some v
         | None => dict_lookup field [(u "type", JStr (u "string"));
                                      (u "title", JStr (u "Pet"))]
         end.
Proof.
  exact (@components_merge_field_by_field
           tree_with_Pet fragment_D
           [(u "schemas",
             JObj [(u "Pet", JObj [(u "type", JStr (u "string"));
                                   (u "title", JStr (u "Pet"))]);
                   (u "Tag", JObj [])])]
           [(u "schemas",
             JObj [(u "Pet", JObj [(u "type", JStr (u "object"))]);
                   (u "Owner", JObj [(u "type", JStr (u "object"))])]);
            (u "responses", JObj [(u "NotFound", JObj [])])]
           [(u "Pet", JObj [(u "type", JStr (u "string"));
                            (u "title", JStr (u "Pet"))]);
            (u "Tag", JObj [])]
           [(u "Pet", JObj [(u "type", JStr (u "object"))]);
            (u "Owner", JObj [(u "type", JStr (u "object"))])]
           [(u "type", JStr (u "string")); (u "title", JStr (u "Pet"))]
           [(u "type", JStr (u "object"))]
           (u "schemas") (u "Pet")
           eq_refl eq_refl eq_refl eq_refl eq_refl eq_refl eq_refl eq_refl).
Defined.

(** X10.  New components are put in as they are: a category the tree did
    not have gets the fragment's category whole; in a category both have,
    a name the tree did not have gets the fragment's definition and a name
    the fragment does not have keeps its own; a category the fragment does
    not have is left alone. *)
Theorem merge_adds_new_components_and_keeps_the_others
  (base new : json) (C : dict) :
  spec_tree base = true -> oas_fragment new = true ->
  section_of k_components base = Some C ->
  exists r C',
    merge_oas_definitions base new = Ok r
    /\ section_of k_components r = Some C'
    /\ (forall section category,
           dict_lookup section C = None ->
           dict_lookup section (fragment_section k_components new)
           = Some category ->
           dict_lookup section C' = Some category)
    /\ (forall section So Sn,
           dict_lookup section C = Some (JObj So) ->
           dict_lookup section (fragment_section k_components new)
           = Some (JObj Sn) ->
           exists S',
             dict_lookup section C' = Some (JObj S')
             /\ (forall name item,
                    dict_lookup name So = None ->
                    dict_lookup name Sn = Some item ->
                    dict_lookup name S' = Some item)
             /\ (forall name,
                    dict_lookup name Sn = None ->
                    dict_lookup name S' = dict_lookup name So))
    /\ (forall section,
           dict_lookup section (fragment_section k_components new) = None ->
           dict_lookup section C' = dict_lookup section C).
Proof.
  intros Hb Hn HbC.
  destruct (oas_fragment_sections _ Hn) as [_ HNC].
  apply spec_tree_section_of in Hb
    as (M & P & C0 & -> & HP & HC & _ & HsC & HPs & HCs).
  assert (C0 = C) as -> by congruence.
  destruct (@merge_returns_merged_sections (JObj M) new M P C
              eq_refl HP HC HPs HCs Hn) as (r & Hr & _ & HrC).
  set (NC := fragment_section k_components new) in *.
  exists r, (merge_all section_merged C NC).
  split; [exact Hr|]; split; [exact HrC|]; split; [|split].
  - intros section category Hold Hnew.
    rewrite merge_all_lookup by (eapply keyed_nodup; exact HNC).
    rewrite Hnew, Hold; reflexivity.
  - intros section So Sn Hold Hnew.
    pose proof (keyed_lookup _ _ _ HNC Hnew) as HSns.
    exists (merge_all updated So Sn); split; [|split].
    + rewrite merge_all_lookup by (eapply keyed_nodup; exact HNC).
      rewrite Hnew, Hold; reflexivity.
    + intros name item Ho Hi.
      rewrite merge_all_lookup by (eapply keyed_nodup; exact HSns).
      rewrite Hi, Ho; reflexivity.
    + intros name Hi.
      rewrite merge_all_lookup by (eapply keyed_nodup; exact HSns).
      rewrite Hi; reflexivity.
  - intros section Hnew.
    rewrite merge_all_lookup by (eapply keyed_nodup; exact HNC).
    rewrite Hnew; reflexivity.
Qed.

Lemma merge_adds_new_components_witness :
  exists r C',
    merge_oas_definitions tree_with_Pet fragment_D = Ok r
    /\ section_of k_components r = Some C'
    /\ dict_lookup (u "responses") C'
       = Some (JObj [(u "NotFound", JObj [])])
    /\ dict_lookup (u "parameters") C' = None.
Proof.
  destruct (@merge_adds_new_components_and_keeps_the_others
              tree_with_Pet fragment_D
              [(u "schemas",
                JObj [(u "Pet", JObj [(u "type", JStr (u "string"));
                                      (u "title", JStr (u "Pet"))]);
                      (u "Tag", JObj [])])]
              eq_refl eq_refl eq_refl) as (r & C' & Hr & HC' & Hnew & _ & Hold).
  exists r, C'; split; [exact Hr|]; split; [exact HC'|]; split.
  - apply Hnew; reflexivity.
  - rewrite Hold; reflexivity.
Defined.

Lemma dict_keys_set_list (k : str) (v : json) (d : dict) :
  dict_keys (dict_set k v d)
  = if dict_mem k d then dict_keys d else dict_keys d ++ [k].
Proof.
  unfold dict_mem, dict_keys; induction d as [|[k' v'] d IH]; simpl;
    [reflexivity|].
  destruct (str_eqb k k') eqn:E; simpl; [reflexivity|].
  rewrite IH; destruct (dict_lookup k d); reflexivity.
Qed.

Lemma merge_all_keys (f : json -> json -> json) (D items : dict) :
  nodup_keys items = true ->
  dict_keys (merge_all f D items) = dict_keys D ++ new_keys D items.
Proof.
  revert D; induction items as [|[k v] items IH]; intros D.
  - intros _; unfold new_keys; simpl; rewrite app_nil_r; reflexivity.
  - simpl nodup_keys; rewrite andb_true_iff, negb_true_iff; intros [Hm Hn].
    rewrite merge_all_cons, IH by exact Hn.
    unfold put_with; simpl fst; simpl snd.
    rewrite dict_keys_set_list.
    assert (Hsame : new_keys
                      (dict_set k
                         match dict_lookup k D with
                         | Some old => f old v
                         | None => v
                         end D) items
                    = filter (fun k' => negb (dict_mem k' D))
                        (dict_keys items)).
    { unfold new_keys; apply filter_ext_in; intros k' Hin.
      rewrite dict_mem_set.
      destruct (str_eqb k k') eqn:E; [|reflexivity].
      apply str_eqb_spec in E; subst k'.
      apply dict_mem_In_keys in Hin; congruence. }
    rewrite Hsame; unfold new_keys; simpl.
    destruct (dict_mem k D); simpl; [reflexivity|].
    rewrite <- app_assoc; reflexivity.
Qed.

(** X11.  Merging keeps the order of what is there and puts what is new
    behind it: in the result, the paths (and the categories of
    components) of the tree come first, in the order they had, followed
    by those only the fragment has, in the order of the fragment. *)
Theorem merge_puts_new_keys_last (base new : json) (k : str) :
  k = k_paths \/ k = k_components ->
  spec_tree base = true -> oas_fragment new = true ->
  exists r,
    merge_oas_definitions base new = Ok r
    /\ section_keys k r
       = section_keys k base
         ++ new_keys (fragment_section k base) (fragment_section k new).
Proof.
  intros Hk Hb Hn.
  destruct (oas_fragment_sections _ Hn) as [HNP HNC].
  apply spec_tree_section_of in Hb
    as (M & P & C & -> & HP & HC & HsP & HsC & HPs & HCs).
  destruct (@merge_returns_merged_sections (JObj M) new M P C
              eq_refl HP HC HPs HCs Hn) as (r & Hr & HrP & HrC).
  exists r; split; [exact Hr|].
  unfold section_keys, fragment_section at 1.
  destruct Hk as [-> | ->].
  - rewrite HrP, HsP; apply merge_all_keys; eapply keyed_nodup; exact HNP.
  - rewrite HrC, HsC; apply merge_all_keys; eapply keyed_nodup; exact HNC.
Qed.

Lemma merge_puts_new_keys_last_witness :
  exists r,
    merge_oas_definitions tree_with_Pet fragment_C = Ok r
    /\ section_keys k_paths r = [u "/x"; u "/y"].
Proof.
  exact (@merge_puts_new_keys_last tree_with_Pet fragment_C k_paths
           (or_introl eq_refl) eq_refl eq_refl).
Defined.

(** X12.  Merging a well-shaped fragment into a specification tree
    always returns, and returns a specification tree: both sections are
    there, every path has a method map, every category a map from names
    to definition objects, and no key occurs twice. *)
Theorem merge_keeps_the_shape (base new : json) :
  spec_tree base = true -> oas_fragment new = true ->
  exists r, merge_oas_definitions base new = Ok r /\ spec_tree r = true.
Proof.
  intros Hb Hn; exists (merged_tree base new); apply merge_refines; assumption.
Qed.

Lemma merge_keeps_the_shape_witness :
  exists r,
    merge_oas_definitions tree_with_Pet fragment_D = Ok r
    /\ spec_tree r = true.
Proof.
  exact (@merge_keeps_the_shape tree_with_Pet fragment_D eq_refl eq_refl).
Defined.

(** X13.  The tree merged into must bring its sections: merging a
    fragment with at least one path into a dict without "paths" raises
    KeyError, and so does merging a fragment without paths and with at
    least one category of components into a dict without "components". *)
Theorem merge_into_a_tree_without_sections_raises
  (M F : dict) (entry : str * json) (rest : dict) :
  (dict_lookup k_paths M = None ->
   dict_lookup k_paths F = Some (JObj (entry :: rest)) ->
   merge_oas_definitions (JObj M) (JObj F) = Raise KeyError)
  /\ (dict_lookup k_components M = None ->
      dict_lookup k_paths F = None ->
      dict_lookup k_components F = Some (JObj (entry :: rest)) ->
      merge_oas_definitions (JObj M) (JObj F) = Raise KeyError).
Proof.
  split.
  - intros HM HF; unfold merge_oas_definitions; simpl.
    unfold dict_mem; rewrite HF; simpl.
    destruct entry as [path methods]; simpl; rewrite HM; reflexivity.
  - intros HM HFp HF; unfold merge_oas_definitions; simpl.
    unfold dict_mem; rewrite HFp, HF; simpl.
    unfold merge_section; simpl; rewrite HM; reflexivity.
Qed.

Lemma merge_into_a_tree_without_sections_raises_witness :
  merge_oas_definitions tree_without_paths fragment_A = Raise KeyError.
Proof.
  exact (proj1 (@merge_into_a_tree_without_sections_raises
                  [(k_components, JObj [])]
                  [(k_paths,
                    JObj [(u "/x",
                           JObj [(u "get",
                                  JObj [(u "summary", JStr (u "old"))])])])]
                  (u "/x",
                   JObj [(u "get", JObj [(u "summary", JStr (u "old"))])])
                  [])
               eq_refl eq_refl).
Defined.

(* ================================================================== *)
(** * More about fetching and the run *)
(* ================================================================== *)

Lemma file_read_remove (p p' : str) (fs : list (str * str)) :
  file_read p (file_remove p' fs)
  = if str_eqb p p' then None else file_read p fs.
Proof.
  induction fs as [|[k c] fs IH]; simpl.
  - destruct (str_eqb p p'); reflexivity.
  - destruct (str_eqb p' k) eqn:E'; simpl.
    + rewrite IH; apply str_eqb_spec in E'; subst k.
      destruct (str_eqb p p'); reflexivity.
    + rewrite IH; destruct (str_eqb p k) eqn:E; [|reflexivity].
      apply str_eqb_spec in E; subst k.
      rewrite str_eqb_sym, E'; reflexivity.
Qed.

Lemma file_read_write (p p' c : str) (w : world) :
  file_read p (files (write_file p' c w))
  = if str_eqb p p' then Some c else file_read p (files w).
Proof.
  unfold write_file; simpl.
  destruct (str_eqb p p') eqn:E; [reflexivity|].
  rewrite file_read_remove, E; reflexivity.
Qed.

Lemma file_read_remove_file (p p' : str) (w : world) :
  file_read p (files (remove_file p' w))
  = if str_eqb p p' then None else file_read p (files w).
Proof. unfold remove_file; simpl; apply file_read_remove. Qed.

Section Fetching.

Variable sha256_hexdigest : str -> str.
Variable requests_get : list str -> str -> http_result.
Variable soup_find_ssr_props : str -> soup_result.
Variable json_dumps : json -> str.

Let fetch := fetch_ssr_props sha256_hexdigest requests_get
               soup_find_ssr_props json_dumps.
Let run_main := main sha256_hexdigest requests_get
                  soup_find_ssr_props json_dumps.
Let not_found := not_found_file sha256_hexdigest.
Let cache := cache_file sha256_hexdigest.

(** The names of the three files [fetch_ssr_props] writes are apart,
    whatever the digest, and apart from the name of the output file. *)
Lemma file_names_apart (url url' : str) :
  str_eqb (not_found url) (cache url') = false
  /\ str_eqb (cache url') (not_found url) = false
  /\ str_eqb (not_found url) processing_file = false
  /\ str_eqb (cache url) processing_file = false
  /\ str_eqb processing_file (not_found url) = false
  /\ str_eqb processing_file (cache url) = false
  /\ str_eqb output_file (not_found url) = false
  /\ str_eqb output_file (cache url) = false
  /\ str_eqb output_file processing_file = false.
Proof. repeat split; reflexivity. Qed.

(** The four ways a call of [fetch_ssr_props] goes. *)
Lemma fetch_cases (url : str) (w : world) :
  let w0 := log_fetch_call url w in
  fetch url w =
  if file_exists (not_found url) w then (Ok JNull, w0)
  else match file_read (cache url) (files w) with
       | Some content => (json_loads content, w0)
       | None =>
           match requests_get (requests w) url with
           | RequestFailed => (Raise RequestException, log_request url w0)
           | Response status_code text =>
               if negb (status_code =? 200)%Z then
                 (Ok JNull,
                  if (status_code =? 404)%Z
                  then write_file (not_found url) [] (log_request url w0)
                  else log_request url w0)
               else
                 match extract_props soup_find_ssr_props text with
                 | Raise e =>
                     (Raise e,
                      write_file processing_file text (log_request url w0))
                 | Ok data =>
                     (Ok data,
                      remove_file processing_file
                        (write_file (cache url) (json_dumps data)
                           (write_file processing_file text
                              (log_request url w0))))
                 end
           end
       end.
Proof. reflexivity. Qed.

Lemma file_exists_log_fetch_call (p url : str) (w : world) :
  file_exists p (log_fetch_call url w) = file_exists p w.
Proof. reflexivity. Qed.

Lemma extract_props_dict (html : str) (v : json) :
  extract_props soup_find_ssr_props html = Ok v -> exists d, v = JObj d.
Proof.
  unfold extract_props.
  destruct (find tag_needle html 0); [|discriminate].
  destruct (find attr_needle html _); [|discriminate].
  destruct (soup_find_ssr_props _) as [| |data_json]; try discriminate.
  intros H; apply bind_ok in H as (data & Hd & H).
  apply bind_ok in H as (? & Ha & H); injection H as <-.
  destruct data; try discriminate Ha; eauto.
Qed.

(** X14.  A page fetched from the network is served from the cache from
    then on: after a fetch that got a response with status 200 and
    returned a payload, the cache file of the URL holds the payload as
    [json.dump] wrote it, and the next fetch of the URL returns what
    [json.load] reads from it, without a request and without touching a
    file. *)
Theorem fetched_page_is_served_from_the_cache
  (url : str) (w w1 : world) (text : str) (data : json) :
  file_exists (not_found url) w = false ->
  file_read (cache url) (files w) = None ->
  requests_get (requests w) url = Response 200 text ->
  fetch url w = (Ok data, w1) ->
  requests w1 = requests w ++ [url]
  /\ file_read (cache url) (files w1) = Some (json_dumps data)
  /\ fetch url w1 = (json_loads (json_dumps data), log_fetch_call url w1).
Proof.
  intros Hnf Hc Hr H.
  rewrite fetch_cases in H; cbv zeta in H.
  rewrite Hnf, Hc, Hr in H; cbn [Z.eqb negb Pos.eqb] in H.
  destruct (extract_props soup_find_ssr_props text) as [d|e]; [|discriminate].
  injection H as <- <-.
  destruct (file_names_apart url url)
    as (H1 & H2 & H3 & H4 & H5 & H6 & _).
  assert (Hcache : file_read (cache url)
                     (files (remove_file processing_file
                        (write_file (cache url) (json_dumps d)
                           (write_file processing_file text
                              (log_request url (log_fetch_call url w))))))
                   = Some (json_dumps d)).
  { rewrite file_read_remove_file, H4, file_read_write, str_eqb_refl.
    reflexivity. }
  split; [reflexivity|]; split; [exact Hcache|].
  rewrite fetch_cases; cbv zeta.
  unfold file_exists at 1.
  rewrite file_read_remove_file, H3, file_read_write, H1, file_read_write, H3.
  unfold file_exists in Hnf; cbn [files log_request log_fetch_call].
  destruct (file_read (not_found url) (files w)); [discriminate|].
  rewrite Hcache; reflexivity.
Qed.

(** X15.  A page that is not found is remembered: a response with status
    404 makes the fetch return [None] after one request and leaves the
    not-found file of the URL, and with that file there every fetch of the
    URL returns [None] without a request and without touching a file. *)
Theorem not_found_is_remembered (url : str) (w : world) (text : str) :
  file_exists (not_found url) w = false ->
  file_read (cache url) (files w) = None ->
  requests_get (requests w) url = Response 404 text ->
  exists w1,
    fetch url w = (Ok JNull, w1)
    /\ requests w1 = requests w ++ [url]
    /\ file_exists (not_found url) w1 = true
    /\ forall w2, file_exists (not_found url) w2 = true ->
                  fetch url w2 = (Ok JNull, log_fetch_call url w2).
Proof.
  intros Hnf Hc Hr.
  eexists; split; [|split; [|split]].
  - rewrite fetch_cases; cbv zeta.
    rewrite Hnf, Hc, Hr; cbn [Z.eqb negb Pos.eqb]; reflexivity.
  - reflexivity.
  - unfold file_exists; rewrite file_read_write, str_eqb_refl; reflexivity.
  - intros w2 H2; rewrite fetch_cases; cbv zeta; rewrite H2; reflexivity.
Qed.

(** X16.  Any other failure is not remembered: a response with a status
    other than 200 and 404 makes the fetch return [None] and leaves the
    files as they were, so that the next fetch of the URL asks the network
    again. *)
Theorem other_failures_are_not_remembered
  (url : str) (w : world) (status_code : Z) (text : str) :
  file_exists (not_found url) w = false ->
  file_read (cache url) (files w) = None ->
  requests_get (requests w) url = Response status_code text ->
  status_code <> 200%Z -> status_code <> 404%Z ->
  exists w1,
    fetch url w = (Ok JNull, w1)
    /\ files w1 = files w
    /\ forall res w2, fetch url w1 = (res, w2) ->
                      requests w2 = requests w ++ [url; url].
Proof.
  intros Hnf Hc Hr H200 H404.
  apply Z.eqb_neq in H200, H404.
  exists (log_request url (log_fetch_call url w)); split; [|split].
  - rewrite fetch_cases; cbv zeta.
    rewrite Hnf, Hc, Hr, H200, H404; reflexivity.
  - reflexivity.
  - intros res w2; rewrite fetch_cases; cbv zeta.
    unfold file_exists in *; cbn [files log_request log_fetch_call requests].
    destruct (file_read (not_found url) (files w)); [discriminate|].
    rewrite Hc.
    destruct (requests_get (requests w ++ [url]) url) as [st tx|].
    + destruct (negb (st =? 200)%Z).
      * destruct (st =? 404)%Z; intros [= _ <-]; simpl;
          rewrite <- app_assoc; reflexivity.
      * destruct (extract_props soup_find_ssr_props tx);
          intros [= _ <-]; simpl; rewrite <- app_assoc; reflexivity.
    + intros [= _ <-]; simpl; rewrite <- app_assoc; reflexivity.
Qed.

(** X17.  A fetch that does not read the cache file returns [None] or a
    mapping, as its signature says; no other value comes from the
    network. *)
Theorem fresh_fetch_returns_none_or_a_mapping
  (url : str) (w w' : world) (v : json) :
  file_read (cache url) (files w) = None ->
  fetch url w = (Ok v, w') ->
  v = JNull \/ exists d, v = JObj d.
Proof.
  intros Hc; rewrite fetch_cases; cbv zeta; rewrite Hc.
  destruct (file_exists _ _); [intros [= <- _]; auto|].
  destruct (requests_get _ url) as [st tx|]; [|discriminate].
  destruct (negb _); [intros [= <- _]; auto|].
  destruct (extract_props soup_find_ssr_props tx) as [d|e] eqn:E;
    [|discriminate].
  intros [= <- _]; right; eapply extract_props_dict; exact E.
Qed.

(** X18.  The response being taken apart is kept in the processing file
    and removed once the payload is out: after a fetch that got a status
    200 the file holds the text of the response if the fetch raised, and
    is not there if the fetch returned. *)
Theorem processing_file_is_left_only_on_failure
  (url : str) (w w' : world) (text : str) (res : outcome json) :
  file_exists (not_found url) w = false ->
  file_read (cache url) (files w) = None ->
  requests_get (requests w) url = Response 200 text ->
  fetch url w = (res, w') ->
  file_read processing_file (files w')
  = match res with
    | Raise _ => Some text
    | Ok _ => None
    end.
Proof.
  intros Hnf Hc Hr; rewrite fetch_cases; cbv zeta.
  rewrite Hnf, Hc, Hr; cbn [Z.eqb negb Pos.eqb].
  destruct (extract_props soup_find_ssr_props text); intros [= <- <-].
  - rewrite file_read_remove_file, str_eqb_refl; reflexivity.
  - rewrite file_read_write, str_eqb_refl; reflexivity.
Qed.

Lemma fetch_requests (url : str) (w w' : world) (res : outcome json) :
  fetch url w = (res, w') ->
  requests w' = requests w \/ requests w' = requests w ++ [url].
Proof.
  rewrite fetch_cases; cbv zeta.
  repeat match goal with
         | |- context [if ?b then _ else _] => destruct b
         | |- context [match ?x with _ => _ end] => destruct x
         end; intros [= <- <-]; auto.
Qed.

Lemma fetch_files (url : str) (w w' : world) (res : outcome json) (p : str) :
  fetch url w = (res, w') ->
  str_eqb p (not_found url) = false ->
  str_eqb p (cache url) = false ->
  str_eqb p processing_file = false ->
  file_read p (files w') = file_read p (files w).
Proof.
  rewrite fetch_cases; cbv zeta; intros H H1 H2 H3.
  repeat match type of H with
         | context [if ?b then _ else _] => destruct b
         | context [match ?x with _ => _ end] => destruct x
         end; injection H as <- <-;
    rewrite ?file_read_remove_file, ?file_read_write, ?H1, ?H2, ?H3;
    rewrite ?file_read_remove_file, ?file_read_write, ?H1, ?H2, ?H3;
    reflexivity.
Qed.

(** X19.  A call of [fetch_ssr_props] sends at most one request, for the
    URL it is called with, and touches no file but the not-found file and
    the cache file of that URL and the processing file. *)
Theorem fetch_asks_once_and_writes_its_own_files
  (url : str) (w w' : world) (res : outcome json) :
  fetch url w = (res, w') ->
  (requests w' = requests w \/ requests w' = requests w ++ [url])
  /\ forall p, p <> not_found url -> p <> cache url -> p <> processing_file ->
               file_read p (files w') = file_read p (files w).
Proof.
  intros H; split; [eapply fetch_requests; exact H|].
  intros p H1 H2 H3; eapply fetch_files; eauto using str_eqb_neq.
Qed.

End Fetching.

Section Running.

Variable sha256_hexdigest : str -> str.
Variable requests_get : list str -> str -> http_result.
Variable soup_find_ssr_props : str -> soup_result.
Variable json_dumps : json -> str.

Let fetch := fetch_ssr_props sha256_hexdigest requests_get
               soup_find_ssr_props json_dumps.
Let page_step := process_page sha256_hexdigest requests_get
                   soup_find_ssr_props json_dumps.
Let run_crawl := crawl sha256_hexdigest requests_get
                   soup_find_ssr_props json_dumps.
Let run_main := main sha256_hexdigest requests_get
                  soup_find_ssr_props json_dumps.
Let not_found := not_found_file sha256_hexdigest.
Let cache := cache_file sha256_hexdigest.

(** One page of the crawl changes the world by at most one call of
    [fetch_ssr_props], on the URL of the page. *)
Lemma process_page_world (url_prefix : str) (non_reference_pages : list json)
  (oas page : json) (w w' : world) (res : outcome json) :
  page_step url_prefix non_reference_pages oas page w = (res, w') ->
  w' = w \/ exists s r, fetch (url_prefix ++ s) w = (r, w').
Proof.
  unfold page_step, process_page; intros H.
  apply bindM_cases in H as [(e & H & _)|(slug & w1 & Hslug & H)];
    [apply lift_world in H as [_ ->]; auto|].
  apply lift_ok in Hslug as [Hslug ->].
  apply bindM_cases in H as [(e & H & _)|(skip & w1 & Hskip & H)];
    [apply lift_world in H as [_ ->]; auto|].
  apply lift_ok in Hskip as [Hskip ->].
  destruct skip.
  { apply bindM_cases in H as [(e & H & _)|(? & w1 & Hp & H)];
      [apply lift_world in H as [_ ->]; auto|].
    apply lift_ok in Hp as [_ ->]; injection H as _ <-; auto. }
  apply bindM_cases in H as [(e & H & _)|(? & w1 & Hp & H)];
    [apply lift_world in H as [_ ->]; auto|].
  apply lift_ok in Hp as [_ ->].
  apply bindM_cases in H as [(e & H & _)|(slug' & w1 & Hslug' & H)];
    [apply lift_world in H as [_ ->]; auto|].
  apply lift_ok in Hslug' as [Hslug' ->].
  apply bindM_cases in H as [(e & H & _)|(url & w1 & Hurl & H)];
    [apply lift_world in H as [_ ->]; auto|].
  apply lift_ok in Hurl as [Hurl ->].
  destruct slug' as [| | | |s| |]; try discriminate.
  injection Hurl as <-.
  right; exists s.
  apply bindM_cases in H as [(e & H & _)|(props & w1 & Hf & H)];
    [eexists; exact H|].
  exists (Ok props).
  enough (w' = w1) as -> by exact Hf.
  destruct props;
    try (injection H as _ <-; reflexivity);
    (apply bindM_cases in H as [(e & H & _)|(has & w2 & Hh & H)];
     [apply lift_world in H as [_ ->]; reflexivity|];
     apply lift_ok in Hh as [_ ->];
     destruct has; simpl in H; [|injection H as _ <-; reflexivity];
     apply bindM_cases in H as [(e & H & _)|(frag & w2 & Hg & H)];
     [apply lift_world in H as [_ ->]; reflexivity|];
     apply lift_ok in Hg as [_ ->];
     destruct (py_truthy frag); simpl in H;
     [|injection H as _ <-; reflexivity];
     apply bindM_cases in H as [(e & H & _)|(frag' & w2 & Hg' & H)];
     [apply lift_world in H as [_ ->]; reflexivity|];
     apply lift_ok in Hg' as [_ ->];
     apply lift_world in H as [_ ->]; reflexivity).
Qed.

Lemma for_eachM_world {A S} (R : world -> world -> Prop)
  (body : S -> A -> M S) (l : list A) :
  (forall w, R w w) ->
  (forall a b c, R a b -> R b c -> R a c) ->
  (forall s a w res w', body s a w = (res, w') -> R w w') ->
  forall s w res w', for_eachM body l s w = (res, w') -> R w w'.
Proof.
  intros Hrefl Htrans Hstep; induction l as [|a l IH]; intros s w res w'; simpl.
  - intros [= _ <-]; apply Hrefl.
  - intros H; apply bindM_cases in H as [(e & H & _)|(s1 & w1 & H1 & H)].
    + eapply Hstep; exact H.
    + eapply Htrans; [eapply Hstep; exact H1 | eapply IH; exact H].
Qed.

(** The crawl changes the world by calls of [fetch_ssr_props] on URLs
    that start with the prefix, and by nothing else. *)
Lemma crawl_world (R : world -> world -> Prop) (url_prefix : str)
  (non_reference_pages refs : list json) (oas : json) (w w' : world)
  (res : outcome json) :
  (forall w, R w w) ->
  (forall a b c, R a b -> R b c -> R a c) ->
  (forall s wa r wb, fetch (url_prefix ++ s) wa = (r, wb) -> R wa wb) ->
  run_crawl url_prefix non_reference_pages refs oas w = (res, w') ->
  R w w'.
Proof.
  intros Hrefl Htrans Hfetch.
  unfold run_crawl, crawl.
  revert oas w res w'; apply for_eachM_world; auto.
  intros s ref w res w' H.
  unfold process_ref in H.
  apply bindM_cases in H as [(e & H & _)|(pages & w1 & Hp & H)];
    [apply lift_world in H as [_ ->]; apply Hrefl|].
  apply lift_ok in Hp as [_ ->].
  apply bindM_cases in H as [(e & H & _)|(pages' & w1 & Hp & H)];
    [apply lift_world in H as [_ ->]; apply Hrefl|].
  apply lift_ok in Hp as [_ ->].
  revert H; generalize s, w, res, w'; apply for_eachM_world; auto.
  intros oas page w0 res0 w0' H.
  apply process_page_world in H as [->|(slug & r & H)]; eauto.
Qed.

(** A run of [main]: calls of [fetch_ssr_props] on the start URL and on
    URLs that start with the prefix, and at the end of a run that returns
    the writing of the output file. *)
Lemma main_world (R : world -> world -> Prop) (start_url : str)
  (w w' : world) (res : outcome json) :
  (forall w, R w w) ->
  (forall a b c, R a b -> R b c -> R a c) ->
  (forall url wa r wb,
      url = start_url \/ (exists s, url = make_url_prefix start_url ++ s) ->
      fetch url wa = (r, wb) -> R wa wb) ->
  run_main start_url w = (res, w') ->
  exists w2,
    R w w2
    /\ match res with
       | Raise _ => w' = w2
       | Ok t => w' = write_file output_file (json_dumps t) w2
       end.
Proof.
  intros Hrefl Htrans Hfetch H.
  unfold run_main, main in H.
  apply bindM_cases in H as [(e & H & ->)|(sp & w1 & Hf & H)];
    [exists w'; split; [eapply Hfetch; [left; reflexivity|exact H]|reflexivity]|].
  assert (R1 : R w w1) by (eapply Hfetch; [left; reflexivity|exact Hf]).
  apply bindM_cases in H as [(e & H & ->)|(refs & w2 & Hr & H)];
    [apply lift_world in H as [_ ->]; exists w1; auto|].
  apply lift_ok in Hr as [_ ->].
  apply bindM_cases in H as [(e & H & ->)|(nrp & w2 & Hn & H)];
    [apply lift_world in H as [_ ->]; exists w1; auto|].
  apply lift_ok in Hn as [_ ->].
  apply bindM_cases in H as [(e & H & ->)|(oas & w2 & Hs & H)];
    [apply lift_world in H as [_ ->]; exists w1; auto|].
  apply lift_ok in Hs as [_ ->].
  apply bindM_cases in H as [(e & H & ->)|(refs' & w2 & Hi & H)];
    [apply lift_world in H as [_ ->]; exists w1; auto|].
  apply lift_ok in Hi as [_ ->].
  assert (Hcrawl : forall r w2,
             run_crawl (make_url_prefix start_url) nrp refs' oas w1 = (r, w2) ->
             R w w2).
  { intros r w2 Hc; eapply Htrans; [exact R1|].
    eapply crawl_world; [exact Hrefl|exact Htrans| |exact Hc].
    intros s wa r0 wb Hs; eapply Hfetch; [right; eauto|exact Hs]. }
  apply bindM_cases in H as [(e & H & ->)|(oas' & w2 & Hc & H)];
    [exists w'; split; [eapply Hcrawl; exact H|reflexivity]|].
  apply Hcrawl in Hc.
  apply bindM_cases in H as [(e & H & ->)|(final & w3 & Hs & H)];
    [apply lift_world in H as [_ ->]; exists w2; auto|].
  apply lift_ok in Hs as [_ ->].
  injection H as <- <-; exists w2; auto.
Qed.

Lemma startswith_app (p s : str) : startswith p (p ++ s) = true.
Proof.
  induction p as [|c p IH]; simpl; [reflexivity|].
  rewrite N.eqb_refl; exact IH.
Qed.

(** X20.  A run of [main], finished or aborted, asks the network only
    for the start URL and for URLs below it: every request it sends is
    for the start URL or for a URL that starts with the start URL and a
    slash. *)
Theorem run_requests_only_the_start_url_and_below
  (start_url : str) (w w' : world) (res : outcome json) :
  run_main start_url w = (res, w') ->
  exists sent,
    requests w' = requests w ++ sent
    /\ Forall (under_start start_url) sent.
Proof.
  intros H.
  apply (@main_world
           (fun a b => exists sent,
                requests b = requests a ++ sent
                /\ Forall (under_start start_url) sent)) in H.
  - destruct H as (w2 & R & Hend).
    destruct res; subst w'; exact R.
  - intros a; exists []; rewrite app_nil_r; auto.
  - intros a b c (s1 & E1 & F1) (s2 & E2 & F2).
    exists (s1 ++ s2); split; [rewrite E2, E1, app_assoc; reflexivity|].
    apply Forall_app; auto.
  - intros url wa r wb Hurl Hf.
    apply fetch_requests in Hf as [Hf|Hf].
    + exists []; rewrite app_nil_r; auto.
    + exists [url]; split; [exact Hf|].
      apply Forall_cons; [|apply Forall_nil].
      unfold under_start.
      destruct Hurl as [->|(s & ->)]; [left; reflexivity|right].
      apply startswith_app.
Qed.

(** X21.  The output file is written once, at the very end of a run that
    finishes, with the finished tree as [json.dump] writes it; a run that
    is aborted leaves the output file as it was. *)
Theorem output_file_is_written_by_a_finished_run_only
  (start_url : str) (w w' : world) (res : outcome json) :
  run_main start_url w = (res, w') ->
  file_read output_file (files w')
  = match res with
    | Ok t => Some (json_dumps t)
    | Raise _ => file_read output_file (files w)
    end.
Proof.
  intros H.
  apply (@main_world
           (fun a b => file_read output_file (files b)
                       = file_read output_file (files a))) in H.
  - destruct H as (w2 & R & Hend).
    destruct res; subst w'; [|exact R].
    rewrite file_read_write, str_eqb_refl; reflexivity.
  - reflexivity.
  - intros a b c H1 H2; congruence.
  - intros url wa r wb _ Hf.
    destruct (file_names_apart sha256_hexdigest url url)
      as (_ & _ & _ & _ & _ & _ & H1 & H2 & H3).
    eapply fetch_files; eauto.
Qed.

(** X22.  Without its start page the run does not get anywhere: when
    the start URL is remembered as not found, or the server answers the
    request for it with another status than 200, [main] raises
    [TypeError] at once; no other page is fetched. *)
Theorem run_needs_its_start_page
  (start_url : str) (w : world) (status_code : Z) (text : str) :
  (file_exists (not_found start_url) w = true ->
   run_main start_url w = (Raise TypeError, log_fetch_call start_url w))
  /\ (file_exists (not_found start_url) w = false ->
      file_read (cache start_url) (files w) = None ->
      requests_get (requests w) start_url = Response status_code text ->
      status_code <> 200%Z ->
      exists w1,
        run_main start_url w = (Raise TypeError, w1)
        /\ requests w1 = requests w ++ [start_url]
        /\ fetch_calls w1 = fetch_calls w ++ [start_url]).
Proof.
  split.
  - intros Hnf; unfold run_main, main, bindM.
    rewrite fetch_cases; cbv zeta.
    unfold not_found in Hnf; rewrite Hnf; reflexivity.
  - intros Hnf Hc Hr H200; apply Z.eqb_neq in H200.
    unfold not_found in Hnf; unfold cache in Hc.
    eexists; split; [|split].
    + unfold run_main, main, bindM.
      rewrite fetch_cases; cbv zeta.
      rewrite Hnf, Hc, Hr, H200; reflexivity.
    + destruct (status_code =? 404)%Z; reflexivity.
    + destruct (status_code =? 404)%Z; reflexivity.
Qed.

Lemma strip_keeps_sections (t r : json) :
  top_nodup t = true -> has_sections t = true ->
  strip_bookkeeping t = Ok r -> has_sections r = true.
Proof.
  intros Hn Hs H.
  eapply strip_bookkeeping_ok in H as (_ & _ & Hg); [|exact Hn].
  pose proof (Hg k_paths) as Hp; pose proof (Hg k_components) as Hc.
  specialize (Hp ltac:(discriminate) ltac:(discriminate)).
  specialize (Hc ltac:(discriminate) ltac:(discriminate)).
  destruct t as [| | | | | |T]; try discriminate.
  unfold has_sections in Hs; simpl in Hp, Hc.
  destruct (dict_lookup k_paths T) as [[| | | | | |P]|] eqn:EP;
    try discriminate.
  destruct (dict_lookup k_components T) as [[| | | | | |C]|] eqn:EC;
    try discriminate.
  destruct r as [| | | | | |R]; try discriminate.
  unfold has_sections; simpl in Hp, Hc.
  destruct (dict_lookup k_paths R); [|discriminate].
  destruct (dict_lookup k_components R); [|discriminate].
  injection Hp as ->; injection Hc as ->; reflexivity.
Qed.

(** X23.  The tree a finished run of [main] writes has a "paths" and a
    "components" section, both mappings, even if no page gave anything to
    merge. *)
Theorem finished_tree_has_both_sections
  (start_url : str) (w w' : world) (t : json) :
  run_main start_url w = (Ok t, w') -> has_sections t = true.
Proof.
  intros H.
  apply main_ok in H
    as (sp & w1 & refs & nrp & oas & oas' & w2 & Hf & _ & Hs & Hc & Hst & _).
  apply fetch_wf in Hf.
  pose proof (seed_has_sections _ Hs) as Hsec.
  eapply seed_top_nodup in Hs; [|exact Hf].
  assert (Hn' : top_nodup oas' = true).
  { eapply (@crawl_invariant sha256_hexdigest requests_get
              soup_find_ssr_props json_dumps (fun x => top_nodup x = true));
      [|exact Hs|exact Hc].
    intros; eapply merge_top_nodup; eassumption. }
  assert (Hs' : has_sections oas' = true).
  { eapply (@crawl_invariant sha256_hexdigest requests_get
              soup_find_ssr_props json_dumps
              (fun x => has_sections x = true));
      [|exact Hsec|exact Hc].
    intros; eapply merge_has_sections; eassumption. }
  eapply strip_keeps_sections; eassumption.
Qed.

Lemma process_page_calls (url_prefix : str) (non_reference_pages : list json)
  (oas page r : json) (w w' : world) :
  page_step url_prefix non_reference_pages oas page w = (Ok r, w') ->
  fetch_calls w'
  = fetch_calls w ++ page_urls url_prefix non_reference_pages page.
Proof.
  intros H; pose proof H as Htrace.
  apply process_page_trace in Htrace.
  unfold page_step, process_page in H.
  apply bindM_ok in H as (slug & w1 & Hslug & H).
  apply lift_ok in Hslug as [Hslug ->].
  apply bindM_ok in H as (skip & w1 & Hskip & H).
  apply lift_ok in Hskip as [Hskip ->].
  unfold page_urls; rewrite Hslug.
  unfold set_contains in Hskip.
  destruct (hashable slug) eqn:Hh; [|discriminate].
  injection Hskip as <-.
  destruct (existsb (py_eq slug) non_reference_pages) eqn:Hin.
  - apply bindM_ok in H as (? & w1 & Hp & H).
    apply lift_ok in Hp as [_ ->]; injection H as _ <-.
    unfold in_set; destruct slug; rewrite ?Hin, app_nil_r; reflexivity.
  - destruct Htrace as [Hsame|(s & Hs & _ & Hcall)].
    + exfalso.
      apply bindM_ok in H as (? & w1 & Hp & H).
      apply lift_ok in Hp as [_ ->].
      apply bindM_ok in H as (slug' & w1 & Hslug' & H).
      apply lift_ok in Hslug' as [_ ->].
      apply bindM_ok in H as (url & w1 & Hurl & H).
      apply lift_ok in Hurl as [_ ->].
      apply bindM_ok in H as (props & w1 & Hf & H).
      apply fetch_records_call in Hf.
      assert (Hw : fetch_calls w' = fetch_calls w1).
      { destruct props;
          try (injection H as _ <-; reflexivity);
          (apply bindM_ok in H as (has & w2 & Hh' & H);
           apply lift_ok in Hh' as [_ ->];
           destruct has; simpl in H; [|injection H as _ <-; reflexivity];
           apply bindM_ok in H as (frag & w2 & Hg & H);
           apply lift_ok in Hg as [_ ->];
           destruct (py_truthy frag); simpl in H;
           [|injection H as _ <-; reflexivity];
           apply bindM_ok in H as (frag' & w2 & Hg' & H);
           apply lift_ok in Hg' as [_ ->];
           apply lift_ok in H as [_ ->]; reflexivity). }
      rewrite Hw, Hf in Hsame.
      apply (f_equal (@List.length str)) in Hsame.
      rewrite length_app in Hsame; simpl in Hsame; lia.
    + rewrite Hs in Hslug; injection Hslug as <-.
      unfold in_set; rewrite Hin; exact Hcall.
Qed.

Lemma for_eachM_calls_ok {A S} (f : A -> list str) (body : S -> A -> M S)
  (l : list A) :
  (forall s a w s' w', body s a w = (Ok s', w') ->
      fetch_calls w' = fetch_calls w ++ f a) ->
  forall s w s' w', for_eachM body l s w = (Ok s', w') ->
      fetch_calls w' = fetch_calls w ++ flat_map f l.
Proof.
  intros Hstep; induction l as [|a l IH]; intros s w s' w'; simpl.
  - intros [= _ <-]; rewrite app_nil_r; reflexivity.
  - intros H; apply bindM_ok in H as (s1 & w1 & H1 & H).
    apply Hstep in H1; apply IH in H.
    rewrite H, H1, app_assoc; reflexivity.
Qed.

(** X24.  A run that finishes has fetched the start page and then,
    group by group and page by page in the order the start page lists
    them, every page of a reference group whose slug is not in the set of
    non-reference pages, once for every time it is listed, and nothing
    else. *)
Theorem finished_run_fetches_every_listed_page
  (start_url : str) (w w' : world) (t : json) :
  run_main start_url w = (Ok t, w') ->
  exists start_props w1 non_reference_pages,
    fetch start_url w = (Ok start_props, w1)
    /\ collect_non_reference start_props = Ok non_reference_pages
    /\ fetch_calls w'
       = fetch_calls w
         ++ start_url
            :: crawl_urls (make_url_prefix start_url) non_reference_pages
                 (listed_refs start_props).
Proof.
  unfold run_main, main; intros H.
  apply bindM_ok in H as (start_props & w1 & Hf & H).
  apply bindM_ok in H as (refs & w2 & Hr & H).
  apply lift_ok in Hr as [Hr ->].
  apply bindM_ok in H as (nrp & w2 & Hn & H).
  apply lift_ok in Hn as [Hn ->].
  apply bindM_ok in H as (oas & w2 & Hs & H).
  apply lift_ok in Hs as [Hs ->].
  apply bindM_ok in H as (refs' & w2 & Hi & H).
  apply lift_ok in Hi as [Hi ->].
  apply bindM_ok in H as (oas' & w2 & Hc & H).
  apply bindM_ok in H as (final & w3 & Hst & H).
  apply lift_ok in Hst as [Hst ->].
  injection H as _ <-.
  exists start_props, w1, nrp; split; [exact Hf|]; split; [exact Hn|].
  assert (Hrefs : listed_refs start_props = refs').
  { unfold listed_refs.
    apply bind_ok in Hr as (sidebars & Hsb & Hr).
    rewrite Hsb; cbn [bind]; rewrite Hr; cbn [bind]; rewrite Hi; reflexivity. }
  rewrite Hrefs.
  apply fetch_records_call in Hf.
  cbn [files requests fetch_calls write_file].
  unfold crawl in Hc.
  apply (for_eachM_calls_ok
           (fun ref => flat_map (page_urls (make_url_prefix start_url) nrp)
                         (ref_pages ref))) in Hc.
  - unfold crawl_urls; rewrite Hc, Hf, <- app_assoc; reflexivity.
  - intros s ref wa s' wb Hp.
    unfold process_ref in Hp.
    apply bindM_ok in Hp as (pages & wc & Hpg & Hp).
    apply lift_ok in Hpg as [Hpg ->].
    apply bindM_ok in Hp as (pages' & wc & Hpi & Hp).
    apply lift_ok in Hpi as [Hpi ->].
    assert (Hrp : ref_pages ref = pages')
      by (unfold ref_pages; rewrite Hpg; cbn [bind]; rewrite Hpi; reflexivity).
    rewrite Hrp.
    revert Hp; apply for_eachM_calls_ok.
    intros; eapply process_page_calls; eassumption.
Qed.

End Running.

Lemma py_eq_str (s : str) (x : json) : py_eq (JStr s) x = true -> x = JStr s.
Proof.
  destruct x; simpl; try discriminate.
  intros H; apply str_eqb_spec in H; congruence.
Qed.

Lemma py_iter_of_a_list (v x y : json) (items : list json) (k : str) :
  py_iter v = Ok items -> In x items -> py_getitem x k = Ok y ->
  v = JArr items.
Proof.
  destruct v; simpl; try discriminate; intros [= <-] Hin Hg.
  - apply in_map_iff in Hin as (c & <- & _); discriminate.
  - reflexivity.
  - apply in_map_iff in Hin as (kv & <- & _); discriminate.
Qed.

Lemma collect_non_reference_sound (start_props : json) (s : list json)
  (x : json) :
  collect_non_reference start_props = Ok s -> In x s ->
  marked_slug start_props x.
Proof.
  unfold collect_non_reference; intros H.
  apply bind_ok in H as (sidebars & Hsb & H).
  apply bind_ok in H as (docs_v & Hd & H).
  apply bind_ok in H as (docs & Hi & H).
  revert x.
  assert (Hinit : forall x, In x (@nil json) -> marked_slug start_props x)
    by (intros x []).
  revert Hinit H.
  apply (for_each_invariant
           (fun set => forall x, In x set -> marked_slug start_props x)).
  intros set doc set' Hdoc Hset Hc.
  unfold collect_doc in Hc.
  apply bind_ok in Hc as (pages_v & Hp & Hc).
  apply bind_ok in Hc as (pages & Hpi & Hc).
  revert Hset Hc.
  apply (for_each_invariant
           (fun set => forall x, In x set -> marked_slug start_props x)).
  intros set1 page set2 Hpage Hset1 Hcp x Hx.
  unfold collect_page in Hcp.
  apply bind_ok in Hcp as (is_reference & Hr & Hcp).
  destruct (py_truthy is_reference) eqn:Ht; simpl in Hcp;
    [injection Hcp as <-; auto|].
  apply bind_ok in Hcp as (slug & Hs & Hcp).
  unfold set_add in Hcp.
  destruct (hashable slug); [|discriminate].
  injection Hcp as <-.
  assert (Hin : In x set1 \/ x = slug).
  { destruct (existsb (py_eq slug) set1); [auto|].
    apply in_app_or in Hx as [Hx|Hx]; [auto|].
    destruct Hx as [<-|Hx]; [auto|destruct Hx]. }
  destruct Hin as [Hin | ->]; [auto|].
  pose proof (py_iter_of_a_list _ _ _ Hi Hdoc Hp) as ->.
  pose proof (py_iter_of_a_list _ _ _ Hpi Hpage Hr) as ->.
  exists sidebars, docs, doc, pages, page, is_reference; auto 10.
Qed.

(** X25.  The set of pages the crawl skips is what the documentation
    navigation marks, no more and no less: a slug is in the set of
    non-reference pages exactly when some page of some group under
    [sidebars.docs] has that slug and an [isReference] that Python takes
    for false. *)
Theorem skipped_slugs_are_the_marked_ones
  (start_props : json) (non_reference_pages : list json) (slug : str) :
  collect_non_reference start_props = Ok non_reference_pages ->
  set_contains (JStr slug) non_reference_pages = Ok true
  <-> marked_non_reference start_props slug.
Proof.
  intros H; split.
  - unfold set_contains; simpl; intros [= Hin].
    apply existsb_exists in Hin as (x & Hx & Heq).
    apply py_eq_str in Heq; subst x.
    eapply collect_non_reference_sound; eassumption.
  - intros Hm; unfold set_contains; simpl.
    pose proof (collect_non_reference_ok H Hm) as Hin.
    unfold in_set in Hin; rewrite Hin; reflexivity.
Qed.

Lemma endswith_slash_app (s : str) : endswith (u "/") (s ++ u "/") = true.
Proof. unfold endswith; rewrite rev_app_distr; reflexivity. Qed.

(** X26.  The prefix the page URLs are built with starts with the start
    URL and always ends with a slash, one the start URL brought or one
    that is added; a start URL given with and without its final slash
    gives the same prefix. *)
Theorem url_prefix_ends_with_a_slash (start_url : str) :
  startswith start_url (make_url_prefix start_url) = true
  /\ endswith (u "/") (make_url_prefix start_url) = true
  /\ make_url_prefix (make_url_prefix start_url) = make_url_prefix start_url
  /\ (endswith (u "/") start_url = false ->
      make_url_prefix (start_url ++ u "/") = make_url_prefix start_url).
Proof.
  unfold make_url_prefix.
  destruct (endswith (u "/") start_url) eqn:E.
  - rewrite E; repeat split; auto; try discriminate.
    rewrite <- (app_nil_r start_url) at 2; apply startswith_app.
  - rewrite endswith_slash_app; repeat split; auto using startswith_app.
Qed.

(* ================================================================== *)
(** * The further statements on the example sites *)
(* ================================================================== *)

Lemma fetched_page_is_served_from_the_cache_witness :
  ex_fetch site_A (ex_page_url "pets") (after_start site_A)
  = (Ok pets_props, after_pets)
  /\ requests after_pets
     = requests (after_start site_A) ++ [ex_page_url "pets"]
  /\ file_read (cache_file ex_sha256 (ex_page_url "pets")) (files after_pets)
     = Some (ex_dumps pets_props)
  /\ ex_fetch site_A (ex_page_url "pets") after_pets
     = (json_loads (ex_dumps pets_props),
        log_fetch_call (ex_page_url "pets") after_pets).
Proof.
  assert (H : ex_fetch site_A (ex_page_url "pets") (after_start site_A)
              = (Ok pets_props, after_pets)) by (vm_compute; reflexivity).
  split; [exact H|].
  refine (@fetched_page_is_served_from_the_cache
            ex_sha256 site_A ex_soup ex_dumps (ex_page_url "pets")
            (after_start site_A) after_pets (html_page pets_payload)
            pets_props _ _ _ H); vm_compute; reflexivity.
Defined.

Lemma not_found_is_remembered_witness :
  exists w1,
    ex_fetch site_A (ex_page_url "gone") empty_world = (Ok JNull, w1)
    /\ requests w1 = requests empty_world ++ [ex_page_url "gone"]
    /\ file_exists (not_found_file ex_sha256 (ex_page_url "gone")) w1 = true
    /\ forall w2,
         file_exists (not_found_file ex_sha256 (ex_page_url "gone")) w2
         = true ->
         ex_fetch site_A (ex_page_url "gone") w2
         = (Ok JNull, log_fetch_call (ex_page_url "gone") w2).
Proof.
  refine (@not_found_is_remembered
            ex_sha256 site_A ex_soup ex_dumps (ex_page_url "gone")
            empty_world [] _ _ _); vm_compute; reflexivity.
Defined.

Lemma other_failures_are_not_remembered_witness :
  exists w1,
    ex_fetch site_D (ex_page_url "down") empty_world = (Ok JNull, w1)
    /\ files w1 = files empty_world
    /\ forall res w2,
         ex_fetch site_D (ex_page_url "down") w1 = (res, w2) ->
         requests w2
         = requests empty_world ++ [ex_page_url "down"; ex_page_url "down"].
Proof.
  refine (@other_failures_are_not_remembered
            ex_sha256 site_D ex_soup ex_dumps (ex_page_url "down")
            empty_world 500 (u "Internal Server Error") _ _ _ _ _);
    try (vm_compute; reflexivity); discriminate.
Defined.

Lemma fresh_fetch_returns_none_or_a_mapping_witness :
  ex_fetch site_A (ex_page_url "pets") (after_start site_A)
  = (Ok pets_props, after_pets)
  /\ (pets_props = JNull \/ exists d, pets_props = JObj d).
Proof.
  assert (H : ex_fetch site_A (ex_page_url "pets") (after_start site_A)
              = (Ok pets_props, after_pets)) by (vm_compute; reflexivity).
  split; [exact H|].
  refine (@fresh_fetch_returns_none_or_a_mapping
            ex_sha256 site_A ex_soup ex_dumps (ex_page_url "pets")
            (after_start site_A) after_pets pets_props _ H).
  vm_compute; reflexivity.
Defined.

Lemma processing_file_is_left_only_on_failure_witness :
  file_read processing_file
    (files (snd (ex_fetch site_B (ex_page_url "broken")
                   (after_start site_B))))
  = Some (u "<html><body>Service unavailable</body></html>")
  /\ file_read processing_file (files after_pets) = None.
Proof.
  split.
  - refine (@processing_file_is_left_only_on_failure
              ex_sha256 site_B ex_soup ex_dumps (ex_page_url "broken")
              (after_start site_B)
              (snd (ex_fetch site_B (ex_page_url "broken")
                      (after_start site_B)))
              (u "<html><body>Service unavailable</body></html>")
              (Raise (AssertionError (tag_needle ++ u " not found")))
              _ _ _ _); vm_compute; reflexivity.
  - refine (@processing_file_is_left_only_on_failure
              ex_sha256 site_A ex_soup ex_dumps (ex_page_url "pets")
              (after_start site_A) after_pets (html_page pets_payload)
              (Ok pets_props) _ _ _ _); vm_compute; reflexivity.
Defined.

Lemma fetch_asks_once_and_writes_its_own_files_witness :
  (requests after_pets = requests (after_start site_A)
   \/ requests after_pets
      = requests (after_start site_A) ++ [ex_page_url "pets"])
  /\ forall p,
       p <> not_found_file ex_sha256 (ex_page_url "pets") ->
       p <> cache_file ex_sha256 (ex_page_url "pets") ->
       p <> processing_file ->
       file_read p (files after_pets)
       = file_read p (files (after_start site_A)).
Proof.
  refine (@fetch_asks_once_and_writes_its_own_files
            ex_sha256 site_A ex_soup ex_dumps (ex_page_url "pets")
            (after_start site_A) after_pets (Ok pets_props) _).
  vm_compute; reflexivity.
Defined.

Lemma run_requests_only_the_start_url_and_below_witness :
  exists sent,
    requests (snd (run_site site_A)) = requests empty_world ++ sent
    /\ Forall (under_start ex_start_url) sent.
Proof.
  refine (@run_requests_only_the_start_url_and_below
            ex_sha256 site_A ex_soup ex_dumps ex_start_url empty_world
            (snd (run_site site_A)) (Ok site_A_tree) _).
  vm_compute; reflexivity.
Defined.

Lemma output_file_is_written_by_a_finished_run_only_witness :
  file_read output_file (files (snd (run_site site_A)))
  = Some (ex_dumps site_A_tree)
  /\ file_read output_file (files (snd (run_site site_B)))
     = file_read output_file (files empty_world).
Proof.
  split.
  - refine (@output_file_is_written_by_a_finished_run_only
              ex_sha256 site_A ex_soup ex_dumps ex_start_url empty_world
              (snd (run_site site_A)) (Ok site_A_tree) _).
    vm_compute; reflexivity.
  - refine (@output_file_is_written_by_a_finished_run_only
              ex_sha256 site_B ex_soup ex_dumps ex_start_url empty_world
              (snd (run_site site_B))
              (Raise (AssertionError (tag_needle ++ u " not found"))) _).
    vm_compute; reflexivity.
Defined.

Lemma run_needs_its_start_page_witness :
  exists w1,
    run_site site_E = (Raise TypeError, w1)
    /\ requests w1 = requests empty_world ++ [ex_start_url]
    /\ fetch_calls w1 = fetch_calls empty_world ++ [ex_start_url].
Proof.
  refine (proj2 (@run_needs_its_start_page
                   ex_sha256 site_E ex_soup ex_dumps ex_start_url
                   empty_world 404 []) _ _ _ _);
    try (vm_compute; reflexivity); discriminate.
Defined.

Lemma finished_tree_has_both_sections_witness :
  run_site site_A = (Ok site_A_tree, snd (run_site site_A))
  /\ has_sections site_A_tree = true.
Proof.
  assert (H : run_site site_A = (Ok site_A_tree, snd (run_site site_A)))
    by (vm_compute; reflexivity).
  split; [exact H|].
  exact (@finished_tree_has_both_sections
           ex_sha256 site_A ex_soup ex_dumps ex_start_url empty_world
           (snd (run_site site_A)) site_A_tree H).
Defined.

Lemma finished_run_fetches_every_listed_page_witness :
  run_site site_A = (Ok site_A_tree, snd (run_site site_A))
  /\ exists start_props w1 non_reference_pages,
       ex_fetch site_A ex_start_url empty_world = (Ok start_props, w1)
       /\ collect_non_reference start_props = Ok non_reference_pages
       /\ fetch_calls (snd (run_site site_A))
          = fetch_calls empty_world
            ++ ex_start_url
               :: crawl_urls (make_url_prefix ex_start_url)
                    non_reference_pages (listed_refs start_props).
Proof.
  assert (H : run_site site_A = (Ok site_A_tree, snd (run_site site_A)))
    by (vm_compute; reflexivity).
  split; [exact H|].
  exact (@finished_run_fetches_every_listed_page
           ex_sha256 site_A ex_soup ex_dumps ex_start_url empty_world
           (snd (run_site site_A)) site_A_tree H).
Defined.

Lemma skipped_slugs_are_the_marked_ones_witness :
  collect_non_reference (start_props_of site_A) = Ok (non_reference_of site_A)
  /\ (set_contains (JStr (u "guide")) (non_reference_of site_A) = Ok true
      <-> marked_non_reference (start_props_of site_A) (u "guide")).
Proof.
  assert (H : collect_non_reference (start_props_of site_A)
              = Ok (non_reference_of site_A)) by (vm_compute; reflexivity).
  split; [exact H|].
  exact (@skipped_slugs_are_the_marked_ones
           (start_props_of site_A) (non_reference_of site_A) (u "guide") H).
Defined.

Lemma url_prefix_ends_with_a_slash_witness :
  endswith (u "/") ex_start_url = false
  /\ make_url_prefix (ex_start_url ++ u "/") = make_url_prefix ex_start_url.
Proof.
  split; [reflexivity|].
  exact (proj2 (proj2 (proj2 (@url_prefix_ends_with_a_slash ex_start_url)))
           eq_refl).
Defined.
